(** * Glouton monitoring agent: data-plane properties

    A shallow embedding of the parts of the agent that its specification
    makes claims about: the threshold evaluator (threshold/threshold.go),
    the discovery refresh (discovery/discovery.go), the netstat address
    de-duplication (package facts), the pushed-point store of the metric
    registry (prometheus/registry/registry.go) and the synchronizer's
    disablement gate and password generator (package synchronizer).

    Conventions.
    - [time.Time] is an integer number of nanoseconds counted from Go's zero
      Time (January 1, year 1, 00:00:00 UTC), so the zero Time is [0];
      [time.Duration] is an integer number of nanoseconds.  [Sub] saturates
      to the int64 range as Go's does.
    - Every read of the clock ([time.Now()], [time.Since]) is an explicit
      argument of the function that performs it.
    - Go maps are stdpp [gmap]s; a missing key reads as the zero value.
    - [float64] values are IEEE-754 values of [SpecFloat.spec_float]. *)

From Stdlib Require Import ZArith Lia Bool List Ascii String.
From Stdlib Require Import DecimalString DecimalZ DecimalPos.
From Stdlib Require Import Floats.SpecFloat.
From stdpp Require Import base option list strings gmap fin_maps sorting.

Local Open Scope Z_scope.

(** * Part I: the embedding *)

(** ** Package time *)

Module GoTime.

Definition Time : Type := Z.
Definition Duration : Type := Z.

Definition zeroTime : Time := 0.

Definition Second : Duration := 1000000000.
Definition Minute : Duration := 60 * Second.

Definition maxDuration : Duration := 2 ^ 63 - 1.
Definition minDuration : Duration := - 2 ^ 63.

Definition IsZero (t : Time) : bool := t =? 0.
Definition After (t u : Time) : bool := u <? t.
Definition Before (t u : Time) : bool := t <? u.
Definition Add (t : Time) (d : Duration) : Time := t + d.

(** [t.Sub(u)]: the difference, clamped to what a Duration can hold. *)
Definition Sub (t u : Time) : Duration :=
  if maxDuration <? t - u then maxDuration
  else if t - u <? minDuration then minDuration
  else t - u.

End GoTime.

(** ** Package types *)

Module Types.
Import GoTime.

(** Modelled from the spec: the tagged status variants
    [ok | warning | critical | unknown | unset] of package types, whose
    declaration is not part of the sources at hand.  [StatusUnset] is the
    zero value of the type. *)
Inductive Status : Type :=
| StatusUnset
| StatusOk
| StatusWarning
| StatusCritical
| StatusUnknown.

Definition Status_eqb (a b : Status) : bool :=
  match a, b with
  | StatusUnset, StatusUnset
  | StatusOk, StatusOk
  | StatusWarning, StatusWarning
  | StatusCritical, StatusCritical
  | StatusUnknown, StatusUnknown => true
  | _, _ => false
  end.

(** [Status.IsSet] *)
Definition IsSet (s : Status) : bool := negb (Status_eqb s StatusUnset).

(** Modelled from the spec: a metric point is a label set, a timestamp, a
    float64 value and annotations (status, bleemeo-item tag, status-of peer
    name).  Only the fields the threshold evaluator and the registry read
    are kept.  The Go field [StatusDescription.StatusDescription] is
    [StatusText] here and [MetricAnnotations.Status] is [AStatus], since
    a Rocq record cannot share a name with its field or with the type
    [Status]. *)
Record StatusDescription : Type := {
  CurrentStatus : Status;
  StatusText : string
}.

Record MetricAnnotations : Type := {
  AStatus : StatusDescription;
  BleemeoItem : string;
  StatusOf : string
}.

Record Point : Type := {
  PTime : Time;
  Value : spec_float
}.

Record MetricPoint : Type := {
  MPoint : Point;
  Labels : gmap string string;
  Annotations : MetricAnnotations
}.

(** [types.LabelName] *)
Definition LabelName : string := "__name__".

End Types.

(** ** Package threshold (threshold/threshold.go) *)

Module Threshold.
Import GoTime Types.

Definition statusCacheKey : string := "CacheStatusState".

(** [MetricNameItem] is the couple Name and Item. *)
Abbreviation MetricNameItem := (string * string)%type.
Definition Name (k : MetricNameItem) : string := fst k.
Definition Item (k : MetricNameItem) : string := snd k.

Record statusState : Type := {
  CurrentStatus : Status;
  CriticalSince : Time;
  WarningSince : Time;
  LastUpdate : Time
}.

(** The zero value of [statusState], which a Go map lookup yields for a key
    that is not in the map. *)
Definition zeroStatusState : statusState :=
  {| CurrentStatus := StatusUnset;
     CriticalSince := zeroTime;
     WarningSince := zeroTime;
     LastUpdate := zeroTime |}.

Record jsonState : Type := {
  jsMetricNameItem : MetricNameItem;
  jsStatusState : statusState
}.

(** A [jsonState] as the pair of its two embedded structs. *)
Definition entryOf (v : jsonState) : MetricNameItem * statusState :=
  (jsMetricNameItem v, jsStatusState v).

(** The [State] interface.  [StateGet st key] returns what the call leaves in
    its result argument together with whether it returned an error;
    [StateSet st key v] returns the store after the call and whether it
    returned an error. *)
Class State (S : Type) : Type := {
  StateGet : S -> string -> list jsonState * bool;
  StateSet : S -> string -> list jsonState -> S * bool
}.

(** [statusState.Update].  [now] is the argument of the call, [clock] is what
    the call to [time.Now()] at its end returns. *)
Definition statusState_Update (s : statusState) (newStatus : Status)
    (period : Duration) (now clock : Time) : statusState :=
  let current0 :=
    if Status_eqb (CurrentStatus s) StatusUnset then newStatus else CurrentStatus s in
  (* Make sure time didn't jump backward. *)
  let critical0 := if After (CriticalSince s) now then zeroTime else CriticalSince s in
  let warning0 := if After (WarningSince s) now then zeroTime else WarningSince s in
  let '(critical1, warning1, criticalDuration, warningDuration) :=
    match newStatus with
    | StatusCritical =>
        let c := if IsZero critical0 then now else critical0 in
        let w := if IsZero warning0 then now else warning0 in
        (c, w, Sub now c, Sub now w)
    | StatusWarning =>
        let w := if IsZero warning0 then now else warning0 in
        (zeroTime, w, 0, Sub now w)
    | _ => (zeroTime, zeroTime, 0, 0)
    end in
  let current1 :=
    if period =? 0 then newStatus
    else if period <=? criticalDuration then StatusCritical
    else if period <=? warningDuration then StatusWarning
    else if Status_eqb current0 StatusCritical && Status_eqb newStatus StatusWarning
      then StatusWarning (* downgrade status immediately *)
    else if Status_eqb newStatus StatusOk
      then StatusOk (* downgrade status immediately *)
    else current0 in
  {| CurrentStatus := current1;
     CriticalSince := critical1;
     WarningSince := warning1;
     LastUpdate := clock |}.

(** One soft-period update: the raw status, the period, and the two clock
    readings. *)
Record update : Type := {
  raw : Status;
  period : Duration;
  now : Time;
  clock : Time
}.

Definition apply (s : statusState) (u : update) : statusState :=
  statusState_Update s (raw u) (period u) (now u) (clock u).

(** The state of a key after a sequence of updates from the initial state. *)
Definition run (us : list update) : statusState :=
  fold_left apply us zeroStatusState.

(** The states a key can be in. *)
Inductive reachable : statusState -> Prop :=
| reachable_initial : reachable zeroStatusState
| reachable_Update s newStatus period now clock :
    reachable s ->
    reachable (statusState_Update s newStatus period now clock).

(** Whenever a critical period is open, a warning period is open too and it
    did not start later. *)
Definition ordered (s : statusState) : Prop :=
  CriticalSince s <> 0 ->
  WarningSince s <> 0 /\ WarningSince s <= CriticalSince s.

(** [Threshold]: min/max limits, NaN marks a limit as unset. *)
Record Threshold : Type := {
  LowCritical : spec_float;
  LowWarning : spec_float;
  HighWarning : spec_float;
  HighCritical : spec_float
}.

Definition NaN : spec_float := S754_nan.

(** [math.IsNaN] *)
Definition IsNaN (f : spec_float) : bool :=
  match f with
  | S754_nan => true
  | _ => false
  end.

(** Go's [<] and [>] on float64. *)
Definition flt (a b : spec_float) : bool := SFltb a b.
Definition fgt (a b : spec_float) : bool := SFltb b a.

Definition fzero : spec_float := S754_zero false.

(** [Threshold.IsZero] *)
Definition Threshold_IsZero (t : Threshold) : bool :=
  if IsNaN (LowCritical t) && IsNaN (LowWarning t)
     && IsNaN (HighWarning t) && IsNaN (HighCritical t)
  then true
  else SFeqb (LowCritical t) fzero && SFeqb (LowWarning t) fzero
       && SFeqb (HighWarning t) fzero && SFeqb (HighCritical t) fzero.

(** [Threshold.CurrentStatus]: the status and, if not ok, the exceeded
    limit. *)
Definition Threshold_CurrentStatus (t : Threshold) (value : spec_float)
    : Status * spec_float :=
  if negb (IsNaN (LowCritical t)) && flt value (LowCritical t)
  then (StatusCritical, LowCritical t)
  else if negb (IsNaN (LowWarning t)) && flt value (LowWarning t)
  then (StatusWarning, LowWarning t)
  else if negb (IsNaN (HighCritical t)) && fgt value (HighCritical t)
  then (StatusCritical, HighCritical t)
  else if negb (IsNaN (HighWarning t)) && fgt value (HighWarning t)
  then (StatusWarning, HighWarning t)
  else (StatusOk, NaN).

(** The raw status of a point: what [addPointWithThreshold] calls
    [softStatus]. *)
Definition rawStatus (t : Threshold) (point : MetricPoint) : Status :=
  fst (Threshold_CurrentStatus t (Value (MPoint point))).

Record Unit : Type := {
  UnitType : Z;
  UnitText : string
}.

Definition zeroUnit : Unit := {| UnitType := 0; UnitText := "" |}.

Definition nanThreshold : Threshold :=
  {| LowCritical := NaN; LowWarning := NaN; HighWarning := NaN; HighCritical := NaN |}.

Definition zeroThreshold : Threshold :=
  {| LowCritical := fzero; LowWarning := fzero;
     HighWarning := fzero; HighCritical := fzero |}.

(** Go's [==] on float64 and on [Threshold] structs (field by field). *)
Definition feq (a b : spec_float) : bool := SFeqb a b.

Definition Threshold_eq (t other : Threshold) : bool :=
  feq (LowCritical t) (LowCritical other)
  && feq (LowWarning t) (LowWarning other)
  && feq (HighWarning t) (HighWarning other)
  && feq (HighCritical t) (HighCritical other).

(** One of the four tests of [Threshold.Equal]:
    [a != b && (!math.IsNaN(a) || !math.IsNaN(b))]. *)
Definition differ (a b : spec_float) : bool :=
  negb (feq a b) && (negb (IsNaN a) || negb (IsNaN b)).

(** Two limits that no test of [Threshold.Equal] tells apart: equal numbers,
    or both unset. *)
Definition sameLimit (a b : spec_float) : bool :=
  feq a b || (IsNaN a && IsNaN b).

(** [Threshold.Equal] *)
Definition Threshold_Equal (t other : Threshold) : bool :=
  if Threshold_eq t other then true
  (* Need special handling for NaN *)
  else if differ (LowCritical t) (LowCritical other) then false
  else if differ (LowWarning t) (LowWarning other) then false
  else if differ (HighWarning t) (HighWarning other) then false
  else if differ (HighCritical t) (HighCritical other) then false
  else true.

(** What a [map[string]interface{}] holds under a key, as far as the type
    switch of [FromInterfaceMap] tells values apart: a float64, an int, or a
    value of another type (kept by its text). *)
Inductive iface : Type :=
| ifaceFloat64 (v : spec_float)
| ifaceInt (v : Z)
| ifaceOther (text : string).

(** The conversion [float64(v)] of an int: the nearest float64, ties to
    even. *)
Definition float64_of_int (v : Z) : spec_float :=
  binary_normalize 53 1024 v 0 false.

(** The assignment [switch name] of [FromInterfaceMap] makes. *)
Definition setLimit (result : Threshold) (name : string) (value : spec_float)
    : Threshold :=
  if String.eqb name "low_critical"
  then {| LowCritical := value; LowWarning := LowWarning result;
          HighWarning := HighWarning result; HighCritical := HighCritical result |}
  else if String.eqb name "low_warning"
  then {| LowCritical := LowCritical result; LowWarning := value;
          HighWarning := HighWarning result; HighCritical := HighCritical result |}
  else if String.eqb name "high_warning"
  then {| LowCritical := LowCritical result; LowWarning := LowWarning result;
          HighWarning := value; HighCritical := HighCritical result |}
  else if String.eqb name "high_critical"
  then {| LowCritical := LowCritical result; LowWarning := LowWarning result;
          HighWarning := HighWarning result; HighCritical := value |}
  else result.

(** The loop of [FromInterfaceMap] over the names left; the error is the
    value that is not a number. *)
Fixpoint FromInterfaceMap_loop (input : gmap string iface) (names : list string)
    (result : Threshold) : Threshold * option iface :=
  match names with
  | [] => (result, None)
  | name :: rest =>
      match input !! name with
      | Some (ifaceFloat64 v) => FromInterfaceMap_loop input rest (setLimit result name v)
      | Some (ifaceInt v) =>
          FromInterfaceMap_loop input rest (setLimit result name (float64_of_int v))
      | Some raw => (result, Some raw)
      | None => FromInterfaceMap_loop input rest result
      end
  end.

(** The names [FromInterfaceMap] ranges over, in its order. *)
Definition limitNames : list string :=
  ["low_critical"; "low_warning"; "high_warning"; "high_critical"].

(** [FromInterfaceMap] *)
Definition FromInterfaceMap (input : gmap string iface) : Threshold * option iface :=
  FromInterfaceMap_loop input limitNames nanThreshold.

(** Whether the input holds a number, or nothing, under a name; and the limit
    it gives for the name: the number, unset when there is none. *)
Definition numeric (input : gmap string iface) (name : string) : bool :=
  match input !! name with
  | Some (ifaceOther _) => false
  | _ => true
  end.

Definition limitOf (input : gmap string iface) (name : string) : spec_float :=
  match input !! name with
  | Some (ifaceFloat64 v) => v
  | Some (ifaceInt v) => float64_of_int v
  | _ => NaN
  end.

Section WithState.
Context {S : Type} `{State S}.

Record Registry : Type := {
  state : S;
  states : gmap MetricNameItem statusState;
  units : gmap MetricNameItem Unit;
  thresholdsAllItem : gmap string Threshold;
  thresholds : gmap MetricNameItem Threshold;
  defaultSoftPeriod : Duration;
  softPeriods : gmap string Duration
}.

(** [New]: note the test [err != nil] that guards the loop. *)
Definition New (st : S) : Registry :=
  let '(jsonList, err) := StateGet st statusCacheKey in
  let loaded :=
    if err
    then fold_left (fun m v => <[jsMetricNameItem v := jsStatusState v]> m) jsonList ∅
    else ∅ in
  {| state := st;
     states := loaded;
     units := ∅;
     thresholdsAllItem := ∅;
     thresholds := ∅;
     defaultSoftPeriod := 300 * Second;
     softPeriods := ∅ |}.

Definition Registry_SetThresholds (r : Registry)
    (thresholdWithItem : gmap MetricNameItem Threshold)
    (thresholdAllItem : gmap string Threshold) : Registry :=
  {| state := state r; states := states r; units := units r;
     thresholdsAllItem := thresholdAllItem;
     thresholds := thresholdWithItem;
     defaultSoftPeriod := defaultSoftPeriod r;
     softPeriods := softPeriods r |}.

Definition Registry_SetSoftPeriod (r : Registry) (defaultPeriod : Duration)
    (periodPerMetrics : gmap string Duration) : Registry :=
  {| state := state r; states := states r; units := units r;
     thresholdsAllItem := thresholdsAllItem r;
     thresholds := thresholds r;
     defaultSoftPeriod := defaultPeriod;
     softPeriods := periodPerMetrics |}.

Definition Registry_getThreshold (r : Registry) (key : MetricNameItem) : Threshold :=
  match thresholds r !! key with
  | Some threshold => threshold
  | None =>
      let v := default zeroThreshold (thresholdsAllItem r !! Name key) in
      if Threshold_IsZero v then nanThreshold else v
  end.

(** The [jsonList] of [Registry.run] for the states it keeps: one
    [jsonState] per entry of the map, in the order the map is ranged over. *)
Definition jsonListOf (m : gmap MetricNameItem statusState) : list jsonState :=
  (fun kv => {| jsMetricNameItem := kv.1; jsStatusState := kv.2 |})
    <$> map_to_list m.

(** [time.Since(v.LastUpdate) > 60*time.Minute] *)
Definition outdated (now : Time) (v : statusState) : bool :=
  60 * Minute <? Sub now (LastUpdate v).

(** [Registry.run]: states not updated for more than 60 minutes are deleted,
    the others are listed, and the list is stored when [save] is set (the
    error of [Set] is dropped).  [now] is the clock of the call. *)
Definition Registry_run (r : Registry) (save : bool) (now : Time) : Registry :=
  let kept := filter (fun kv => outdated now kv.2 = false) (states r) in
  let jsonList := jsonListOf kept in
  {| state := if save then fst (StateSet (state r) statusCacheKey jsonList) else state r;
     states := kept;
     units := units r;
     thresholdsAllItem := thresholdsAllItem r;
     thresholds := thresholds r;
     defaultSoftPeriod := defaultSoftPeriod r;
     softPeriods := softPeriods r |}.

(** What wakes the [select] of [Registry.Run] up. *)
Inductive wakeup : Type :=
| ctxDone
| minuteElapsed.

(** One turn of the loop of [Registry.Run]: [now] is the clock of the turn,
    the result is the registry and the new [lastSave]. *)
Definition Registry_Run_turn (r : Registry) (lastSave : Time)
    (w : wakeup) (now : Time) : Registry * Time :=
  let save := match w with ctxDone => true | minuteElapsed => false end in
  let save := if 60 * Minute <? Sub now lastSave then true else save in
  let r' := Registry_run r save now in
  (r', if save then now else lastSave).

(** [Registry.Run], over the list of wake-ups the loop goes through; the
    loop is left once the context is done. *)
Fixpoint Registry_Run_loop (r : Registry) (lastSave : Time)
    (trace : list (wakeup * Time)) : Registry * Time :=
  match trace with
  | [] => (r, lastSave)
  | (w, now) :: rest =>
      let '(r', lastSave') := Registry_Run_turn r lastSave w now in
      match w with
      | ctxDone => (r', lastSave')
      | minuteElapsed => Registry_Run_loop r' lastSave' rest
      end
  end.

Definition Registry_Run (r : Registry) (start : Time)
    (trace : list (wakeup * Time)) : Registry :=
  fst (Registry_Run_loop r start trace).

(** The period [addPointWithThreshold] uses for a key. *)
Definition periodOf (r : Registry) (key : MetricNameItem) : Duration :=
  match softPeriods r !! Name key with
  | Some tmp => tmp
  | None => defaultSoftPeriod r
  end.

(** The state [addPointWithThreshold] stores for the key. *)
Definition nextState (r : Registry) (threshold : Threshold) (key : MetricNameItem)
    (point : MetricPoint) (t c : Time) : statusState :=
  statusState_Update (default zeroStatusState (states r !! key))
    (rawStatus threshold point) (periodOf r key) t c.

(** [Registry.SetUnits] *)
Definition Registry_SetUnits (r : Registry) (newUnits : gmap MetricNameItem Unit)
    : Registry :=
  {| state := state r; states := states r; units := newUnits;
     thresholdsAllItem := thresholdsAllItem r;
     thresholds := thresholds r;
     defaultSoftPeriod := defaultSoftPeriod r;
     softPeriods := softPeriods r |}.

(** The key [PushPoints] builds for a point. *)
Definition keyOfPoint (point : MetricPoint) : MetricNameItem :=
  (default "" (Labels point !! LabelName), BleemeoItem (Annotations point)).

(** Whether [PushPoints] hands a point to [addPointWithThreshold]: its status
    is not set and the threshold of its key is not zero. *)
Definition evaluated (r : Registry) (point : MetricPoint) : bool :=
  negb (IsSet (Types.CurrentStatus (AStatus (Annotations point))))
  && negb (Threshold_IsZero (Registry_getThreshold r (keyOfPoint point))).

(** What a point carries besides its status. *)
Definition payload (point : MetricPoint)
    : Point * gmap string string * string * string :=
  (MPoint point, Labels point,
   BleemeoItem (Annotations point), StatusOf (Annotations point)).

(** A point that carries a status as the evaluator writes it: a status that
    is set, and a description that starts with the words its consumers
    expect. *)
Definition annotated (q : MetricPoint) : Prop :=
  IsSet (Types.CurrentStatus (AStatus (Annotations q))) = true
  /\ String.prefix "Current value: " (StatusText (AStatus (Annotations q))) = true.

(** [q] is the status companion of [p]: named after it with the suffix
    _status, with its other labels, its time and its item, and with its name
    as status-of name. *)
Definition companionOf (p q : MetricPoint) : Prop :=
  PTime (MPoint q) = PTime (MPoint p)
  /\ Labels q
     = <[LabelName := default "" (Labels p !! LabelName) +:+ "_status"]> (Labels p)
  /\ StatusOf (Annotations q) = default "" (Labels p !! LabelName)
  /\ BleemeoItem (Annotations q) = BleemeoItem (Annotations p).

Section Pusher.
(** The text formatting of floats and durations ([formatValue],
    [formatDuration], built on [fmt.Sprintf]) and the Nagios code of a status
    as a float64 are parameters of the pusher. *)
Variable formatValue : spec_float -> Unit -> string.
Variable formatDuration : Duration -> string.
Variable NagiosCode : Status -> spec_float.

(** [pusher.addPointWithThreshold]; [now] and [clock] are the two readings of
    the clock the call makes. *)
Definition pusher_addPointWithThreshold (r : Registry) (points : list MetricPoint)
    (point : MetricPoint) (threshold : Threshold) (key : MetricNameItem)
    (now clock : Time) : Registry * list MetricPoint :=
  let '(softStatus, thresholdLimit) :=
    Threshold_CurrentStatus threshold (Value (MPoint point)) in
  let previousState := default zeroStatusState (states r !! key) in
  let period :=
    match softPeriods r !! Name key with
    | Some tmp => tmp
    | None => defaultSoftPeriod r
    end in
  let newState := statusState_Update previousState softStatus period now clock in
  let r' :=
    {| state := state r;
       states := <[key := newState]> (states r);
       units := units r;
       thresholdsAllItem := thresholdsAllItem r;
       thresholds := thresholds r;
       defaultSoftPeriod := defaultSoftPeriod r;
       softPeriods := softPeriods r |} in
  let unit := default zeroUnit (units r !! key) in
  let statusDescription :=
    "Current value: " +:+ formatValue (Value (MPoint point)) unit in
  let statusDescription :=
    if negb (Status_eqb (CurrentStatus newState) StatusOk)
    then
      if 0 <? period
      then statusDescription +:+ " threshold (" +:+ formatValue thresholdLimit unit
           +:+ ") exceeded over last " +:+ formatDuration period
      else statusDescription +:+ " threshold (" +:+ formatValue thresholdLimit unit
           +:+ ") exceeded"
    else statusDescription in
  let status :=
    {| Types.CurrentStatus := CurrentStatus newState;
       StatusText := statusDescription |} in
  let annotationsCopy :=
    {| AStatus := status;
       BleemeoItem := BleemeoItem (Annotations point);
       StatusOf := StatusOf (Annotations point) |} in
  let labelsCopy :=
    <[LabelName := default "" (Labels point !! LabelName) +:+ "_status"]> (Labels point) in
  let annotationsCopy2 :=
    {| AStatus := status;
       BleemeoItem := BleemeoItem (Annotations point);
       StatusOf := default "" (Labels point !! LabelName) |} in
  (r',
   points ++
   [ {| MPoint := MPoint point; Labels := Labels point; Annotations := annotationsCopy |};
     {| MPoint := {| PTime := PTime (MPoint point);
                     Value := NagiosCode (Types.CurrentStatus status) |};
        Labels := labelsCopy;
        Annotations := annotationsCopy2 |} ]).

(** The loop of [pusher.PushPoints]; every point comes with the two clock
    readings its processing makes. *)
Fixpoint pusher_PushPoints_loop (r : Registry) (result : list MetricPoint)
    (points : list (MetricPoint * (Time * Time))) : Registry * list MetricPoint :=
  match points with
  | [] => (r, result)
  | (point, (now, clock)) :: rest =>
      if negb (IsSet (Types.CurrentStatus (AStatus (Annotations point))))
      then
        let key := (default "" (Labels point !! LabelName),
                    BleemeoItem (Annotations point)) in
        let threshold := Registry_getThreshold r key in
        if negb (Threshold_IsZero threshold)
        then
          let '(r', result') :=
            pusher_addPointWithThreshold r result point threshold key now clock in
          pusher_PushPoints_loop r' result' rest
        else pusher_PushPoints_loop r (result ++ [point]) rest
      else pusher_PushPoints_loop r (result ++ [point]) rest
  end.

(** [pusher.PushPoints]: the registry afterwards and the points handed to the
    wrapped pusher. *)
Definition pusher_PushPoints (r : Registry)
    (points : list (MetricPoint * (Time * Time))) : Registry * list MetricPoint :=
  pusher_PushPoints_loop r [] points.

(** Successive calls of [addPointWithThreshold] for one key, each with its
    point and its two clock readings; the result lists, call after call, the
    current status carried by the points the call emits. *)
Fixpoint emittedStatuses (r : Registry) (threshold : Threshold) (key : MetricNameItem)
    (stream : list (MetricPoint * (Time * Time))) : list (list Status) :=
  match stream with
  | [] => []
  | (point, (now, clock)) :: rest =>
      let '(r', emitted) :=
        pusher_addPointWithThreshold r [] point threshold key now clock in
      ((fun q => Types.CurrentStatus (AStatus (Annotations q))) <$> emitted)
        :: emittedStatuses r' threshold key rest
  end.

End Pusher.
End WithState.

Arguments Registry S : clear implicits.

(** A [State] kept in memory: a map from keys to stored lists, whose [Get]
    and [Set] never fail, and one whose [Get] always fails after leaving a
    given list in its result. *)
Definition memState : Type := gmap string (list jsonState).

#[export] Instance memState_State : State memState := {
  StateGet st key := (default [] (st !! key), false);
  StateSet st key v := (<[key := v]> st, false)
}.

Record failingState : Type := { leftover : list jsonState }.

#[export] Instance failingState_State : State failingState := {
  StateGet st key := (leftover st, true);
  StateSet st key v := (st, true)
}.

(** *** Sample data *)

(** The float64 nearest to [m * 2^e]. *)
Definition float64 (m e : Z) : spec_float := binary_normalize 53 1024 m e false.

(** A threshold with a high warning limit of 80 and a high critical limit of
    90, and points of a metric [cpu_used] under it. *)
Definition sampleThreshold : Threshold :=
  {| LowCritical := NaN; LowWarning := NaN;
     HighWarning := float64 80 0; HighCritical := float64 90 0 |}.

Definition sampleKey : MetricNameItem := ("cpu_used", "").

Definition samplePoint (t : Time) (value : spec_float) : MetricPoint :=
  {| MPoint := {| PTime := t; Value := value |};
     Labels := {[ LabelName := "cpu_used" ]};
     Annotations :=
       {| AStatus := {| Types.CurrentStatus := StatusUnset; StatusText := "" |};
          BleemeoItem := "";
          StatusOf := "" |} |}.

(** Text formatting that only names the unit, for running the pusher. *)
Definition plainValue (value : spec_float) (unit : Unit) : string := UnitText unit.
Definition plainDuration (d : Duration) : string := "".

(** Modelled from the spec: the numeric Nagios code of a status (0 ok,
    1 warning, 2 critical, 3 unknown), as a float64; [Status.NagiosCode] is
    not part of the sources at hand. *)
Definition NagiosCode (s : Status) : spec_float :=
  match s with
  | StatusOk => float64 0 0
  | StatusWarning => float64 1 0
  | StatusCritical => float64 2 0
  | _ => float64 3 0
  end.

(** An escalation as a run of updates: ok, then critical three times, at
    0 s, 0 s, 150 s and 310 s from 2020-01-01 00:00:00 UTC, with a period of
    300 s. *)
Definition escalation : list update :=
  let t0 := 63713433600 * Second in
  [ {| raw := StatusOk; period := 300 * Second; now := t0; clock := t0 |};
    {| raw := StatusCritical; period := 300 * Second; now := t0; clock := t0 |};
    {| raw := StatusCritical; period := 300 * Second;
       now := Add t0 (150 * Second); clock := t0 |};
    {| raw := StatusCritical; period := 300 * Second;
       now := Add t0 (310 * Second); clock := t0 |} ].

(** A store that holds a persisted state for the sample key. *)
Definition persisted : memState :=
  {[ statusCacheKey :=
       [ {| jsMetricNameItem := sampleKey;
            jsStatusState :=
              {| CurrentStatus := StatusCritical;
                 CriticalSince := 63713433600 * Second;
                 WarningSince := 63713433600 * Second;
                 LastUpdate := 63713433600 * Second |} |} ] ]}.

(** A registry over an empty store that holds one state, updated at
    2020-01-01 00:00:00 UTC. *)
Definition oneState : Registry memState :=
  {| state := ∅;
     states := {[ sampleKey := run (firstn 2 escalation) ]};
     units := ∅;
     thresholdsAllItem := ∅;
     thresholds := ∅;
     defaultSoftPeriod := 300 * Second;
     softPeriods := ∅ |}.

End Threshold.

(** ** Package discovery (discovery/discovery.go) *)

Module Discovery.

(** [nameContainer]: the service name and the container it runs in. *)
Abbreviation nameContainer := (string * string)%type.

(** A [net.Addr], by what its two methods return. *)
Record Addr : Type := {
  AddrNetwork : string;
  AddrString : string
}.

(** Modelled from the spec: a [Service] has a name, a container ID, listen
    addresses, a primary IP address, an executable path, an [Active] flag and
    the [hasNetstatInfo] flag; the declaration of the type is not part of the
    sources at hand. *)
Record Service : Type := {
  Name : string;
  ContainerID : string;
  IPAddress : string;
  ListenAddresses : list Addr;
  ExePath : string;
  Active : bool;
  hasNetstatInfo : bool
}.

Definition keyOf (service : Service) : nameContainer :=
  (Name service, ContainerID service).

(** First loop of [updateDiscovery]: [service.Active = false]. *)
Definition deactivate (service : Service) : Service :=
  {| Name := Name service;
     ContainerID := ContainerID service;
     IPAddress := IPAddress service;
     ListenAddresses := ListenAddresses service;
     ExePath := ExePath service;
     Active := false;
     hasNetstatInfo := hasNetstatInfo service |}.

(** What the second loop stores for [service] when the map already holds
    [previousService] under its key. *)
Definition carryOver (previousService service : Service) : Service :=
  if hasNetstatInfo previousService && negb (hasNetstatInfo service)
  then {| Name := Name service;
          ContainerID := ContainerID service;
          IPAddress := IPAddress previousService;
          ListenAddresses := ListenAddresses previousService;
          ExePath := ExePath service;
          Active := Active service;
          hasNetstatInfo := hasNetstatInfo previousService |}
  else service.

(** Body of the second loop of [updateDiscovery]. *)
Definition updateDiscovery_observe (servicesMap : gmap nameContainer Service)
    (service : Service) : gmap nameContainer Service :=
  let key := keyOf service in
  match servicesMap !! key with
  | Some previousService => <[key := carryOver previousService service]> servicesMap
  | None => <[key := service]> servicesMap
  end.

(** [Discovery.updateDiscovery]: [dynamic] is what the dynamic discoverer
    returned, services or an error; the result is the new [d.servicesMap] and
    the error returned. *)
Definition Discovery_updateDiscovery (servicesMap : gmap nameContainer Service)
    (dynamic : list Service + string)
    : gmap nameContainer Service * option string :=
  match dynamic with
  | inr err => (servicesMap, Some err)
  | inl r =>
      (fold_left updateDiscovery_observe r (deactivate <$> servicesMap), None)
  end.

(** The fields of [Discovery] that a refresh reads and writes.  The metric
    inputs and the checks that [reconfigure] sets up in the collector and in
    the task registry are not part of this state. *)
Record Discovery : Type := {
  servicesMap : gmap nameContainer Service;
  lastDiscoveryUpdate : GoTime.Time;
  lastConfigservicesMap : gmap nameContainer Service
}.

(** [New]: the services known from a previous run, by key. *)
Definition New (initialServices : list Service) : Discovery :=
  {| servicesMap := fold_left (fun m v => <[keyOf v := v]> m) initialServices ∅;
     lastDiscoveryUpdate := GoTime.zeroTime;
     lastConfigservicesMap := ∅ |}.

(** [Discovery.LastUpdate] *)
Definition Discovery_LastUpdate (d : Discovery) : GoTime.Time := lastDiscoveryUpdate d.

(** The services of a map, in the order the map is ranged over. *)
Definition servicesOf (m : gmap nameContainer Service) : list Service :=
  (map_to_list m).*2.

(** [Discovery.discovery]: [now] is the clock [time.Since] reads, [clock] the
    one [time.Now()] reads after the update, [dynamic] what the dynamic
    discoverer returns if it is asked.  The result is the state and what is
    returned: the services, or the error. *)
Definition Discovery_discovery (d : Discovery) (maxAge : GoTime.Duration)
    (now clock : GoTime.Time) (dynamic : list Service + string)
    : Discovery * (list Service + string) :=
  if maxAge <? GoTime.Sub now (lastDiscoveryUpdate d)
  then
    match Discovery_updateDiscovery (servicesMap d) dynamic with
    | (_, Some err) => (d, inr err)
    | (updated, None) =>
        (* reconfigure, then the time of the update *)
        ({| servicesMap := updated;
            lastDiscoveryUpdate := clock;
            lastConfigservicesMap := updated |},
         inl (servicesOf updated))
    end
  else (d, inl (servicesOf (servicesMap d))).

(** The loop of [RemoveIfNonRunning]: the map and the flag [deleted]. *)
Definition RemoveIfNonRunning_step
    (acc : gmap nameContainer Service * bool) (v : Service)
    : gmap nameContainer Service * bool :=
  let key := keyOf v in
  (delete key acc.1,
   match acc.1 !! key with
   | Some _ => true
   | None => acc.2
   end).

(** [Discovery.RemoveIfNonRunning]; the error of the discovery is only
    logged. *)
Definition Discovery_RemoveIfNonRunning (d : Discovery) (services : list Service)
    (now clock : GoTime.Time) (dynamic : list Service + string) : Discovery :=
  let '(remaining, deleted) :=
    fold_left RemoveIfNonRunning_step services (servicesMap d, false) in
  let d' :=
    {| servicesMap := remaining;
       lastDiscoveryUpdate := lastDiscoveryUpdate d;
       lastConfigservicesMap := lastConfigservicesMap d |} in
  if deleted then fst (Discovery_discovery d' 0 now clock dynamic) else d'.

(** *** Sample data: memcached on the host, seen with its listening socket
    at one refresh and without it at the next. *)
Definition memcachedSeen : Service :=
  {| Name := "memcached"; ContainerID := "";
     IPAddress := "127.0.0.1";
     ListenAddresses := [ {| AddrNetwork := "tcp"; AddrString := "127.0.0.1:11211" |} ];
     ExePath := "/usr/bin/memcached";
     Active := true;
     hasNetstatInfo := true |}.

Definition memcachedBlind : Service :=
  {| Name := "memcached"; ContainerID := "";
     IPAddress := "";
     ListenAddresses := [];
     ExePath := "/usr/bin/memcached";
     Active := true;
     hasNetstatInfo := false |}.

End Discovery.

(** ** Package facts: the netstat provider, listen addresses of a PID *)

Module Netstat.

(** *** The library calls of [addAddress] *)

(** [strings.IndexByte]-like searches: position of the first and of the last
    occurrence of a byte. *)
Fixpoint IndexByte (s : string) (c : ascii) : option nat :=
  match s with
  | EmptyString => None
  | String a s' => if Ascii.eqb a c then Some O else option_map S (IndexByte s' c)
  end.

Fixpoint LastIndexByte (s : string) (c : ascii) : option nat :=
  match s with
  | EmptyString => None
  | String a s' =>
      match LastIndexByte s' c with
      | Some i => Some (S i)
      | None => if Ascii.eqb a c then Some O else None
      end
  end.

(** [strings.Contains(s, sub)] for a one-byte [sub]. *)
Definition ContainsByte (s : string) (c : ascii) : bool :=
  match IndexByte s c with
  | Some _ => true
  | None => false
  end.

(** [strings.HasPrefix] *)
Definition HasPrefix (s p : string) : bool := String.prefix p s.

(** The slices [s[i:]] and [s[i:j]]. *)
Definition sliceFrom (i : nat) (s : string) : string :=
  substring i (String.length s - i) s.
Definition slice (i j : nat) (s : string) : string :=
  substring i (j - i) s.

(** Whether [s[0] == c]. *)
Definition firstByteIs (s : string) (c : ascii) : bool :=
  match s with
  | EmptyString => false
  | String a _ => Ascii.eqb a c
  end.

(** The two last checks of [net.SplitHostPort] and its result. *)
Definition checkBrackets (hostport host : string) (i j k : nat)
    : option (string * string) :=
  if ContainsByte (sliceFrom j hostport) "["
  then None (* unexpected '[' in address *)
  else if ContainsByte (sliceFrom k hostport) "]"
  then None (* unexpected ']' in address *)
  else Some (host, sliceFrom (S i) hostport).

(** [net.SplitHostPort]: host and port, or [None] for an error. *)
Definition SplitHostPort (hostport : string) : option (string * string) :=
  match LastIndexByte hostport ":" with
  | None => None (* missing port in address *)
  | Some i =>
      if firstByteIs hostport "["
      then
        match IndexByte hostport "]" with
        | None => None (* missing ']' in address *)
        | Some end_ =>
            if Nat.eqb (S end_) (String.length hostport) then None
            else if Nat.eqb (S end_) i
            then checkBrackets hostport (slice 1 end_ hostport) i 1%nat (S end_)
            else None
        end
      else
        let host := slice 0 i hostport in
        if ContainsByte host ":"
        then None (* too many colons in address *)
        else checkBrackets hostport host i O O
  end.

Definition minInt : Z := - 2 ^ 63.
Definition maxInt : Z := 2 ^ 63 - 1.

(** [strconv.ParseInt(s, 10, 0)]: an optional sign and decimal digits, in
    the range of an int; [None] for an error. *)
Definition ParseInt (s : string) : option Z :=
  let neg := firstByteIs s "-" in
  let digits :=
    if firstByteIs s "+" || firstByteIs s "-" then sliceFrom 1 s else s in
  match NilZero.uint_of_string digits with
  | None => None
  | Some u =>
      let v := if neg then - Z.of_uint u else Z.of_uint u in
      if (minInt <=? v) && (v <=? maxInt) then Some v else None
  end.

(** [fmt.Sprintf] with the verb d on an int. *)
Definition formatInt (z : Z) : string := NilZero.string_of_int (Z.to_int z).

(** *** [listenAddress] and [addAddress] *)

Record listenAddress : Type := {
  network : string;
  address : string;
  port : Z
}.

(** [listenAddress.Network] *)
Definition listenAddress_Network (l : listenAddress) : string := network l.

(** [listenAddress.String] *)
Definition listenAddress_String (l : listenAddress) : string :=
  if String.eqb (network l) "unix" then address l
  else address l +:+ ":" +:+ formatInt (port l).

(** The IPv6 block of [addAddress]: the address it goes on with, or [None]
    where it returns [addresses] as they are. *)
Definition projectIPv6 (newAddr : listenAddress) : option listenAddress :=
  if String.eqb (network newAddr) "tcp6" || String.eqb (network newAddr) "udp6"
  then
    let a1 := if String.eqb (address newAddr) "::" then "0.0.0.0" else address newAddr in
    let a2 := if String.eqb a1 "::1" then "127.0.0.1" else a1 in
    if ContainsByte a2 ":"
    then None (* still an IPv6 address *)
    else Some {| network := slice 0 3 (network newAddr);
                 address := a2;
                 port := port newAddr |}
  else Some newAddr.

(** How the [for] loop of [addAddress] ends: on an error (the function
    returns [addresses]), on a duplicate (with the slice as the loop leaves
    it), or at the end of the slice. *)
Inductive scanned : Type :=
| scanError
| scanDuplicate (addresses : list listenAddress)
| scanEnd.

(** The port the loop reads back from an address of the slice, through
    [net.SplitHostPort] and [strconv.ParseInt]; [None] if either fails. *)
Definition readPort (v : listenAddress) : option Z :=
  match SplitHostPort (listenAddress_String v) with
  | None => None
  | Some (_, otherPortStr) => ParseInt otherPortStr
  end.

Fixpoint scan (addresses : list listenAddress) (newAddr : listenAddress) : scanned :=
  match addresses with
  | [] => scanEnd
  | v :: rest =>
      let continue :=
        match scan rest newAddr with
        | scanDuplicate rest' => scanDuplicate (v :: rest')
        | other => other
        end in
      if negb (String.eqb (listenAddress_Network v) (listenAddress_Network newAddr))
      then continue
      else
        match readPort v with
        | None => scanError
        | Some otherPort =>
            if otherPort =? port newAddr
            then
              (* We prefere 127.* address *)
              if HasPrefix (address newAddr) "127."
              then scanDuplicate (newAddr :: rest)
              else scanDuplicate (v :: rest)
            else continue
        end
  end.

(** [addAddress] *)
Definition addAddress (addresses : list listenAddress) (newAddr : listenAddress)
    : list listenAddress :=
  if negb (String.eqb (network newAddr) "unix")
  then
    match projectIPv6 newAddr with
    | None => addresses
    | Some newAddr' =>
        match scan addresses newAddr' with
        | scanError => addresses
        | scanDuplicate addresses' => addresses'
        | scanEnd => addresses ++ [newAddr']
        end
    end
  else addresses ++ [newAddr].

(** What [decodeNetstatFile] and [Netstat] do with each listening socket they
    read, a PID and an address: [result[pid] = addAddress(result[pid], addr)]. *)
Definition record (result : gmap Z (list listenAddress))
    (entry : Z * listenAddress) : gmap Z (list listenAddress) :=
  <[entry.1 := addAddress (default [] (result !! entry.1)) entry.2]> result.

(** The map from PID to listen addresses built from the sockets read, in the
    order they are read (the file first, the live connections next). *)
Definition inventory (entries : list (Z * listenAddress))
    : gmap Z (list listenAddress) :=
  fold_left record entries ∅.

(** The addresses of a PID, from the sockets read for it alone. *)
Definition addressesOf (entries : list (Z * listenAddress)) (pid : Z)
    : list listenAddress :=
  fold_left addAddress (snd <$> filter (fun e => e.1 = pid) entries) [].

(** *** The words of the invariant *)

(** What two addresses of a PID may not share. *)
Definition socket (a : listenAddress) : string * Z := (network a, port a).

(** An address of a network other than unix. *)
Definition inet (a : listenAddress) : bool := negb (String.eqb (network a) "unix").

Definition sockets (l : list listenAddress) : list (string * Z) :=
  socket <$> filter (fun a => inet a = true) l.

Definition loopback (a : listenAddress) : bool := HasPrefix (address a) "127.".

(** A host that [net.SplitHostPort] takes as it is: no colon, no bracket. *)
Definition plainHost (a : string) : bool :=
  negb (ContainsByte a ":") && negb (ContainsByte a "[") && negb (ContainsByte a "]").

(** A socket whose address, once projected to IPv4, is a plain host with a
    port in the range of an int. *)
Definition wellFormed (c : listenAddress) : bool :=
  if inet c
  then
    match projectIPv6 c with
    | Some c' => plainHost (address c') && (minInt <=? port c') && (port c' <=? maxInt)
    | None => true
    end
  else true.

(** A string without colon, bracket or sign. *)
Definition digitsOnly (s : string) : Prop :=
  forall c, In c [":"; "["; "]"; "+"; "-"]%char -> IndexByte s c = None.

(** An address of the slice whose port the loop can read back. *)
Definition readable (v : listenAddress) : Prop :=
  inet v = true -> plainHost (address v) = true /\ minInt <= port v <= maxInt.

(** The slice holds an address of socket [k], a loopback one if [lo] is
    set. *)
Definition survives (l : list listenAddress) (k : string * Z) (lo : bool) : Prop :=
  exists v, v ∈ l /\ inet v = true /\ socket v = k /\ (lo = true -> loopback v = true).

(** *** Sample data: sockets of a process *)
Definition rabbitmqAny : listenAddress :=
  {| network := "tcp"; address := "0.0.0.0"; port := 5672 |}.
Definition rabbitmqLoopback : listenAddress :=
  {| network := "tcp6"; address := "::1"; port := 5672 |}.
Definition socketA : listenAddress :=
  {| network := "unix"; address := "/run/a.sock"; port := 0 |}.
Definition socketB : listenAddress :=
  {| network := "unix"; address := "/run/b.sock"; port := 0 |}.

End Netstat.

(** ** Package registry (prometheus/registry/registry.go): pushed points *)

Module PromRegistry.
Import GoTime Types.

Definition pushedPointsCleanupInterval : Duration := 5 * Minute.

(** The fields of [Registry] that hold pushed points; [PushPoint] tells
    whether a sink is configured. *)
Record Registry : Type := {
  PushPoint : bool;
  pushedPoints : gmap string MetricPoint;
  pushedPointsExpiration : gmap string Time;
  lastPushedPointsCleanup : Time
}.

(** A metric as [pushCollector.Collect] sends it: built by
    [NewMetricWithTimestamp] from the name, the other labels, the time and
    the value of a point. *)
Record constMetric : Type := {
  fqName : string;
  constLabels : gmap string string;
  timestamp : Time;
  untypedValue : spec_float
}.

Definition metricOf (p : MetricPoint) : constMetric :=
  {| fqName := default "" (Labels p !! "__name__");
     constLabels := delete "__name__" (Labels p);
     timestamp := PTime (MPoint p);
     untypedValue := Value (MPoint p) |}.

Section WithLabelsToText.
(** [types.LabelsToText], the text of a label set. *)
Variable LabelsToText : gmap string string -> string.

(** The first loop of [pushPoint]. *)
Definition store (deadline : Time)
    (maps : gmap string MetricPoint * gmap string Time) (point : MetricPoint)
    : gmap string MetricPoint * gmap string Time :=
  let key := LabelsToText (Labels point) in
  (<[key := point]> maps.1, <[key := deadline]> maps.2).

(** [Registry.pushPoint]; [now] is the clock of the call.  The result is the
    registry and what is handed to the sink, if any. *)
Definition Registry_pushPoint (r : Registry) (points : list MetricPoint)
    (ttl : Duration) (now : Time) : Registry * option (list MetricPoint) :=
  let deadline := Add now ttl in
  let maps :=
    fold_left (store deadline) points (pushedPoints r, pushedPointsExpiration r) in
  let r' :=
    if pushedPointsCleanupInterval <? Sub now (lastPushedPointsCleanup r)
    then
      {| PushPoint := PushPoint r;
         pushedPoints :=
           filter (fun kv => match maps.2 !! kv.1 with
                             | Some expiration => After now expiration
                             | None => false
                             end = false) maps.1;
         pushedPointsExpiration :=
           filter (fun kv => After now kv.2 = false) maps.2;
         lastPushedPointsCleanup := now |}
    else
      {| PushPoint := PushPoint r;
         pushedPoints := maps.1;
         pushedPointsExpiration := maps.2;
         lastPushedPointsCleanup := lastPushedPointsCleanup r |} in
  (r', if PushPoint r then Some points else None).

End WithLabelsToText.

(** The expiration [pushCollector.Collect] reads for a key (the zero Time
    when the key has none). *)
Definition expirationOf (r : Registry) (key : string) : Time :=
  default zeroTime (pushedPointsExpiration r !! key).

(** [pushCollector.Collect], which [Gather] runs for the pushed points; [now]
    is the clock of the call.  The result is the registry and the metrics
    sent on the channel. *)
Definition pushCollector_Collect (c : Registry) (now : Time)
    : Registry * list constMetric :=
  let kept :=
    filter (fun kv => After now (expirationOf c kv.1) = false) (pushedPoints c) in
  let c' :=
    {| PushPoint := PushPoint c;
       pushedPoints := kept;
       pushedPointsExpiration :=
         filter (fun kv => ~ (is_Some (pushedPoints c !! kv.1)
                              /\ After now kv.2 = true))
                (pushedPointsExpiration c);
       lastPushedPointsCleanup := now |} in
  (c', (fun kv => metricOf kv.2) <$> map_to_list kept).

Section Calls.
Variable LabelsToText : gmap string string -> string.

(** A call that reaches the pushed points: a push through the pusher of
    [WithTTL], or a [Gather]; each with the clock it reads. *)
Inductive call : Type :=
| callPush (points : list MetricPoint) (ttl : Duration) (now : Time)
| callGather (now : Time).

Definition perform (r : Registry) (c : call) : Registry :=
  match c with
  | callPush points ttl now => fst (Registry_pushPoint LabelsToText r points ttl now)
  | callGather now => fst (pushCollector_Collect r now)
  end.

(** The registry after a sequence of calls. *)
Definition performAll (r : Registry) (calls : list call) : Registry :=
  fold_left perform calls r.

(** The two maps of pushed points hold the same keys, and every point is held
    under the text of its labels. *)
Definition consistent (r : Registry) : Prop :=
  (forall key, is_Some (pushedPoints r !! key)
               <-> is_Some (pushedPointsExpiration r !! key))
  /\ (forall key p, pushedPoints r !! key = Some p -> key = LabelsToText (Labels p)).

Definition consistentMaps (maps : gmap string MetricPoint * gmap string Time) : Prop :=
  (forall key, is_Some (maps.1 !! key) <-> is_Some (maps.2 !! key))
  /\ (forall key p, maps.1 !! key = Some p -> key = LabelsToText (Labels p)).

End Calls.

Section Collectors.
(** Collectors are compared with [==]. *)
Context {Collector : Type} `{EqDecision Collector}.

(** [Registry.Register], on the field [collectors]: the field afterwards and
    whether [AlreadyRegisteredError] is returned. *)
Definition Registry_Register (collectors : list Collector) (collector : Collector)
    : list Collector * bool :=
  if existsb (fun c => bool_decide (c = collector)) collectors
  then (collectors, true)
  else (collectors ++ [collector], false).

(** [Registry.MustRegister]: [None] is a panic. *)
Fixpoint Registry_MustRegister (collectors new : list Collector)
    : option (list Collector) :=
  match new with
  | [] => Some collectors
  | c :: rest =>
      let '(collectors', err) := Registry_Register collectors c in
      if err then None else Registry_MustRegister collectors' rest
  end.

(** The index at which the loop of [Unregister] finds the collector. *)
Fixpoint indexOf (collectors : list Collector) (collector : Collector) : option nat :=
  match collectors with
  | [] => None
  | c :: rest =>
      if bool_decide (c = collector) then Some O else S <$> indexOf rest collector
  end.

(** [Registry.Unregister], on the field [collectors]: the last collector
    takes the place of the one removed. *)
Definition Registry_Unregister (collectors : list Collector) (collector : Collector)
    : list Collector * bool :=
  match indexOf collectors collector with
  | Some i =>
      (take (length collectors - 1)%nat
         match last collectors with
         | Some final => <[i := final]> collectors
         | None => collectors
         end,
       true)
  | None => (collectors, false)
  end.

End Collectors.

(** *** Sample data *)

(** A text of a label set, for running the registry: the pairs of the map,
    one after the other. *)
Definition labelsText (labels : gmap string string) : string :=
  foldr (fun kv acc => kv.1 +:+ "=" +:+ kv.2 +:+ "," +:+ acc) "" (map_to_list labels).

(** A registry that holds no point. *)
Definition noPoints : Registry :=
  {| PushPoint := false;
     pushedPoints := ∅;
     pushedPointsExpiration := ∅;
     lastPushedPointsCleanup := zeroTime |}.

End PromRegistry.

(** ** Package synchronizer: disablement and password *)

Module Synchronizer.
Import GoTime.

(** Modelled from the spec: the reasons of a disablement (package
    bleemeo/types is not part of the sources at hand); [NotDisabled] is the
    zero value. *)
Inductive DisableReason : Type :=
| NotDisabled
| DisableDuplicatedAgent
| DisableTooManyErrors
| DisableAgentTooOld
| DisableAuthenticationError
| DisableMaintenance.

(** The disablement fields of [Synchronizer]. *)
Record Synchronizer : Type := {
  disabledUntil : Time;
  disableReason : DisableReason
}.

(** [Synchronizer.disable] *)
Definition Synchronizer_disable (s : Synchronizer) (until : Time)
    (reason : DisableReason) (force : bool) : Synchronizer :=
  if force || Before (disabledUntil s) until
  then {| disabledUntil := until; disableReason := reason |}
  else s.

(** [Synchronizer.Disable] *)
Definition Synchronizer_Disable (s : Synchronizer) (until : Time)
    (reason : DisableReason) : Synchronizer :=
  Synchronizer_disable s until reason true.

(** The runes [generatePassword] draws from. *)
Definition letters : list ascii :=
  list_ascii_of_string "abcdefghjkmnpqrstuvwxyzABCDEFGHJKLMNPQRSTUVWXYZ23456789".

(** What [cryptoRand.Int] returns: the number ([None] is the nil pointer) and
    whether it returned an error. *)
Abbreviation drawn := (option Z * bool)%type.

Section Entropy.
(** The result of the [i]-th call to [cryptoRand.Int(cryptoRand.Reader, max)]
    and to [rand.Intn(max)]. *)
Variable cryptoRandInt : nat -> Z -> drawn.
Variable randIntn : nat -> Z -> Z.

(** The [i]-th draw of entropy succeeds. *)
Definition drawsFine (i : nat) : Prop :=
  exists n, cryptoRandInt i (Z.of_nat (length letters)) = (Some n, false)
            /\ 0 <= n < Z.of_nat (length letters).

(** The loop of [generatePassword] from its [i]-th turn, with [todo] turns
    left.  [None] is a panic: [bigN.Int64()] on a nil [bigN], or an index out
    of the range of [letters]. *)
Fixpoint generatePassword_loop (i todo : nat) : option (list ascii) :=
  match todo with
  | O => Some []
  | S todo' =>
      let '(bigN, err) := cryptoRandInt i (Z.of_nat (length letters)) in
      match bigN with
      | None => None
      | Some v =>
          let n := if err then randIntn i (Z.of_nat (length letters)) else v in
          if (0 <=? n) && (n <? Z.of_nat (length letters))
          then
            match nth_error letters (Z.to_nat n), generatePassword_loop (S i) todo' with
            | Some c, Some rest => Some (c :: rest)
            | _, _ => None
            end
          else None
      end
  end.

(** [generatePassword] *)
Definition generatePassword (length : nat) : option string :=
  option_map string_of_list_ascii (generatePassword_loop 0 length).

End Entropy.

(** *** The alphabet in the words of the specification *)

Definition between (lo hi c : ascii) : bool :=
  (nat_of_ascii lo <=? nat_of_ascii c)%nat && (nat_of_ascii c <=? nat_of_ascii hi)%nat.

(** A letter or a digit. *)
Definition alphanumeric (c : ascii) : bool :=
  between "a" "z" c || between "A" "Z" c || between "0" "9" c.

(** The characters left out because they look like another one. *)
Definition lookalike (c : ascii) : bool :=
  existsb (Ascii.eqb c) (list_ascii_of_string "iloIO01").

(** *** What to synchronize *)

(** The fields of [Synchronizer] that tell what to synchronize. *)
Record syncFields : Type := {
  nextFullSync : Time;
  lastSync : Time;
  lastFactUpdatedAt : string;
  lastMetricCount : Z;
  forceSync : gmap string bool;
  pendingMetricsUpdate : list string
}.

(** [New]; [now] is the clock of the call. *)
Definition New (now : Time) : syncFields :=
  {| nextFullSync := now;
     lastSync := zeroTime;
     lastFactUpdatedAt := "";
     lastMetricCount := 0;
     forceSync := ∅;
     pendingMetricsUpdate := [] |}.

Definition withForceSync (s : syncFields) (force : gmap string bool) : syncFields :=
  {| nextFullSync := nextFullSync s;
     lastSync := lastSync s;
     lastFactUpdatedAt := lastFactUpdatedAt s;
     lastMetricCount := lastMetricCount s;
     forceSync := force;
     pendingMetricsUpdate := pendingMetricsUpdate s |}.

Definition withPending (s : syncFields) (force : gmap string bool)
    (pending : list string) : syncFields :=
  {| nextFullSync := nextFullSync s;
     lastSync := lastSync s;
     lastFactUpdatedAt := lastFactUpdatedAt s;
     lastMetricCount := lastMetricCount s;
     forceSync := force;
     pendingMetricsUpdate := pending |}.

(** [Synchronizer.NotifyConfigUpdate] *)
Definition Synchronizer_NotifyConfigUpdate (s : syncFields) (immediate : bool)
    : syncFields :=
  let force := <["agent" := true]> (forceSync s) in
  if negb immediate
  then withForceSync s force
  else withForceSync s (<["containers" := true]> (<["metrics" := true]> force)).

(** [Synchronizer.UpdateMetrics] *)
Definition Synchronizer_UpdateMetrics (s : syncFields) (metricUUID : list string)
    : syncFields :=
  match metricUUID with
  | [only] =>
      if String.eqb only ""
      then
        (* We don't known the metric to update. Update all *)
        withPending s (<["metrics" := true]> (forceSync s)) []
      else withPending s (<["metrics" := false]> (forceSync s))
             (pendingMetricsUpdate s ++ metricUUID)
  | _ => withPending s (<["metrics" := false]> (forceSync s))
           (pendingMetricsUpdate s ++ metricUUID)
  end.

(** [Synchronizer.UpdateContainers] *)
Definition Synchronizer_UpdateContainers (s : syncFields) : syncFields :=
  withForceSync s (<["containers" := false]> (forceSync s)).

(** [Synchronizer.popPendingMetricsUpdate]: the UUIDs, in the order the set
    is ranged over. *)
Definition Synchronizer_popPendingMetricsUpdate (s : syncFields)
    : list string * syncFields :=
  let set : gset string := list_to_set (pendingMetricsUpdate s) in
  (elements set, withPending s (forceSync s) []).

(** What [syncToPerform] reads besides the fields: the clock, twice; the
    time of the next configuration of the agent, from the cache; the fact
    [fact_updated_at] of the local facts (empty if there is none); the time
    of the last update of the discovery, three times; the number of metrics
    of the store. *)
Record readings : Type := {
  now1 : Time;
  now2 : Time;
  nextConfigAt : Time;
  factUpdatedAt : string;
  lastUpdate1 : Time;
  lastUpdate2 : Time;
  lastUpdate3 : Time;
  metricsCount : Z
}.

(** The flag [fullSync] of [syncToPerform]. *)
Definition fullSyncDue (s : syncFields) (e : readings) : bool :=
  let fullSync := false in
  let fullSync := if Before (nextFullSync s) (now1 e) then true else fullSync in
  if negb (IsZero (nextConfigAt e)) && Before (nextConfigAt e) (now2 e)
  then true
  else fullSync.

(** One turn of the last loop of [syncToPerform]. *)
Definition forced (syncMethods : gmap string bool) (entry : string * bool)
    : gmap string bool :=
  <[entry.1 := entry.2 || default false (syncMethods !! entry.1)]> syncMethods.

(** [Synchronizer.syncToPerform] up to its last loop: the steps that are
    due. *)
Definition syncToPerform_due (s : syncFields) (e : readings) : gmap string bool :=
  let syncMethods : gmap string bool := ∅ in
  let fullSync := fullSyncDue s e in
  let syncMethods :=
    if fullSync then <["agent" := fullSync]> syncMethods else syncMethods in
  let syncMethods :=
    if fullSync || negb (String.eqb (lastFactUpdatedAt s) (factUpdatedAt e))
    then <["facts" := fullSync]> syncMethods else syncMethods in
  let syncMethods :=
    if fullSync || Before (lastSync s) (lastUpdate1 e)
    then <["services" := fullSync]> syncMethods else syncMethods in
  let syncMethods :=
    if fullSync || Before (lastSync s) (lastUpdate2 e)
    then <["containers" := fullSync]> syncMethods else syncMethods in
  let syncMethods :=
    match syncMethods !! "services" with
    | Some _ => <["metrics" := false]> syncMethods
    | None => syncMethods
    end in
  let syncMethods :=
    match syncMethods !! "containers" with
    | Some _ => <["metrics" := false]> syncMethods
    | None => syncMethods
    end in
  if fullSync || Before (lastSync s) (lastUpdate3 e)
     || negb (lastMetricCount s =? metricsCount e)
  then <["metrics" := fullSync]> syncMethods else syncMethods.

(** [Synchronizer.syncToPerform]: the steps to run, each with whether it is
    a full one, and the fields afterwards. *)
Definition Synchronizer_syncToPerform (s : syncFields) (e : readings)
    : gmap string bool * syncFields :=
  (fold_left forced (map_to_list (forceSync s)) (syncToPerform_due s e),
   withForceSync s ∅).

(** The steps of [runOnce], in its order. *)
Definition syncStep : list string :=
  ["agent"; "facts"; "services"; "containers"; "metrics"].

(** *** Duplicated agents *)

Section Facts.
(** A fact of the cache; facts are compared with [==]. *)
Context {Fact : Type} `{EqDecision Fact}.

Definition factNames : list string := ["fqdn"; "primary_address"; "primary_mac_address"].

(** The loop of [checkDuplicated]: whether a fact of the names left is in
    both maps with two values. *)
Fixpoint changedFact (oldFacts newFacts : gmap string Fact) (names : list string)
    : option string :=
  match names with
  | [] => None
  | name :: rest =>
      match oldFacts !! name, newFacts !! name with
      | Some old, Some new =>
          if bool_decide (old = new) then changedFact oldFacts newFacts rest
          else Some name
      | _, _ => changedFact oldFacts newFacts rest
      end
  end.

(** [Synchronizer.checkDuplicated]: [oldFacts] are the facts of the cache at
    the call, [update] what [factsUpdateList] leaves in the cache, or its
    error; [until] is the clock of the call plus the delay drawn by
    [JitterDelay].  The result is the synchronizer, the call made to
    [DisableCallback] if any, and the error returned if any. *)
Definition Synchronizer_checkDuplicated (s : Synchronizer)
    (oldFacts : gmap string Fact) (update : gmap string Fact + string) (until : Time)
    : Synchronizer * option (DisableReason * Time) * option string :=
  match update with
  | inr err => (s, None, Some err)
  | inl newFacts =>
      match changedFact oldFacts newFacts factNames with
      | Some _ =>
          (Synchronizer_Disable s until DisableDuplicatedAgent,
           Some (DisableDuplicatedAgent, until),
           Some "bleemeo connector temporary disabled")
      | None => (s, None, None)
      end
  end.

End Facts.

(** *** Sample data: entropy that counts, entropy that fails *)
Definition counting (i : nat) (max : Z) : drawn := (Some (Z.of_nat i mod max), false).
Definition failing (i : nat) (max : Z) : drawn := (None, true).
Definition fixedIntn (i : nat) (max : Z) : Z := 0.

End Synchronizer.

(** ** Package registry (prometheus/registry/gatherer.go): gatherers *)

Module Gatherer.

Inductive QueryType : Type :=
| NoProbe
| OnlyProbes
| All.

Definition QueryType_eqb (a b : QueryType) : bool :=
  match a, b with
  | NoProbe, NoProbe | OnlyProbes, OnlyProbes | All, All => true
  | _, _ => false
  end.

Record GatherState : Type := {
  GSQueryType : QueryType;
  NoTick : bool
}.

(** [GatherStateFromMap] *)
Definition GatherStateFromMap (params : gmap string (list string)) : GatherState :=
  let state := {| GSQueryType := NoProbe; NoTick := false |} in
  let state :=
    match params !! "includeMonitors" with
    | Some _ => {| GSQueryType := All; NoTick := NoTick state |}
    | None => state
    end in
  match params !! "onlyMonitors" with
  | Some _ => {| GSQueryType := OnlyProbes; NoTick := NoTick state |}
  | None => state
  end.

(** A [dto.LabelPair], by what [GetName] and [GetValue] return. *)
Record LabelPair : Type := {
  LName : string;
  LValue : string
}.

(** A [dto.Metric]: its labels, and the rest of it (value, timestamp), which
    the gatherers of this file do not read. *)
Record Metric (V : Type) : Type := {
  MLabel : list LabelPair;
  MRest : V
}.
Arguments MLabel {V} _.
Arguments MRest {V} _.
Arguments Build_Metric {V} _ _.

(** A [dto.MetricFamily], by what [GetName], [GetHelp] and [GetType] return,
    and its metrics. *)
Record MetricFamily (V : Type) : Type := {
  FName : string;
  FHelp : string;
  FType : Z;
  FMetric : list (Metric V)
}.
Arguments FName {V} _.
Arguments FHelp {V} _.
Arguments FType {V} _.
Arguments FMetric {V} _.
Arguments Build_MetricFamily {V} _ _ _ _.

(** [model.ReservedLabelPrefix] *)
Definition ReservedLabelPrefix : string := "__".

(** The labels [newLabeledGatherer] keeps of the extra labels. *)
Definition newLabeledGatherer (extraLabels : list LabelPair) : list LabelPair :=
  filter (fun l => String.prefix ReservedLabelPrefix (LName l) = false) extraLabels.

(** The inner loop of [mergeLabels]: the labels of [a], from [aIndex] on,
    whose name is below [name] are appended to the result; what is returned
    is these labels and the labels of [a] from the new [aIndex] on. *)
Fixpoint mergeLabels_below (a : list LabelPair) (name : string)
    : list LabelPair * list LabelPair :=
  match a with
  | [] => ([], [])
  | l :: rest =>
      if String.ltb (LName l) name
      then let '(moved, remaining) := mergeLabels_below rest name in (l :: moved, remaining)
      else ([], a)
  end.

(** The test that follows it: a label of [a] with the name of [bLabel] is
    skipped. *)
Definition mergeLabels_skip (a : list LabelPair) (name : string) : list LabelPair :=
  match a with
  | [] => []
  | l :: rest => if String.eqb (LName l) name then rest else a
  end.

(** The outer loop of [mergeLabels] over what is left of [b], and the last
    loop; [a] is what is left of it from [aIndex] on. *)
Fixpoint mergeLabels_loop (a b result : list LabelPair) : list LabelPair :=
  match b with
  | [] => result ++ a
  | bLabel :: rest =>
      let '(moved, remaining) := mergeLabels_below a (LName bLabel) in
      mergeLabels_loop (mergeLabels_skip remaining (LName bLabel)) rest
        ((result ++ moved) ++ [bLabel])
  end.

(** [mergeLabels] *)
Definition mergeLabels (a b : list LabelPair) : list LabelPair :=
  mergeLabels_loop a b [].

(** A list of labels sorted by name, without two labels of the same name. *)
Definition sortedLabels (l : list LabelPair) : Prop :=
  StronglySorted (fun x y => String.ltb (LName x) (LName y) = true) l.

Section Gathering.
Context {V E : Type}.

(** The loop of [labeledGatherer.GatherWithState] on a family: the labels of
    the gatherer are merged into the labels of every metric. *)
Definition relabel (labels : list LabelPair) (mf : MetricFamily V) : MetricFamily V :=
  {| FName := FName mf;
     FHelp := FHelp mf;
     FType := FType mf;
     FMetric :=
       (fun m => {| MLabel := mergeLabels (MLabel m) labels; MRest := MRest m |})
         <$> FMetric mf |}.

(** [labeledGatherer.GatherWithState]: [probe] tells whether the source is a
    [ProbeGatherer], [source] is what the source gathers for a state (a
    source that is not a [GathererWithState] does not read the state): the
    families and the error, if any. *)
Definition labeledGatherer_GatherWithState (probe : bool) (labels : list LabelPair)
    (source : GatherState -> list (MetricFamily V) * option E) (state : GatherState)
    : list (MetricFamily V) * option E :=
  (* do not collect non-probes metrics when the user only wants probes *)
  if negb probe && QueryType_eqb (GSQueryType state) OnlyProbes
  then ([], None)
  else
    let '(mfs, err) := source state in
    if (length labels =? 0)%nat
    then (mfs, err)
    else (relabel labels <$> mfs, err).

(** The type error of [Gatherers.GatherWithState]: the name of the family,
    its type and the type it should have. *)
Record typeError : Type := {
  errName : string;
  errType : Z;
  errExpected : Z
}.

(** One turn of the second loop of [Gatherers.GatherWithState]: the families
    by name, and the errors. *)
Definition mergeFamily
    (acc : gmap string (MetricFamily V) * list typeError) (mf : MetricFamily V)
    : gmap string (MetricFamily V) * list typeError :=
  match acc.1 !! FName mf with
  | Some existingMF =>
      if negb (FType existingMF =? FType mf)
      then (acc.1,
            acc.2 ++ [ {| errName := FName mf; errType := FType mf;
                          errExpected := FType existingMF |} ])
      else
        (<[FName mf :=
             {| FName := FName existingMF; FHelp := FHelp existingMF;
                FType := FType existingMF;
                FMetric := FMetric existingMF ++ FMetric mf |}]> acc.1,
         acc.2)
  | None =>
      (<[FName mf :=
           {| FName := FName mf; FHelp := FHelp mf; FType := FType mf;
              FMetric := [] ++ FMetric mf |}]> acc.1,
       acc.2)
  end.

(** The families [Gatherers.GatherWithState] hands to [prometheus.Gatherers]
    for the checks and the sort, from the families [mfs] its gatherers
    returned, in the order they were appended; and the type errors. *)
Definition mergeFamilies (mfs : list (MetricFamily V))
    : gmap string (MetricFamily V) * list typeError :=
  fold_left mergeFamily mfs (∅, []).

(** The first family of a name among the families gathered, the family
    that the families of the name merge into, and the type errors, in the
    words of the comment of [Gatherers]: the first help text wins, the type
    must be the same. *)
Definition firstNamed (mfs : list (MetricFamily V)) (name : string)
    : option (MetricFamily V) :=
  head (filter (fun mf => FName mf = name) mfs).

Definition mergedInto (mfs : list (MetricFamily V)) (first : MetricFamily V)
    : MetricFamily V :=
  {| FName := FName first; FHelp := FHelp first; FType := FType first;
     FMetric :=
       concat (FMetric <$> filter (fun mf => FName mf = FName first
                                             /\ FType mf = FType first) mfs) |}.

Definition typeErrorOf (mfs : list (MetricFamily V)) (mf : MetricFamily V)
    : option typeError :=
  match firstNamed mfs (FName mf) with
  | Some first =>
      if FType first =? FType mf then None
      else Some {| errName := FName mf; errType := FType mf;
                   errExpected := FType first |}
  | None => None
  end.

End Gathering.

(** *** Sample data: the labels of a metric and of a gatherer *)
Definition metricLabels : list LabelPair :=
  [ {| LName := "instance"; LValue := "localhost:9100" |};
    {| LName := "job"; LValue := "node" |} ].

Definition gathererLabels : list LabelPair :=
  [ {| LName := "container_name"; LValue := "redis" |};
    {| LName := "instance"; LValue := "redis:9121" |} ].

End Gatherer.

(** ** Package task: the registry of running tasks *)

Module Task.

(** [id++] on an int: the 64-bit signed integers wrap around. *)
Definition wrapInt (z : Z) : Z := (z + 2 ^ 63) mod 2 ^ 64 - 2 ^ 63.

(** What the registry does to its tasks: it starts one (the goroutine that
    calls [Run]), cancels its context and waits for it, closes it.  What it
    writes to the log is left out. *)
Inductive event : Type :=
| taskStarted (id : Z) (shortName : string)
| taskCancelled (id : Z)
| taskClosed (id : Z).

Section WithRunner.
Context {Runner : Type}.
(** Whether a task is a [RunCloser]. *)
Variable RunCloser : Runner -> bool.

(** [Registry]: [taskCancelFuncs] is kept by the IDs it has a function for,
    each of which cancels the task of the ID and waits for its end; [trace]
    lists what was done to the tasks so far. *)
Record Registry : Type := {
  tasks : gmap Z Runner;
  taskNames : gmap Z string;
  taskCancelFuncs : gset Z;
  trace : list event
}.

(** [NewRegistry] *)
Definition NewRegistry : Registry :=
  {| tasks := ∅; taskNames := ∅; taskCancelFuncs := ∅; trace := [] |}.

(** The search of [AddTask] for a free ID, from [id] on.  [None] is the
    panic.  The loop passes over IDs in use only, so it makes no more turns
    than there are IDs in use: [turns] is that bound. *)
Fixpoint AddTask_slot (used : gset Z) (turns : nat) (id : Z) : option Z :=
  if decide (id ∈ used)
  then
    match turns with
    | O => None
    | S turns' =>
        let id' := wrapInt (id + 1) in
        if id' =? 0 then None else AddTask_slot used turns' id'
    end
  else Some id.

(** [Registry.AddTask]: the registry and the ID, or [None] for the panic. *)
Definition Registry_AddTask (r : Registry) (task : Runner) (shortName : string)
    : option (Registry * Z) :=
  match AddTask_slot (taskCancelFuncs r) (size (taskCancelFuncs r)) 1 with
  | None => None
  | Some id =>
      Some ({| tasks := <[id := task]> (tasks r);
               taskNames := <[id := shortName]> (taskNames r);
               taskCancelFuncs := {[id]} ∪ taskCancelFuncs r;
               trace := trace r ++ [taskStarted id shortName] |},
            id)
  end.

(** What [removeTask] does to the task of an ID that has a cancel function:
    the task is cancelled, and closed if it is a [RunCloser] (the error of
    [Close] is only logged). *)
Definition stopEvents (r : Registry) (taskID : Z) : list event :=
  taskCancelled taskID
  :: match tasks r !! taskID with
     | Some task => if RunCloser task then [taskClosed taskID] else []
     | None => []
     end.

(** [Registry.removeTask] *)
Definition Registry_removeTask (r : Registry) (taskID : Z) : Registry :=
  {| tasks := tasks r;
     taskNames := taskNames r;
     taskCancelFuncs := taskCancelFuncs r ∖ {[taskID]};
     trace :=
       trace r ++ (if decide (taskID ∈ taskCancelFuncs r)
                   then stopEvents r taskID else []) |}.

(** [Registry.RemoveTask] *)
Definition Registry_RemoveTask (r : Registry) (taskID : Z) : Registry :=
  Registry_removeTask r taskID.

(** [Registry.Close]: the IDs are ranged over in the order of the map. *)
Definition Registry_Close (r : Registry) : Registry :=
  foldl Registry_removeTask r (elements (taskCancelFuncs r)).

End WithRunner.

Arguments Registry Runner : clear implicits.

End Task.

(** ** Proof automation *)

(** Case analysis on the comparisons of a goal. *)
Ltac split_clock :=
  repeat match goal with
  | |- context [Z.ltb ?a ?b] => destruct (Z.ltb_spec a b)
  | |- context [Z.eqb ?a ?b] => destruct (Z.eqb_spec a b)
  | |- context [Z.leb ?a ?b] => destruct (Z.leb_spec a b)
  end.

(** Evaluation of [statusState.Update] under hypotheses on the clock. *)
Ltac eval_update :=
  unfold Threshold.statusState_Update, GoTime.After, GoTime.IsZero, GoTime.Sub, GoTime.zeroTime,
    GoTime.minDuration, GoTime.maxDuration;
  cbn [Threshold.CurrentStatus Threshold.CriticalSince Threshold.WarningSince
       Threshold.LastUpdate Types.Status_eqb andb];
  repeat (split_clock; cbn [Types.Status_eqb andb]; try lia);
  try reflexivity; try (f_equal; lia).

(** * Part II: properties *)

(** ** The threshold evaluator *)

Section ThresholdFacts.
Import GoTime Types Threshold.

Lemma ordered_zero : ordered zeroStatusState.
Proof. intros Hc. exfalso. apply Hc. reflexivity. Qed.

Lemma Update_ordered s newStatus per t c :
  ordered s -> ordered (statusState_Update s newStatus per t c).
Proof.
  unfold ordered, statusState_Update, After, IsZero, zeroTime.
  intros Hs. destruct newStatus; simpl; try (intros Hc; exfalso; apply Hc; reflexivity).
  destruct (Z.ltb_spec t (CriticalSince s)); simpl;
    destruct (Z.ltb_spec t (WarningSince s)); simpl;
    split_clock; intros Hc; try lia.
Qed.

(** After a raw critical status the two periods are in order. *)
Lemma Update_critical_order s per t c :
  ordered s ->
  WarningSince (statusState_Update s StatusCritical per t c)
  <= CriticalSince (statusState_Update s StatusCritical per t c).
Proof.
  unfold ordered, statusState_Update, After, IsZero, zeroTime.
  intros Hs. simpl.
  destruct (Z.ltb_spec t (CriticalSince s)); simpl;
    destruct (Z.ltb_spec t (WarningSince s)); simpl;
    split_clock; try lia.
Qed.

(** The measured critical duration is zero unless the raw status is
    critical, so a positive period can only be reached by a raw critical
    status. *)
Lemma Update_becomes_critical s newStatus per t c :
  0 <= per ->
  CurrentStatus (statusState_Update s newStatus per t c) = StatusCritical ->
  newStatus = StatusCritical
  \/ (CriticalSince (statusState_Update s newStatus per t c) = 0
      /\ WarningSince (statusState_Update s newStatus per t c) = 0).
Proof.
  intros Hper. unfold statusState_Update.
  destruct newStatus; simpl; auto.
  (* raw warning: the critical duration is zero *)
  destruct (Z.eqb_spec per 0); [discriminate|].
  destruct (Z.leb_spec per 0); [lia|].
  destruct (per <=? _); [discriminate|].
  destruct (Status_eqb (CurrentStatus s) StatusUnset) eqn:E; simpl; [discriminate|].
  destruct (Status_eqb (CurrentStatus s) StatusCritical) eqn:E'; simpl; [discriminate|].
  intros Hcur. rewrite Hcur in E'. discriminate.
Qed.

(** The steps of an escalation, for a positive period. *)
Lemma Update_fresh_ok per t c :
  0 < per ->
  statusState_Update zeroStatusState StatusOk per t c
  = {| CurrentStatus := StatusOk; CriticalSince := 0; WarningSince := 0; LastUpdate := c |}.
Proof. intros Hper. unfold zeroStatusState. eval_update. Qed.

Lemma Update_opens per t c0 c :
  0 < per -> t <> 0 ->
  statusState_Update
    {| CurrentStatus := StatusOk; CriticalSince := 0; WarningSince := 0; LastUpdate := c0 |}
    StatusCritical per t c
  = {| CurrentStatus := StatusOk; CriticalSince := t; WarningSince := t; LastUpdate := c |}.
Proof. intros Hper Ht. eval_update. Qed.

Lemma Update_pending per t0 t c0 c :
  t0 <> 0 -> t0 <= t -> t - t0 < per ->
  statusState_Update
    {| CurrentStatus := StatusOk; CriticalSince := t0; WarningSince := t0; LastUpdate := c0 |}
    StatusCritical per t c
  = {| CurrentStatus := StatusOk; CriticalSince := t0; WarningSince := t0; LastUpdate := c |}.
Proof. intros Ht0 Hle Hlt. eval_update. Qed.

Lemma Update_escalates per t0 t c0 c :
  t0 <> 0 -> t0 <= t -> 0 < per <= maxDuration -> per <= t - t0 ->
  statusState_Update
    {| CurrentStatus := StatusOk; CriticalSince := t0; WarningSince := t0; LastUpdate := c0 |}
    StatusCritical per t c
  = {| CurrentStatus := StatusCritical; CriticalSince := t0; WarningSince := t0;
       LastUpdate := c |}.
Proof. unfold maxDuration. intros Ht0 Hle Hper Hge. eval_update. Qed.

(** A key without a state takes a raw critical status at once. *)
Lemma Update_fresh_critical per t c :
  0 < per ->
  CurrentStatus (statusState_Update zeroStatusState StatusCritical per t c) = StatusCritical.
Proof. intros Hper. unfold zeroStatusState. eval_update. Qed.

(** A raw warning never leaves the status at critical. *)
Lemma Update_downgrades s per t c :
  0 < per ->
  CurrentStatus s = StatusCritical ->
  CurrentStatus (statusState_Update s StatusWarning per t c) = StatusWarning.
Proof.
  intros Hper Hs. unfold statusState_Update. rewrite Hs.
  cbn [CurrentStatus Status_eqb andb].
  destruct (Z.eqb_spec per 0); [reflexivity|].
  destruct (Z.leb_spec per 0); [lia|].
  destruct (per <=? _); reflexivity.
Qed.

Lemma run_snoc us u : run (us ++ [u]) = apply (run us) u.
Proof. unfold run. rewrite fold_left_app. reflexivity. Qed.

Lemma run_ordered us : ordered (run us).
Proof.
  induction us as [|u us IH] using rev_ind.
  - apply ordered_zero.
  - rewrite run_snoc. apply Update_ordered, IH.
Qed.

Lemma reachable_run s : reachable s <-> exists us, s = run us.
Proof.
  split.
  - induction 1 as [|s newStatus per t c Hs [us ->]].
    + exists []. reflexivity.
    + exists (us ++ [{| raw := newStatus; period := per; now := t; clock := c |}]).
      rewrite run_snoc. reflexivity.
  - intros [us ->]. induction us as [|u us IH] using rev_ind.
    + constructor.
    + rewrite run_snoc. destruct u. constructor. exact IH.
Qed.

Section PusherFacts.
Context {S : Type} `{State S}.
Variable formatValue : spec_float -> Unit -> string.
Variable formatDuration : Duration -> string.
Variable NagiosCode : Status -> spec_float.

Abbreviation addPoint :=
  (@pusher_addPointWithThreshold S formatValue formatDuration NagiosCode).
Abbreviation emitted :=
  (@emittedStatuses S formatValue formatDuration NagiosCode).

Lemma addPoint_registry r points point threshold key t c :
  let r' := fst (addPoint r points point threshold key t c) in
  states r' = <[key := nextState r threshold key point t c]> (states r)
  /\ softPeriods r' = softPeriods r
  /\ defaultSoftPeriod r' = defaultSoftPeriod r.
Proof.
  unfold pusher_addPointWithThreshold, nextState, periodOf, rawStatus.
  destruct (Threshold_CurrentStatus threshold (Value (MPoint point))); simpl.
  auto.
Qed.

Lemma emitted_cons r threshold key point t c rest :
  emitted r threshold key ((point, (t, c)) :: rest)
  = [CurrentStatus (nextState r threshold key point t c);
     CurrentStatus (nextState r threshold key point t c)]
    :: emitted (fst (addPoint r [] point threshold key t c)) threshold key rest.
Proof.
  simpl. unfold nextState, periodOf, rawStatus.
  unfold pusher_addPointWithThreshold at 1 2.
  destruct (Threshold_CurrentStatus threshold (Value (MPoint point))); simpl.
  reflexivity.
Qed.

(** What the evaluator emits for four points whose raw statuses are ok,
    critical, critical, critical, fed at [t0], [t0], [t0 + 150s] and
    [t0 + 310s]. *)
Lemma emitted_escalation (r : Registry S) threshold key p1 p2 p3 p4 t0 c1 c2 c3 c4 :
  states r !! key = None ->
  softPeriods r !! Name key = None ->
  defaultSoftPeriod r = 300 * Second ->
  t0 <> zeroTime ->
  rawStatus threshold p1 = StatusOk ->
  rawStatus threshold p2 = StatusCritical ->
  rawStatus threshold p3 = StatusCritical ->
  rawStatus threshold p4 = StatusCritical ->
  emitted r threshold key
    [(p1, (t0, c1)); (p2, (t0, c2));
     (p3, (Add t0 (150 * Second), c3)); (p4, (Add t0 (310 * Second), c4))]
  = [[StatusOk; StatusOk]; [StatusOk; StatusOk];
     [StatusOk; StatusOk]; [StatusCritical; StatusCritical]].
Proof.
  intros Hfresh Hper Hdef Ht0 H1 H2 H3 H4.
  rewrite emitted_cons.
  destruct (addPoint_registry r [] p1 threshold key t0 c1) as (Hs1 & Hp1 & Hd1).
  set (r1 := fst (addPoint r [] p1 threshold key t0 c1)) in *.
  rewrite emitted_cons.
  destruct (addPoint_registry r1 [] p2 threshold key t0 c2) as (Hs2 & Hp2 & Hd2).
  set (r2 := fst (addPoint r1 [] p2 threshold key t0 c2)) in *.
  rewrite emitted_cons.
  destruct (addPoint_registry r2 [] p3 threshold key (Add t0 (150 * Second)) c3)
    as (Hs3 & Hp3 & Hd3).
  set (r3 := fst (addPoint r2 [] p3 threshold key (Add t0 (150 * Second)) c3)) in *.
  rewrite emitted_cons. simpl emittedStatuses.
  assert (Hpos : 0 < 300 * Second) by (unfold Second; lia).
  assert (E1 : nextState r threshold key p1 t0 c1
               = {| CurrentStatus := StatusOk; CriticalSince := 0;
                    WarningSince := 0; LastUpdate := c1 |}).
  { unfold nextState, periodOf. rewrite Hfresh, Hper, Hdef, H1.
    apply Update_fresh_ok, Hpos. }
  assert (E2 : nextState r1 threshold key p2 t0 c2
               = {| CurrentStatus := StatusOk; CriticalSince := t0;
                    WarningSince := t0; LastUpdate := c2 |}).
  { unfold nextState, periodOf.
    rewrite Hs1, Hp1, Hd1, Hper, Hdef, H2, lookup_insert_eq, E1.
    apply Update_opens; assumption. }
  assert (E3 : nextState r2 threshold key p3 (Add t0 (150 * Second)) c3
               = {| CurrentStatus := StatusOk; CriticalSince := t0;
                    WarningSince := t0; LastUpdate := c3 |}).
  { unfold nextState, periodOf.
    rewrite Hs2, Hp2, Hd2, Hp1, Hd1, Hper, Hdef, H3, lookup_insert_eq, E2.
    apply Update_pending; unfold Add, Second, zeroTime in *; lia. }
  assert (E4 : nextState r3 threshold key p4 (Add t0 (310 * Second)) c4
               = {| CurrentStatus := StatusCritical; CriticalSince := t0;
                    WarningSince := t0; LastUpdate := c4 |}).
  { unfold nextState, periodOf.
    rewrite Hs3, Hp3, Hd3, Hp2, Hd2, Hp1, Hd1, Hper, Hdef, H4, lookup_insert_eq, E3.
    apply Update_escalates; unfold Add, Second, maxDuration, zeroTime in *; lia. }
  rewrite E1, E2, E3, E4. reflexivity.
Qed.

(** A fresh key takes the first raw status as its current status at once, and
    a raw warning downgrades a critical status at once, whatever the clock
    says. *)
Lemma emitted_downgrade (r : Registry S) threshold key q1 q2 t1 t2 c1 c2 :
  states r !! key = None ->
  softPeriods r !! Name key = None ->
  defaultSoftPeriod r = 300 * Second ->
  rawStatus threshold q1 = StatusCritical ->
  rawStatus threshold q2 = StatusWarning ->
  emitted r threshold key [(q1, (t1, c1)); (q2, (t2, c2))]
  = [[StatusCritical; StatusCritical]; [StatusWarning; StatusWarning]].
Proof.
  intros Hfresh Hper Hdef H1 H2.
  rewrite emitted_cons.
  destruct (addPoint_registry r [] q1 threshold key t1 c1) as (Hs1 & Hp1 & Hd1).
  set (r1 := fst (addPoint r [] q1 threshold key t1 c1)) in *.
  rewrite emitted_cons. simpl emittedStatuses.
  assert (Hpos : 0 < 300 * Second) by (unfold Second; lia).
  assert (E1 : CurrentStatus (nextState r threshold key q1 t1 c1) = StatusCritical).
  { unfold nextState, periodOf. rewrite Hfresh, Hper, Hdef, H1.
    apply Update_fresh_critical, Hpos. }
  assert (E2 : CurrentStatus (nextState r1 threshold key q2 t2 c2) = StatusWarning).
  { unfold nextState at 1. unfold periodOf.
    rewrite Hs1, Hp1, Hd1, Hper, Hdef, H2, lookup_insert_eq.
    apply Update_downgrades; [exact Hpos | exact E1]. }
  rewrite E1, E2. reflexivity.
Qed.

(** C1 (amended): on a key without a state and with the default soft period
    of 300 s, points whose raw statuses are ok, critical, critical, critical,
    fed at [t0], [t0], [t0 + 150 s] and [t0 + 310 s] ([t0] a moment other than
    the zero Time), are emitted with the current statuses ok, ok, ok,
    critical; points whose raw statuses are critical then warning are emitted
    with the current statuses critical then warning, whenever they are fed.
    Every call emits the point and its status companion, both with the same
    current status. *)
Theorem soft_period_streams (r : Registry S) threshold key
    p1 p2 p3 p4 q1 q2 t0 t1 t2 c1 c2 c3 c4 c5 c6 :
  states r !! key = None ->
  softPeriods r !! Name key = None ->
  defaultSoftPeriod r = 300 * Second ->
  t0 <> zeroTime ->
  rawStatus threshold p1 = StatusOk ->
  rawStatus threshold p2 = StatusCritical ->
  rawStatus threshold p3 = StatusCritical ->
  rawStatus threshold p4 = StatusCritical ->
  rawStatus threshold q1 = StatusCritical ->
  rawStatus threshold q2 = StatusWarning ->
  emitted r threshold key
    [(p1, (t0, c1)); (p2, (t0, c2));
     (p3, (Add t0 (150 * Second), c3)); (p4, (Add t0 (310 * Second), c4))]
  = [[StatusOk; StatusOk]; [StatusOk; StatusOk];
     [StatusOk; StatusOk]; [StatusCritical; StatusCritical]]
  /\ emitted r threshold key [(q1, (t1, c5)); (q2, (t2, c6))]
     = [[StatusCritical; StatusCritical]; [StatusWarning; StatusWarning]].
Proof.
  intros Hfresh Hper Hdef Ht0 H1 H2 H3 H4 H5 H6. split.
  - apply emitted_escalation; assumption.
  - apply emitted_downgrade; assumption.
Qed.

End PusherFacts.

(** The two streams of C1 on a registry just created over an empty store,
    from 2020-01-01 00:00:00 UTC on. *)
Lemma soft_period_streams_witness :
  let t0 := 63713433600 * Second in
  let r := New (∅ : memState) in
  let low := samplePoint t0 (float64 10 0) in
  let mid := samplePoint t0 (float64 85 0) in
  let high := samplePoint t0 (float64 95 0) in
  emittedStatuses plainValue plainDuration NagiosCode r sampleThreshold sampleKey
    [(low, (t0, t0)); (high, (t0, t0));
     (high, (Add t0 (150 * Second), t0)); (high, (Add t0 (310 * Second), t0))]
  = [[StatusOk; StatusOk]; [StatusOk; StatusOk];
     [StatusOk; StatusOk]; [StatusCritical; StatusCritical]]
  /\ emittedStatuses plainValue plainDuration NagiosCode r sampleThreshold sampleKey
       [(high, (t0, t0)); (mid, (t0, t0))]
     = [[StatusCritical; StatusCritical]; [StatusWarning; StatusWarning]].
Proof.
  cbv zeta.
  apply (soft_period_streams plainValue plainDuration NagiosCode);
    first [ reflexivity | discriminate ].
Defined.

(** C1, the claim as stated fails: on a key without a state, a raw critical
    status followed by a raw warning one is not emitted as ok then warning. *)
Lemma fresh_critical_not_softened :
  let t0 := 63713433600 * Second in
  emittedStatuses plainValue plainDuration NagiosCode
    (New (∅ : memState)) sampleThreshold sampleKey
    [(samplePoint t0 (float64 95 0), (t0, t0));
     (samplePoint t0 (float64 85 0), (t0, t0))]
  <> [[StatusOk; StatusOk]; [StatusWarning; StatusWarning]].
Proof. vm_compute. discriminate. Qed.

(** Fed from the zero Time on, the same escalation stays ok: the period
    opened at the zero Time reads as not opened and is opened again 150 s
    later. *)
Example escalation_from_zero_time :
  let r := New (∅ : memState) in
  let low := samplePoint zeroTime (float64 10 0) in
  let high := samplePoint zeroTime (float64 95 0) in
  emittedStatuses plainValue plainDuration NagiosCode r sampleThreshold sampleKey
    [(low, (zeroTime, zeroTime)); (high, (zeroTime, zeroTime));
     (high, (Add zeroTime (150 * Second), zeroTime));
     (high, (Add zeroTime (310 * Second), zeroTime))]
  = [[StatusOk; StatusOk]; [StatusOk; StatusOk];
     [StatusOk; StatusOk]; [StatusOk; StatusOk]].
Proof. reflexivity. Qed.

(** The same escalation through [PushPoints], on a registry configured with
    the sample threshold for every item of [cpu_used]: each point comes out
    with its status, followed by its companion [cpu_used_status]. *)
Example PushPoints_escalation :
  let t0 := 63713433600 * Second in
  let r := Registry_SetThresholds (New (∅ : memState)) ∅ {[ "cpu_used" := sampleThreshold ]} in
  let pushed :=
    snd (pusher_PushPoints plainValue plainDuration NagiosCode r
           [(samplePoint t0 (float64 10 0), (t0, t0));
            (samplePoint t0 (float64 95 0), (t0, t0));
            (samplePoint t0 (float64 95 0), (Add t0 (150 * Second), t0));
            (samplePoint t0 (float64 95 0), (Add t0 (310 * Second), t0))]) in
  (fun q => (default "" (Labels q !! LabelName),
             Types.CurrentStatus (AStatus (Annotations q)))) <$> pushed
  = [("cpu_used", StatusOk); ("cpu_used_status", StatusOk);
     ("cpu_used", StatusOk); ("cpu_used_status", StatusOk);
     ("cpu_used", StatusOk); ("cpu_used_status", StatusOk);
     ("cpu_used", StatusCritical); ("cpu_used_status", StatusCritical)].
Proof. vm_compute. reflexivity. Qed.

(** C3 (amended): in the state a key has after any sequence of updates with
    periods that are not negative: if the current status is critical then
    [WarningSince] is not after [CriticalSince]; if the raw status of the last
    update is ok then both are zero; if it is warning then [CriticalSince] is
    zero. *)
Theorem soft_state_invariant (us : list update) :
  Forall (fun u => 0 <= period u) us ->
  (CurrentStatus (run us) = StatusCritical ->
     WarningSince (run us) <= CriticalSince (run us))
  /\ (forall u, last us = Some u -> raw u = StatusOk ->
        WarningSince (run us) = 0 /\ CriticalSince (run us) = 0)
  /\ (forall u, last us = Some u -> raw u = StatusWarning ->
        CriticalSince (run us) = 0).
Proof.
  intros Hper.
  destruct us as [|u us _] using rev_ind.
  - repeat split; try discriminate.
  - rewrite run_snoc. unfold apply.
    apply Forall_app in Hper as [_ Hu]. apply Forall_cons_1 in Hu as [Hu _].
    split; [|split].
    + intros Hcur.
      destruct (Update_becomes_critical _ _ _ _ _ Hu Hcur) as [Hraw | [Hc Hw]].
      * rewrite Hraw. apply Update_critical_order, run_ordered.
      * rewrite Hc, Hw. lia.
    + intros u' Hlast Hraw. rewrite last_snoc in Hlast. injection Hlast as <-.
      rewrite Hraw. split; reflexivity.
    + intros u' Hlast Hraw. rewrite last_snoc in Hlast. injection Hlast as <-.
      rewrite Hraw. reflexivity.
Qed.

(** The sample escalation ends critical, with its two periods opened
    together. *)
Lemma soft_state_invariant_witness :
  CurrentStatus (run escalation) = StatusCritical
  /\ WarningSince (run escalation) <= CriticalSince (run escalation).
Proof.
  split; [reflexivity|].
  apply (soft_state_invariant escalation).
  - repeat constructor; discriminate.
  - reflexivity.
Defined.

(** C3, the claim as stated fails: a state can be ok while a critical period
    is open (that is what a soft period is), so the clause on ok states does
    not hold of every reachable state. *)
Lemma ok_state_with_open_period :
  ~ (forall s, reachable s ->
       (CurrentStatus s = StatusOk -> WarningSince s = 0 /\ CriticalSince s = 0)
       /\ (CurrentStatus s = StatusWarning -> CriticalSince s = 0)
       /\ (CurrentStatus s = StatusCritical -> WarningSince s <= CriticalSince s)).
Proof.
  intros Hclaim.
  destruct (Hclaim (run (firstn 2 escalation))) as [Hok _].
  - apply reachable_run. eexists. reflexivity.
  - destruct Hok as [Hw _]; [reflexivity|]. vm_compute in Hw. discriminate.
Qed.

(** A state can also be warning while a critical period is open: a key that
    starts at warning and turns critical ten seconds later. *)
Example warning_state_with_open_period :
  let t0 := 63713433600 * Second in
  let s := run [ {| raw := StatusWarning; period := 300 * Second; now := t0; clock := t0 |};
                 {| raw := StatusCritical; period := 300 * Second;
                    now := Add t0 (10 * Second); clock := t0 |} ] in
  CurrentStatus s = StatusWarning /\ CriticalSince s = Add t0 (10 * Second).
Proof. split; reflexivity. Qed.

(** With a negative period every update ends critical, whatever its raw
    status: here a raw warning, which opens a warning period only. *)
Example negative_period_is_critical :
  let t0 := 63713433600 * Second in
  let s := run [ {| raw := StatusWarning; period := - Second; now := t0; clock := t0 |} ] in
  CurrentStatus s = StatusCritical /\ WarningSince s = t0 /\ CriticalSince s = 0.
Proof. repeat split; reflexivity. Qed.

(** *** Raw status *)

(** A comparison with NaN is false: an unset limit never matches. *)
Lemma flt_NaN v limit : IsNaN limit = true -> flt v limit = false.
Proof. destruct limit; try discriminate. intros _. destruct v; reflexivity. Qed.

Lemma fgt_NaN v limit : IsNaN limit = true -> fgt v limit = false.
Proof. destruct limit; try discriminate. intros _. destruct v; reflexivity. Qed.

Lemma guarded_flt v limit : negb (IsNaN limit) && flt v limit = flt v limit.
Proof.
  destruct (IsNaN limit) eqn:E; simpl; [|reflexivity].
  symmetry. apply flt_NaN, E.
Qed.

Lemma guarded_fgt v limit : negb (IsNaN limit) && fgt v limit = fgt v limit.
Proof.
  destruct (IsNaN limit) eqn:E; simpl; [|reflexivity].
  symmetry. apply fgt_NaN, E.
Qed.

(** C4 (amended): the raw status of [v] is critical if [v < lowCritical];
    else warning if [v < lowWarning]; else critical if [v > highCritical];
    else warning if [v > highWarning]; else ok; an unset (NaN) limit never
    matches.  Unless [v] is both under [lowWarning] and over [highCritical],
    this is: critical if [v < lowCritical] or [v > highCritical]; else
    warning if [v < lowWarning] or [v > highWarning]; else ok. *)
Theorem raw_status_low_before_high (t : Threshold) (v : spec_float) :
  fst (Threshold_CurrentStatus t v)
  = (if flt v (LowCritical t) then StatusCritical
     else if flt v (LowWarning t) then StatusWarning
     else if fgt v (HighCritical t) then StatusCritical
     else if fgt v (HighWarning t) then StatusWarning
     else StatusOk)
  /\ (forall limit, IsNaN limit = true -> flt v limit = false /\ fgt v limit = false)
  /\ (~ (flt v (LowWarning t) = true /\ fgt v (HighCritical t) = true) ->
      fst (Threshold_CurrentStatus t v)
      = (if flt v (LowCritical t) || fgt v (HighCritical t) then StatusCritical
         else if flt v (LowWarning t) || fgt v (HighWarning t) then StatusWarning
         else StatusOk)).
Proof.
  assert (Hcode : fst (Threshold_CurrentStatus t v)
    = (if flt v (LowCritical t) then StatusCritical
       else if flt v (LowWarning t) then StatusWarning
       else if fgt v (HighCritical t) then StatusCritical
       else if fgt v (HighWarning t) then StatusWarning
       else StatusOk)).
  { unfold Threshold_CurrentStatus.
    rewrite !guarded_flt, !guarded_fgt.
    destruct (flt v (LowCritical t)); [reflexivity|].
    destruct (flt v (LowWarning t)); [reflexivity|].
    destruct (fgt v (HighCritical t)); [reflexivity|].
    destruct (fgt v (HighWarning t)); reflexivity. }
  split; [exact Hcode|]. split.
  - intros limit Hnan. split; [apply flt_NaN | apply fgt_NaN]; exact Hnan.
  - intros Hconsistent. rewrite Hcode.
    destruct (flt v (LowCritical t)); [reflexivity|].
    destruct (flt v (LowWarning t)) eqn:Elw;
      destruct (fgt v (HighCritical t)) eqn:Ehc; simpl; try reflexivity.
    exfalso. apply Hconsistent. split; reflexivity.
Qed.

(** The second reading of C4 at the sample threshold: 95 is over both high
    limits and is critical. *)
Lemma raw_status_low_before_high_witness :
  fst (Threshold_CurrentStatus sampleThreshold (float64 95 0)) = StatusCritical.
Proof.
  refine (eq_trans
    (proj2 (proj2 (raw_status_low_before_high sampleThreshold (float64 95 0))) _) _).
  - intros [Hlow _]. discriminate Hlow.
  - reflexivity.
Defined.

(** C4, the claim as stated fails: with a low warning limit of 10 and a high
    critical limit of 5, the value 7 is over the high critical limit and its
    raw status is warning (the low limits are tested first). *)
Lemma over_high_critical_yet_warning :
  let t := {| LowCritical := NaN; LowWarning := float64 10 0;
              HighWarning := NaN; HighCritical := float64 5 0 |} in
  fgt (float64 7 0) (HighCritical t) = true
  /\ fst (Threshold_CurrentStatus t (float64 7 0)) = StatusWarning.
Proof. split; reflexivity. Qed.

(** *** Loading and saving the states *)

Section RegistryFacts.
Context {S : Type} `{State S}.

Lemma load_list_to_map (jsonList : list jsonState) :
  fold_left (fun m v => <[jsMetricNameItem v := jsStatusState v]> m) jsonList
    (∅ : gmap MetricNameItem statusState)
  = list_to_map (reverse (entryOf <$> jsonList)).
Proof.
  induction jsonList as [|v l IH] using rev_ind; [reflexivity|].
  rewrite fold_left_app, fmap_app, reverse_app. simpl. rewrite IH. reflexivity.
Qed.

(** C10: [New] applies the persisted list to the states only when
    [state.Get] returns an error; when it succeeds the registry starts with
    no state at all.  (When applied, a later entry of the list overrides an
    earlier one with the same key.) *)
Theorem New_discards_loaded_states (st : S) :
  (snd (StateGet st statusCacheKey) = false -> states (New st) = ∅)
  /\ (snd (StateGet st statusCacheKey) = true ->
      states (New st)
      = list_to_map (reverse (entryOf <$> fst (StateGet st statusCacheKey)))).
Proof.
  unfold New. destruct (StateGet st statusCacheKey) as [jsonList err]. simpl.
  split; intros ->; simpl; [reflexivity | apply load_list_to_map].
Qed.

End RegistryFacts.

(** Over a store that holds a persisted state and whose [Get] succeeds, the
    registry starts without any state. *)
Lemma New_discards_loaded_states_witness :
  fst (StateGet persisted statusCacheKey) <> []
  /\ states (New persisted) = ∅.
Proof.
  split; [discriminate|].
  apply (proj1 (New_discards_loaded_states persisted)). reflexivity.
Defined.

(** A store whose [Get] fails after filling its result: the list is
    applied. *)
Example New_applies_list_on_error :
  states (New {| leftover := default [] (persisted !! statusCacheKey) |}) !! sampleKey
  = Some {| CurrentStatus := StatusCritical;
            CriticalSince := 63713433600 * Second;
            WarningSince := 63713433600 * Second;
            LastUpdate := 63713433600 * Second |}.
Proof. reflexivity. Qed.

Section RunFacts.
Context {S : Type} `{State S}.

Lemma run_states (r : Registry S) save t key :
  states (Registry_run r save t) !! key
  = match states r !! key with
    | Some s => if outdated t s then None else Some s
    | None => None
    end.
Proof.
  unfold Registry_run. cbn [states]. rewrite map_lookup_filter.
  destruct (states r !! key) as [s|]; simpl; [|reflexivity].
  destruct (outdated t s); simpl; reflexivity.
Qed.

Lemma jsonListOf_spec (m : gmap MetricNameItem statusState) (js : jsonState) :
  js ∈ jsonListOf m <-> m !! jsMetricNameItem js = Some (jsStatusState js).
Proof.
  unfold jsonListOf. rewrite list_elem_of_fmap. split.
  - intros ([k v] & -> & Hin). simpl. apply elem_of_map_to_list, Hin.
  - intros Hm. exists (jsMetricNameItem js, jsStatusState js). split.
    + destruct js. reflexivity.
    + apply elem_of_map_to_list, Hm.
Qed.

(** C6 (amended): at every wake-up of its loop, one minute after the last or
    on cancellation, [Registry.Run] evicts every state whose [LastUpdate] is
    more than 60 minutes old; it stores the list of the states that remain
    under the fixed cache key when the wake-up is the cancellation of its
    context or when more than 60 minutes have passed since the last save,
    and leaves the store as it is at the other wake-ups. *)
Theorem Run_saves_hourly_and_on_shutdown (r : Registry S) lastSave w t :
  let r' := fst (Registry_Run_turn r lastSave w t) in
  let lastSave' := snd (Registry_Run_turn r lastSave w t) in
  (forall key,
     states r' !! key
     = match states r !! key with
       | Some s => if 60 * Minute <? Sub t (LastUpdate s) then None else Some s
       | None => None
       end)
  /\ (forall js, js ∈ jsonListOf (states r')
                 <-> states r' !! jsMetricNameItem js = Some (jsStatusState js))
  /\ (w = ctxDone \/ 60 * Minute < Sub t lastSave ->
      state r' = fst (StateSet (state r) statusCacheKey (jsonListOf (states r')))
      /\ lastSave' = t)
  /\ (w = minuteElapsed -> Sub t lastSave <= 60 * Minute ->
      state r' = state r /\ lastSave' = lastSave).
Proof.
  cbv zeta. unfold Registry_Run_turn. cbn [fst snd].
  split; [intros key; apply run_states|].
  split; [intros js; apply jsonListOf_spec|].
  split.
  - intros Hsave.
    assert (Hflag : (if 60 * Minute <? Sub t lastSave then true
                     else match w with ctxDone => true | minuteElapsed => false end)
                    = true).
    { destruct (Z.ltb_spec (60 * Minute) (Sub t lastSave)); [reflexivity|].
      destruct Hsave as [-> | Hlt]; [reflexivity | lia]. }
    rewrite Hflag. split; reflexivity.
  - intros -> Hrecent.
    destruct (Z.ltb_spec (60 * Minute) (Sub t lastSave)); [lia|].
    split; reflexivity.
Qed.

End RunFacts.

(** On cancellation, a minute after the start, the state is stored. *)
Lemma Run_saves_hourly_and_on_shutdown_witness :
  let t0 := 63713433600 * Second in
  state (fst (Registry_Run_turn oneState t0 ctxDone (Add t0 Minute)))
  = {[ statusCacheKey :=
         [ {| jsMetricNameItem := sampleKey;
              jsStatusState := run (firstn 2 escalation) |} ] ]}.
Proof.
  cbv zeta.
  refine (eq_trans (proj1 (proj1 (proj2 (proj2
    (Run_saves_hourly_and_on_shutdown oneState _ ctxDone _))) _)) _).
  - left. reflexivity.
  - vm_compute. reflexivity.
Defined.

(** C6, the claim as stated fails: a minute after the start nothing is
    stored, although there is a state to store. *)
Lemma nothing_saved_after_a_minute :
  let t0 := 63713433600 * Second in
  let r' := Registry_Run oneState t0 [(minuteElapsed, Add t0 Minute)] in
  states r' !! sampleKey <> None
  /\ fst (StateGet (state r') statusCacheKey) = [].
Proof. split; [vm_compute; discriminate | vm_compute; reflexivity]. Qed.

End ThresholdFacts.

(** ** The discovery refresh *)

Section DiscoveryFacts.
Import Discovery.

Lemma observe_other (m : gmap nameContainer Service) s key :
  keyOf s <> key -> updateDiscovery_observe m s !! key = m !! key.
Proof.
  intros Hne. unfold updateDiscovery_observe.
  destruct (m !! keyOf s); apply lookup_insert_ne, Hne.
Qed.

Lemma observe_same (m : gmap nameContainer Service) s :
  updateDiscovery_observe m s !! keyOf s
  = Some (match m !! keyOf s with
          | Some previousService => carryOver previousService s
          | None => s
          end).
Proof.
  unfold updateDiscovery_observe.
  destruct (m !! keyOf s); apply lookup_insert_eq.
Qed.

Lemma observe_all_other (r : list Service) (m : gmap nameContainer Service) key :
  key ∉ keyOf <$> r ->
  fold_left updateDiscovery_observe r m !! key = m !! key.
Proof.
  revert m. induction r as [|s r IH]; intros m Hnotin; [reflexivity|].
  simpl. rewrite fmap_cons, not_elem_of_cons in Hnotin. destruct Hnotin as [Hne Hr].
  rewrite IH by exact Hr. apply observe_other. congruence.
Qed.

Lemma observe_all_once (r : list Service) (m : gmap nameContainer Service) s :
  NoDup (keyOf <$> r) -> s ∈ r ->
  fold_left updateDiscovery_observe r m !! keyOf s
  = Some (match m !! keyOf s with
          | Some previousService => carryOver previousService s
          | None => s
          end).
Proof.
  revert m. induction r as [|s' r IH]; intros m Hnodup Hin.
  - apply not_elem_of_nil in Hin. contradiction.
  - rewrite fmap_cons in Hnodup. apply NoDup_cons in Hnodup as [Hfirst Hrest].
    simpl. apply elem_of_cons in Hin as [-> | Hin].
    + rewrite observe_all_other by exact Hfirst. apply observe_same.
    + assert (Hne : keyOf s' <> keyOf s).
      { intros Heq. apply Hfirst. rewrite Heq. apply list_elem_of_fmap_2, Hin. }
      rewrite IH by assumption. rewrite observe_other by exact Hne. reflexivity.
Qed.

(** C2: when the dynamic discoverer returns the services [r], one per key,
    then for every service [s] of [r]: if the previous map had an entry under
    the key of [s] with [hasNetstatInfo] set while [s] has it unset, the new
    entry is [s] with the listen addresses, the IP address and the
    [hasNetstatInfo] flag of the previous entry; otherwise the new entry is
    [s] as the discoverer returned it. *)
Theorem refresh_carries_netstat_over (servicesMap : gmap nameContainer Service)
    (r : list Service) (s : Service) :
  NoDup (keyOf <$> r) ->
  s ∈ r ->
  let refreshed := fst (Discovery_updateDiscovery servicesMap (inl r)) in
  (forall previous,
     servicesMap !! keyOf s = Some previous ->
     hasNetstatInfo previous = true ->
     hasNetstatInfo s = false ->
     refreshed !! keyOf s
     = Some {| Name := Name s;
               ContainerID := ContainerID s;
               IPAddress := IPAddress previous;
               ListenAddresses := ListenAddresses previous;
               ExePath := ExePath s;
               Active := Active s;
               hasNetstatInfo := true |})
  /\ (~ (exists previous,
           servicesMap !! keyOf s = Some previous
           /\ hasNetstatInfo previous = true
           /\ hasNetstatInfo s = false) ->
      refreshed !! keyOf s = Some s).
Proof.
  intros Hnodup Hin. cbv zeta. unfold Discovery_updateDiscovery. cbn [fst].
  rewrite (observe_all_once r _ s Hnodup Hin), lookup_fmap.
  split.
  - intros previous Hprev Hflag Hs. rewrite Hprev. simpl.
    unfold carryOver, deactivate. cbn [hasNetstatInfo IPAddress ListenAddresses].
    rewrite Hflag, Hs. reflexivity.
  - intros Hnone. destruct (servicesMap !! keyOf s) as [previous|] eqn:Hprev;
      simpl; [|reflexivity].
    unfold carryOver, deactivate. cbn [hasNetstatInfo].
    destruct (hasNetstatInfo previous) eqn:Hflag; [|reflexivity].
    destruct (hasNetstatInfo s) eqn:Hs; [reflexivity|].
    exfalso. apply Hnone. exists previous. auto.
Qed.

(** The carry-over for memcached: seen with its socket at one refresh, seen
    without it at the next, it keeps its address. *)
Lemma refresh_carries_netstat_over_witness :
  fst (Discovery_updateDiscovery {[ keyOf memcachedSeen := memcachedSeen ]}
         (inl [memcachedBlind]))
    !! keyOf memcachedBlind
  = Some memcachedSeen.
Proof.
  refine (proj1 (refresh_carries_netstat_over
                   {[ keyOf memcachedSeen := memcachedSeen ]}
                   [memcachedBlind] memcachedBlind _ _) memcachedSeen _ _ _).
  - apply NoDup_singleton.
  - apply list_elem_of_singleton. reflexivity.
  - reflexivity.
  - reflexivity.
  - reflexivity.
Defined.

End DiscoveryFacts.

(** ** Pushed points of the metric registry *)

Section PushedPointFacts.
Import GoTime Types PromRegistry.
Variable LabelsToText : gmap string string -> string.

Abbreviation keyText p := (LabelsToText (Labels p)).
Abbreviation storeAll deadline points maps :=
  (fold_left (store LabelsToText deadline) points maps).

Lemma storeAll_other deadline points
    (maps : gmap string MetricPoint * gmap string Time) key :
  key ∉ (fun p => keyText p) <$> points ->
  (storeAll deadline points maps).1 !! key = maps.1 !! key
  /\ (storeAll deadline points maps).2 !! key = maps.2 !! key.
Proof.
  revert maps. induction points as [|q points IH]; intros maps Hnotin; [auto|].
  rewrite fmap_cons, not_elem_of_cons in Hnotin. destruct Hnotin as [Hne Hrest].
  simpl. destruct (IH (store LabelsToText deadline maps q) Hrest) as [-> ->].
  unfold store. cbn [fst snd].
  split; apply lookup_insert_ne; congruence.
Qed.

Lemma storeAll_last deadline pre p post
    (maps : gmap string MetricPoint * gmap string Time) :
  Forall (fun q => keyText q <> keyText p) post ->
  (storeAll deadline (pre ++ p :: post) maps).1 !! keyText p = Some p
  /\ (storeAll deadline (pre ++ p :: post) maps).2 !! keyText p = Some deadline.
Proof.
  intros Hpost. rewrite fold_left_app. simpl.
  destruct (storeAll_other deadline post
              (store LabelsToText deadline (storeAll deadline pre maps) p)
              (keyText p)) as [-> ->].
  - intros Hin. apply list_elem_of_fmap in Hin as (q & Heq & Hq).
    rewrite Forall_forall in Hpost. apply (Hpost q); [exact Hq | congruence].
  - unfold store. cbn [fst snd]. split; apply lookup_insert_eq.
Qed.

Lemma Collect_removes (c : Registry) t key e :
  pushedPointsExpiration c !! key = Some e ->
  is_Some (pushedPoints c !! key) ->
  After t e = true ->
  pushedPoints (fst (pushCollector_Collect c t)) !! key = None
  /\ pushedPointsExpiration (fst (pushCollector_Collect c t)) !! key = None.
Proof.
  intros He Hp Hafter. unfold pushCollector_Collect. cbn [fst pushedPoints pushedPointsExpiration].
  split.
  - apply map_lookup_filter_None. right. intros q Hq. cbn [fst].
    unfold expirationOf. rewrite He. simpl. rewrite Hafter. discriminate.
  - apply map_lookup_filter_None. right. intros e' He'. cbn [fst snd].
    rewrite He in He'. injection He' as <-. intros Hkeep. apply Hkeep. auto.
Qed.

(** C7: a point pushed with a time-to-live [ttl] that is not negative is
    stored under the text of its label set (the last point of the push with
    that text wins) with the expiration [now + ttl]; as long as the registry
    holds it with that expiration, a [Gather] after the expiration removes it
    and sends only metrics of the points that remain; a push sweeps the
    expired entries when more than five minutes have passed since the last
    clean-up (of a push or of a [Gather]), and removes nothing otherwise. *)
Theorem pushed_point_expires (r : Registry) (pre post : list MetricPoint)
    (p : MetricPoint) (ttl : Duration) (t : Time) :
  Forall (fun q => keyText q <> keyText p) post ->
  0 <= ttl ->
  let r' := fst (Registry_pushPoint LabelsToText r (pre ++ p :: post) ttl t) in
  (pushedPoints r' !! keyText p = Some p
   /\ pushedPointsExpiration r' !! keyText p = Some (Add t ttl))
  /\ (forall c t',
        pushedPoints c !! keyText p = Some p ->
        pushedPointsExpiration c !! keyText p = Some (Add t ttl) ->
        After t' (Add t ttl) = true ->
        let gathered := pushCollector_Collect c t' in
        pushedPoints (fst gathered) !! keyText p = None
        /\ pushedPointsExpiration (fst gathered) !! keyText p = None
        /\ lastPushedPointsCleanup (fst gathered) = t'
        /\ (forall m, m ∈ snd gathered ->
              exists key q, pushedPoints (fst gathered) !! key = Some q /\ m = metricOf q))
  /\ (pushedPointsCleanupInterval < Sub t (lastPushedPointsCleanup r) ->
        lastPushedPointsCleanup r' = t
        /\ (forall key e, pushedPointsExpiration r' !! key = Some e -> After t e = false)
        /\ (forall key e,
              key ∉ (fun q => keyText q) <$> (pre ++ p :: post) ->
              pushedPointsExpiration r !! key = Some e ->
              if After t e
              then pushedPoints r' !! key = None
                   /\ pushedPointsExpiration r' !! key = None
              else pushedPoints r' !! key = pushedPoints r !! key
                   /\ pushedPointsExpiration r' !! key = Some e))
  /\ (Sub t (lastPushedPointsCleanup r) <= pushedPointsCleanupInterval ->
        lastPushedPointsCleanup r' = lastPushedPointsCleanup r
        /\ (forall key, key ∉ (fun q => keyText q) <$> (pre ++ p :: post) ->
              pushedPoints r' !! key = pushedPoints r !! key
              /\ pushedPointsExpiration r' !! key = pushedPointsExpiration r !! key)).
Proof.
  intros Hpost Httl. cbv zeta.
  destruct (storeAll_last (Add t ttl) pre p post
              (pushedPoints r, pushedPointsExpiration r) Hpost) as [Hp He].
  assert (Hfresh : After t (Add t ttl) = false).
  { unfold After, Add. apply Z.ltb_ge. lia. }
  assert (Hstored :
    pushedPoints (fst (Registry_pushPoint LabelsToText r (pre ++ p :: post) ttl t))
      !! keyText p = Some p
    /\ pushedPointsExpiration (fst (Registry_pushPoint LabelsToText r (pre ++ p :: post) ttl t))
         !! keyText p = Some (Add t ttl)).
  { unfold Registry_pushPoint. cbn [fst].
    destruct (pushedPointsCleanupInterval <? Sub t (lastPushedPointsCleanup r));
      cbn [pushedPoints pushedPointsExpiration]; [|auto].
    split.
    - apply map_lookup_filter_Some. split; [exact Hp|]. cbn [fst].
      rewrite He. exact Hfresh.
    - apply map_lookup_filter_Some. split; [exact He|]. exact Hfresh. }
  split; [exact Hstored|]. split; [|split].
  - intros c t' Hp' He' Hafter. cbv zeta.
    destruct (Collect_removes c t' _ _ He' (mk_is_Some _ _ Hp') Hafter) as [Hgone Hgone'].
    split; [exact Hgone|]. split; [exact Hgone'|]. split; [reflexivity|].
    intros m Hm. unfold pushCollector_Collect in *. cbn [fst snd pushedPoints] in *.
    apply list_elem_of_fmap in Hm as ([key q] & -> & Hin).
    exists key, q. split; [|reflexivity]. apply elem_of_map_to_list, Hin.
  - intros Hdue. unfold Registry_pushPoint. cbn [fst].
    apply Z.ltb_lt in Hdue. rewrite Hdue.
    cbn [pushedPoints pushedPointsExpiration lastPushedPointsCleanup].
    split; [reflexivity|]. split.
    + intros key e Hlook. apply map_lookup_filter_Some in Hlook as [_ Hkeep]. exact Hkeep.
    + intros key e Hkey Hexp.
      destruct (storeAll_other (Add t ttl) _ (pushedPoints r, pushedPointsExpiration r)
                  key Hkey) as [Hsame Hsame'].
      cbn [fst snd] in Hsame, Hsame'.
      destruct (After t e) eqn:Hafter.
      * split; apply map_lookup_filter_None; right.
        -- intros q _. cbn [fst]. rewrite Hsame', Hexp, Hafter. discriminate.
        -- intros e' He'. cbn [snd]. rewrite Hsame', Hexp in He'.
           injection He' as <-. rewrite Hafter. discriminate.
      * split.
        -- destruct (pushedPoints r !! key) as [q|] eqn:Hq.
           ++ apply map_lookup_filter_Some. rewrite Hsame. split; [reflexivity|].
              cbn [fst]. rewrite Hsame', Hexp. exact Hafter.
           ++ apply map_lookup_filter_None. left. rewrite Hsame. reflexivity.
        -- apply map_lookup_filter_Some. rewrite Hsame'. split; [exact Hexp | exact Hafter].
  - intros Hnot. unfold Registry_pushPoint. cbn [fst].
    apply Z.ltb_ge in Hnot. rewrite Hnot.
    cbn [pushedPoints pushedPointsExpiration lastPushedPointsCleanup].
    split; [reflexivity|]. intros key Hkey.
    apply (storeAll_other (Add t ttl) _ (pushedPoints r, pushedPointsExpiration r) key Hkey).
Qed.

End PushedPointFacts.

(** A point pushed with a time-to-live of one second is stored, and is gone
    from a [Gather] 1.1 seconds later. *)
Lemma pushed_point_expires_witness :
  let t0 := 63713433600 * GoTime.Second in
  let p := Threshold.samplePoint t0 (Threshold.float64 10 0) in
  let r' := fst (PromRegistry.Registry_pushPoint PromRegistry.labelsText
                   PromRegistry.noPoints [p] GoTime.Second t0) in
  PromRegistry.pushedPoints r' !! PromRegistry.labelsText (Types.Labels p) = Some p
  /\ PromRegistry.pushedPoints
       (fst (PromRegistry.pushCollector_Collect r' (GoTime.Add t0 (1100 * 1000000))))
     !! PromRegistry.labelsText (Types.Labels p) = None.
Proof.
  cbv zeta.
  pose proof (pushed_point_expires PromRegistry.labelsText PromRegistry.noPoints [] []
                (Threshold.samplePoint (63713433600 * GoTime.Second) (Threshold.float64 10 0))
                GoTime.Second (63713433600 * GoTime.Second)
                (Forall_nil_2 _)) as Hpush.
  destruct Hpush as (Hstored & Hgather & _); [discriminate|].
  split.
  - exact (proj1 Hstored).
  - exact (proj1 (Hgather _ (GoTime.Add (63713433600 * GoTime.Second) (1100 * 1000000))
                    (proj1 Hstored) (proj2 Hstored) eq_refl)).
Defined.

(** ** The synchronizer *)

Section SynchronizerFacts.
Import GoTime Synchronizer.

(** C8: [disable] without [force] never moves the deadline earlier: the new
    deadline is the later of the old one and [until]; with [force], which is
    how the exported [Disable] calls it, the deadline becomes [until]. *)
Theorem disable_only_extends (s : Synchronizer) (until : Time) (reason : DisableReason) :
  disabledUntil s <= disabledUntil (Synchronizer_disable s until reason false)
  /\ disabledUntil (Synchronizer_disable s until reason false)
     = Z.max (disabledUntil s) until
  /\ disabledUntil (Synchronizer_disable s until reason true) = until
  /\ Synchronizer_Disable s until reason = Synchronizer_disable s until reason true.
Proof.
  unfold Synchronizer_Disable, Synchronizer_disable, Before. simpl.
  destruct (Z.ltb_spec (disabledUntil s) until); simpl; repeat split; lia.
Qed.

(** *** The password *)

Lemma letters_runes c :
  existsb (Ascii.eqb c) letters = alphanumeric c && negb (lookalike c).
Proof. destruct c as [[] [] [] [] [] [] [] []]; reflexivity. Qed.

Lemma letters_spec c : In c letters <-> alphanumeric c && negb (lookalike c) = true.
Proof.
  rewrite <- letters_runes, existsb_exists. split.
  - intros Hin. exists c. split; [exact Hin | apply Ascii.eqb_refl].
  - intros (c' & Hin & Heq). apply Ascii.eqb_eq in Heq. subst. exact Hin.
Qed.

Lemma length_string_of_list_ascii l :
  String.length (string_of_list_ascii l) = length l.
Proof. induction l as [|c l IH]; simpl; congruence. Qed.

Section Draws.
Variable cryptoRandInt : nat -> Z -> drawn.
Variable randIntn : nat -> Z -> Z.

Lemma generatePassword_loop_fine todo i :
  (forall j, (i <= j < i + todo)%nat -> drawsFine cryptoRandInt j) ->
  exists runes,
    generatePassword_loop cryptoRandInt randIntn i todo = Some runes
    /\ length runes = todo
    /\ Forall (fun c => In c letters) runes.
Proof.
  revert i. induction todo as [|todo IH]; intros i Hfine.
  - exists []. repeat split. constructor.
  - destruct (Hfine i) as (n & Hdraw & Hn); [lia|].
    destruct (IH (Datatypes.S i)) as (rest & Hrest & Hlen & Hall).
    { intros j Hj. apply Hfine. lia. }
    destruct (nth_error letters (Z.to_nat n)) as [c|] eqn:Hnth.
    + exists (c :: rest). cbn [generatePassword_loop]. rewrite Hdraw.
      destruct (Z.leb_spec 0 n); [|lia].
      destruct (Z.ltb_spec n (Z.of_nat (length letters))); [|lia].
      cbn [andb]. rewrite Hnth, Hrest. repeat split.
      * simpl. congruence.
      * constructor; [|exact Hall]. apply nth_error_In in Hnth. exact Hnth.
    + apply nth_error_None in Hnth. lia.
Qed.

(** C9 (amended): when its ten draws from the cryptographic generator
    succeed, [generatePassword(10)] returns a string of exactly ten
    characters, each one of the 55 distinct characters of its alphabet: the
    letters and digits other than the look-alikes i, l, o, I, O, 0 and 1. *)
Theorem generatePassword_alphabet :
  (forall i, (i < 10)%nat -> drawsFine cryptoRandInt i) ->
  (exists password,
     generatePassword cryptoRandInt randIntn 10 = Some password
     /\ String.length password = 10%nat
     /\ Forall (fun c => In c letters) (list_ascii_of_string password))
  /\ length letters = 55%nat
  /\ NoDup letters
  /\ (forall c, In c letters <-> alphanumeric c && negb (lookalike c) = true).
Proof.
  intros Hfine. split; [|split; [|split]].
  - destruct (generatePassword_loop_fine 10 0) as (runes & Hrun & Hlen & Hall).
    { intros j Hj. apply Hfine. lia. }
    exists (string_of_list_ascii runes). unfold generatePassword. rewrite Hrun.
    split; [reflexivity|]. split.
    + rewrite length_string_of_list_ascii. exact Hlen.
    + rewrite list_ascii_of_string_of_list_ascii. exact Hall.
  - reflexivity.
  - apply NoDup_ListNoDup. unfold letters. simpl.
    repeat (constructor; [simpl; intuition discriminate|]). constructor.
  - apply letters_spec.
Qed.

End Draws.

(** With entropy that counts 0, 1, 2, ... a password of ten characters of the
    alphabet comes out. *)
Lemma generatePassword_alphabet_witness :
  exists password,
    generatePassword counting fixedIntn 10 = Some password
    /\ String.length password = 10%nat
    /\ Forall (fun c => In c letters) (list_ascii_of_string password).
Proof.
  refine (proj1 (generatePassword_alphabet counting fixedIntn _)).
  intros i Hi. exists (Z.of_nat i). split.
  - unfold counting. rewrite Z.mod_small; [reflexivity|]. simpl. lia.
  - simpl. lia.
Defined.

(** C9, the claim as stated fails: the alphabet has 55 characters, not 54,
    and the last of them can be drawn. *)
Lemma alphabet_is_not_54 :
  length letters <> 54%nat
  /\ generatePassword (fun _ _ => (Some 54, false)) fixedIntn 10
     = Some "9999999999"%string.
Proof. split; [discriminate | reflexivity]. Qed.

(** When the entropy source fails, [cryptoRand.Int] returns a nil number and
    [bigN.Int64()] panics before the test of [err]: the fallback is never
    reached. *)
Lemma entropy_failure_panics :
  generatePassword failing fixedIntn 10 = None.
Proof. reflexivity. Qed.

End SynchronizerFacts.

(** ** Listen addresses of a PID *)

Section NetstatFacts.
Import Netstat.

(** *** Strings *)

Lemma IndexByte_app_None a b c :
  IndexByte (a +:+ b) c = None <-> IndexByte a c = None /\ IndexByte b c = None.
Proof.
  induction a as [|x a IH]; simpl.
  - tauto.
  - destruct (Ascii.eqb x c); [intuition discriminate|].
    destruct (IndexByte (a +:+ b) c) eqn:E1, (IndexByte a c) eqn:E2;
      simpl; intuition congruence.
Qed.

Lemma ContainsByte_false s c : ContainsByte s c = false <-> IndexByte s c = None.
Proof. unfold ContainsByte. destruct (IndexByte s c); split; congruence. Qed.

Lemma LastIndexByte_None s c : LastIndexByte s c = None <-> IndexByte s c = None.
Proof.
  induction s as [|x s IH]; simpl; [tauto|].
  destruct (LastIndexByte s c) eqn:E1, (IndexByte s c) eqn:E2, (Ascii.eqb x c);
    simpl; intuition congruence.
Qed.

Lemma LastIndexByte_sep a d c :
  IndexByte d c = None ->
  LastIndexByte (a +:+ String c d) c = Some (String.length a).
Proof.
  intros Hd. induction a as [|x a IH]; simpl.
  - apply LastIndexByte_None in Hd. rewrite Hd, Ascii.eqb_refl. reflexivity.
  - rewrite IH. reflexivity.
Qed.

Lemma substring_all s : substring 0 (String.length s) s = s.
Proof. induction s as [|x s IH]; simpl; congruence. Qed.

Lemma sliceFrom_sep a d c :
  sliceFrom (Datatypes.S (String.length a)) (a +:+ String c d) = d.
Proof.
  unfold sliceFrom. induction a as [|x a IH]; simpl.
  - rewrite Nat.sub_0_r. apply substring_all.
  - exact IH.
Qed.

Lemma sliceFrom_0 s : sliceFrom 0 s = s.
Proof. unfold sliceFrom. rewrite Nat.sub_0_r. apply substring_all. Qed.

Lemma slice_prefix a b : slice 0 (String.length a) (a +:+ b) = a.
Proof.
  unfold slice. rewrite Nat.sub_0_r.
  induction a as [|x a IH]; simpl.
  - destruct b; reflexivity.
  - rewrite IH. reflexivity.
Qed.

(** *** Decimal numbers *)

Lemma string_of_uint_digits d : digitsOnly (NilEmpty.string_of_uint d).
Proof.
  intros c Hc. induction d; simpl; try reflexivity;
    rewrite IHd; simpl in Hc;
    repeat (destruct Hc as [<- | Hc]; [reflexivity|]); contradiction.
Qed.

Lemma NilZero_string_of_uint_digits d : digitsOnly (NilZero.string_of_uint d).
Proof.
  destruct d; try apply string_of_uint_digits.
  intros c Hc. simpl in Hc.
  repeat (destruct Hc as [<- | Hc]; [reflexivity|]); contradiction.
Qed.

Lemma formatInt_no_byte z c :
  In c [":"; "["; "]"]%char -> IndexByte (formatInt z) c = None.
Proof.
  intros Hc. unfold formatInt, NilZero.string_of_int.
  destruct (Z.to_int z) as [d|d].
  - apply NilZero_string_of_uint_digits. simpl in *. tauto.
  - cbn [IndexByte].
    assert (Hneq : Ascii.eqb "-" c = false).
    { simpl in Hc. repeat (destruct Hc as [<- | Hc]; [reflexivity|]). contradiction. }
    rewrite Hneq. rewrite NilZero_string_of_uint_digits; [reflexivity|].
    simpl in *. tauto.
Qed.

Lemma firstByteIs_digits s c :
  IndexByte s c = None -> firstByteIs s c = false.
Proof.
  destruct s as [|x s]; simpl; [reflexivity|].
  destruct (Ascii.eqb x c); [discriminate | reflexivity].
Qed.

Lemma ParseInt_formatInt z :
  ParseInt (formatInt z)
  = if (minInt <=? z) && (z <=? maxInt) then Some z else None.
Proof.
  unfold ParseInt, formatInt.
  pose proof (DecimalZ.of_to z) as Hz.
  destruct z as [|p|p]; simpl Z.to_int in *; unfold NilZero.string_of_int.
  - reflexivity.
  - assert (Hnonnil := DecimalPos.Unsigned.to_uint_nonnil p).
    rewrite !firstByteIs_digits
      by (apply NilZero_string_of_uint_digits; simpl; tauto).
    cbn [orb]. rewrite NilZero.usu by exact Hnonnil.
    simpl in Hz. rewrite Hz. reflexivity.
  - assert (Hnonnil := DecimalPos.Unsigned.to_uint_nonnil p).
    cbn [firstByteIs]. rewrite Ascii.eqb_refl.
    replace (Ascii.eqb "-" "+") with false by reflexivity. cbn [orb].
    unfold sliceFrom. cbn [String.length substring].
    replace (Datatypes.S (String.length (NilZero.string_of_uint (Pos.to_uint p))) - 1)%nat
      with (String.length (NilZero.string_of_uint (Pos.to_uint p))) by lia.
    rewrite substring_all.
    rewrite NilZero.usu by exact Hnonnil.
    simpl in Hz. rewrite Hz. reflexivity.
Qed.

(** *** Reading a port back *)

Lemma SplitHostPort_port a d h p :
  IndexByte d ":" = None ->
  SplitHostPort (a +:+ String ":" d) = Some (h, p) -> p = d.
Proof.
  intros Hd. unfold SplitHostPort. rewrite (LastIndexByte_sep a d ":" Hd).
  unfold checkBrackets. rewrite sliceFrom_sep.
  repeat match goal with
         | |- context [if ?b then _ else _] => destruct b
         | |- context [match ?o with Some _ => _ | None => _ end] => destruct o
         end; congruence.
Qed.

Lemma plainHost_spec a :
  plainHost a = true
  <-> IndexByte a ":" = None /\ IndexByte a "[" = None /\ IndexByte a "]" = None.
Proof.
  unfold plainHost. rewrite !andb_true_iff, !negb_true_iff, !ContainsByte_false. tauto.
Qed.

Lemma SplitHostPort_plain a d :
  plainHost a = true ->
  (forall c, In c [":"; "["; "]"]%char -> IndexByte d c = None) ->
  SplitHostPort (a +:+ String ":" d) = Some (a, d).
Proof.
  intros Ha Hd. apply plainHost_spec in Ha as (Hcolon & Hopen & Hclose).
  unfold SplitHostPort. rewrite (LastIndexByte_sep a d ":") by (apply Hd; simpl; tauto).
  assert (Hfirst : firstByteIs (a +:+ String ":" d) "[" = false).
  { destruct a as [|x a]; [reflexivity|].
    change (Ascii.eqb x "[" = false).
    cbn [IndexByte] in Hopen. destruct (Ascii.eqb x "["); [discriminate | reflexivity]. }
  rewrite Hfirst, slice_prefix.
  apply ContainsByte_false in Hcolon. rewrite Hcolon.
  unfold checkBrackets. rewrite sliceFrom_0, sliceFrom_sep.
  assert (Hno : forall c, In c ["["; "]"]%char ->
                  ContainsByte (a +:+ String ":" d) c = false).
  { intros c Hc. apply ContainsByte_false, IndexByte_app_None. split.
    - simpl in Hc. destruct Hc as [<- | [<- | []]]; assumption.
    - cbn [IndexByte].
      assert (Hne : Ascii.eqb ":" c = false)
        by (simpl in Hc; destruct Hc as [<- | [<- | []]]; reflexivity).
      rewrite Hne, Hd; [reflexivity|]. simpl in *. tauto. }
  rewrite !Hno by (simpl; tauto). reflexivity.
Qed.

Lemma inet_String v :
  inet v = true ->
  listenAddress_String v = address v +:+ String ":" (formatInt (port v)).
Proof.
  unfold inet, listenAddress_String. intros Hv. apply negb_true_iff in Hv.
  rewrite Hv. reflexivity.
Qed.

Lemma readPort_sound v q : inet v = true -> readPort v = Some q -> q = port v.
Proof.
  intros Hv. unfold readPort. rewrite (inet_String v Hv).
  destruct (SplitHostPort _) as [[h p]|] eqn:Hsplit; [|discriminate].
  apply SplitHostPort_port in Hsplit; [|apply formatInt_no_byte; simpl; tauto].
  subst p. rewrite ParseInt_formatInt.
  destruct (_ && _); congruence.
Qed.

Lemma readPort_plain v :
  inet v = true -> plainHost (address v) = true -> minInt <= port v <= maxInt ->
  readPort v = Some (port v).
Proof.
  intros Hv Hplain Hrange. unfold readPort. rewrite (inet_String v Hv).
  rewrite SplitHostPort_plain by (try exact Hplain; apply formatInt_no_byte).
  rewrite ParseInt_formatInt.
  destruct (Z.leb_spec minInt (port v)); [|lia].
  destruct (Z.leb_spec (port v) maxInt); [|lia]. reflexivity.
Qed.

(** *** The loop of [addAddress] *)

Lemma same_network_inet v n :
  String.eqb (network v) (network n) = true -> inet n = true -> inet v = true.
Proof. intros Heq Hn. apply String.eqb_eq in Heq. unfold inet in *. rewrite Heq. exact Hn. Qed.

Lemma scan_duplicate l n l' :
  inet n = true ->
  scan l n = scanDuplicate l' ->
  exists pre v post,
    l = pre ++ v :: post /\ socket v = socket n
    /\ l' = pre ++ (if loopback n then n else v) :: post.
Proof.
  intros Hn. revert l'. induction l as [|v l IH]; intros l' Hscan; [discriminate|].
  cbn [scan] in Hscan. unfold listenAddress_Network in Hscan.
  assert (Hcontinue :
    match scan l n with
    | scanDuplicate rest' => scanDuplicate (v :: rest')
    | other => other
    end = scanDuplicate l' ->
    exists pre w post,
      v :: l = pre ++ w :: post /\ socket w = socket n
      /\ l' = pre ++ (if loopback n then n else w) :: post).
  { destruct (scan l n) as [|rest'|]; try discriminate.
    intros [= <-]. destruct (IH rest' eq_refl) as (pre & w & post & -> & Hw & ->).
    exists (v :: pre), w, post. auto. }
  destruct (String.eqb (network v) (network n)) eqn:Enet; cbn [negb] in Hscan;
    [|exact (Hcontinue Hscan)].
  destruct (readPort v) as [q|] eqn:Eport; [|discriminate].
  destruct (Z.eqb_spec q (port n)) as [Hq|_]; [|exact (Hcontinue Hscan)].
  apply readPort_sound in Eport; [|exact (same_network_inet v n Enet Hn)].
  apply String.eqb_eq in Enet.
  exists [], v, l. split; [reflexivity|]. split.
  - unfold socket. congruence.
  - unfold loopback. destruct (HasPrefix (address n) "127."); simpl; congruence.
Qed.

Lemma scan_end l n :
  inet n = true ->
  scan l n = scanEnd ->
  Forall (fun v => inet v = true -> socket v <> socket n) l.
Proof.
  intros Hn. induction l as [|v l IH]; intros Hscan; [constructor|].
  cbn [scan] in Hscan. unfold listenAddress_Network in Hscan.
  assert (Hcontinue :
    match scan l n with
    | scanDuplicate rest' => scanDuplicate (v :: rest')
    | other => other
    end = scanEnd -> scan l n = scanEnd).
  { destruct (scan l n); congruence. }
  destruct (String.eqb (network v) (network n)) eqn:Enet; cbn [negb] in Hscan.
  - destruct (readPort v) as [q|] eqn:Eport; [|discriminate].
    destruct (Z.eqb_spec q (port n)) as [Hq|Hq].
    { destruct (HasPrefix (address n) "127."); discriminate. }
    constructor; [|exact (IH (Hcontinue Hscan))].
    intros Hv Hsame. apply readPort_sound in Eport; [|exact Hv].
    unfold socket in Hsame. congruence.
  - constructor; [|exact (IH (Hcontinue Hscan))].
    intros _ Hsame. apply String.eqb_neq in Enet. unfold socket in Hsame. congruence.
Qed.

Lemma scan_no_error l n :
  inet n = true -> Forall readable l -> scan l n <> scanError.
Proof.
  intros Hn Hl. induction Hl as [|v l Hv Hl IH]; [discriminate|].
  cbn [scan]. unfold listenAddress_Network.
  assert (Hcontinue :
    match scan l n with
    | scanDuplicate rest' => scanDuplicate (v :: rest')
    | other => other
    end <> scanError).
  { destruct (scan l n); congruence. }
  destruct (String.eqb (network v) (network n)) eqn:Enet; cbn [negb];
    [|exact Hcontinue].
  destruct (Hv (same_network_inet v n Enet Hn)) as [Hplain Hrange].
  rewrite readPort_plain by (try assumption; exact (same_network_inet v n Enet Hn)).
  destruct (port v =? port n); [|exact Hcontinue].
  destruct (HasPrefix (address n) "127."); discriminate.
Qed.

(** *** No two addresses with the same network and port *)

Lemma sockets_app l1 l2 : sockets (l1 ++ l2) = sockets l1 ++ sockets l2.
Proof. unfold sockets. rewrite filter_app, fmap_app. reflexivity. Qed.

Lemma sockets_cons v l :
  sockets (v :: l) = if inet v then socket v :: sockets l else sockets l.
Proof.
  unfold sockets. rewrite filter_cons.
  destruct (inet v); destruct (decide _); try congruence; reflexivity.
Qed.

Lemma socket_inet v w : socket v = socket w -> inet v = inet w.
Proof. unfold socket, inet. intros [= -> _]. reflexivity. Qed.

Lemma sockets_replace pre v w post :
  socket v = socket w -> sockets (pre ++ w :: post) = sockets (pre ++ v :: post).
Proof.
  intros Hsame. rewrite !sockets_app, !sockets_cons.
  rewrite (socket_inet v w Hsame), Hsame. reflexivity.
Qed.

Lemma projectIPv6_inet c c' :
  inet c = true -> projectIPv6 c = Some c' -> inet c' = true /\ port c' = port c.
Proof.
  unfold projectIPv6. intros Hc.
  destruct (String.eqb (network c) "tcp6") eqn:Etcp.
  { apply String.eqb_eq in Etcp. rewrite Etcp. cbn [orb].
    destruct (ContainsByte _ ":"); [discriminate|]. intros [= <-]. split; reflexivity. }
  destruct (String.eqb (network c) "udp6") eqn:Eudp.
  { apply String.eqb_eq in Eudp. rewrite Eudp. cbn [orb].
    destruct (ContainsByte _ ":"); [discriminate|]. intros [= <-]. split; reflexivity. }
  cbn [orb]. intros [= <-]. auto.
Qed.

Lemma addAddress_sockets l c :
  NoDup (sockets l) -> NoDup (sockets (addAddress l c)).
Proof.
  intros Hl. unfold addAddress.
  destruct (String.eqb (network c) "unix") eqn:Eunix; cbn [negb].
  - rewrite sockets_app, sockets_cons. unfold inet. rewrite Eunix. cbn [negb].
    rewrite app_nil_r. exact Hl.
  - destruct (projectIPv6 c) as [c'|] eqn:Eproj; [|exact Hl].
    destruct (projectIPv6_inet c c') as [Hc' _];
      [unfold inet; rewrite Eunix; reflexivity | exact Eproj |].
    destruct (scan l c') as [|l'|] eqn:Escan; [exact Hl| |].
    + destruct (scan_duplicate l c' l' Hc' Escan) as (pre & v & post & -> & Hsame & ->).
      destruct (loopback c'); [|exact Hl].
      rewrite (sockets_replace pre v c' post Hsame). exact Hl.
    + rewrite sockets_app, sockets_cons, Hc'. cbn [sockets fmap list_fmap filter list_filter app].
      apply NoDup_app. split; [exact Hl|]. split; [|apply NoDup_singleton].
      intros k Hk Hk'. apply list_elem_of_singleton in Hk'. subst k.
      unfold sockets in Hk. apply list_elem_of_fmap in Hk as (v & Hv & Hin).
      apply list_elem_of_filter in Hin as [Hinet Hin].
      pose proof (scan_end l c' Hc' Escan) as Hend.
      rewrite Forall_forall in Hend. apply (Hend v Hin Hinet). congruence.
Qed.

Lemma addresses_sockets cands l :
  NoDup (sockets l) -> NoDup (sockets (fold_left addAddress cands l)).
Proof.
  revert l. induction cands as [|c cands IH]; intros l Hl; [exact Hl|].
  simpl. apply IH, addAddress_sockets, Hl.
Qed.

(** *** The loopback address is preferred *)

Lemma wellFormed_readable c c' :
  wellFormed c = true -> inet c = true -> projectIPv6 c = Some c' -> readable c'.
Proof.
  unfold wellFormed. intros Hwf Hc Hproj _. rewrite Hc, Hproj in Hwf.
  apply andb_true_iff in Hwf as [Hwf Hmax]. apply andb_true_iff in Hwf as [Hplain Hmin].
  apply Z.leb_le in Hmin, Hmax. auto.
Qed.

Lemma addAddress_readable l c :
  Forall readable l -> wellFormed c = true -> Forall readable (addAddress l c).
Proof.
  intros Hl Hwf. unfold addAddress.
  destruct (String.eqb (network c) "unix") eqn:Eunix; cbn [negb].
  - apply Forall_app. split; [exact Hl|]. constructor; [|constructor].
    intros Hc. unfold inet in Hc. rewrite Eunix in Hc. discriminate.
  - destruct (projectIPv6 c) as [c'|] eqn:Eproj; [|exact Hl].
    assert (Hc : inet c = true) by (unfold inet; rewrite Eunix; reflexivity).
    pose proof (wellFormed_readable c c' Hwf Hc Eproj) as Hc'.
    destruct (projectIPv6_inet c c' Hc Eproj) as [Hinet _].
    destruct (scan l c') as [|l'|] eqn:Escan; [exact Hl| |].
    + destruct (scan_duplicate l c' l' Hinet Escan) as (pre & v & post & -> & _ & ->).
      apply Forall_app in Hl as [Hpre Hpost]. apply Forall_cons in Hpost as [Hv Hpost].
      apply Forall_app. split; [exact Hpre|]. constructor; [|exact Hpost].
      destruct (loopback c'); assumption.
    + apply Forall_app. split; [exact Hl|]. constructor; [exact Hc'|constructor].
Qed.

Lemma addAddress_keeps l c k lo :
  survives l k lo -> survives (addAddress l c) k lo.
Proof.
  intros (v0 & Hin & Hinet & Hsock & Hlo). unfold addAddress.
  destruct (String.eqb (network c) "unix") eqn:Eunix; cbn [negb].
  - exists v0. rewrite elem_of_app. auto.
  - destruct (projectIPv6 c) as [c'|] eqn:Eproj; [|exists v0; auto].
    assert (Hc : inet c = true) by (unfold inet; rewrite Eunix; reflexivity).
    destruct (projectIPv6_inet c c' Hc Eproj) as [Hc' _].
    destruct (scan l c') as [|l'|] eqn:Escan; [exists v0; auto| |].
    + destruct (scan_duplicate l c' l' Hc' Escan) as (pre & v & post & -> & Hsame & ->).
      apply elem_of_app in Hin as [Hin | Hin];
        [exists v0; rewrite elem_of_app; auto|].
      apply elem_of_cons in Hin as [-> | Hin];
        [|exists v0; rewrite elem_of_app, elem_of_cons; auto].
      destruct (loopback c') eqn:Eloop.
      * exists c'. rewrite elem_of_app, elem_of_cons.
        repeat split; auto. congruence.
      * exists v. rewrite elem_of_app, elem_of_cons. auto.
    + exists v0. rewrite elem_of_app. auto.
Qed.

Lemma addAddress_adds l c c' :
  Forall readable l -> inet c = true -> projectIPv6 c = Some c' ->
  survives (addAddress l c) (socket c') (loopback c').
Proof.
  intros Hl Hc Eproj. unfold addAddress.
  assert (Eunix : String.eqb (network c) "unix" = false)
    by (unfold inet in Hc; apply negb_true_iff in Hc; exact Hc).
  rewrite Eunix, Eproj. cbn [negb].
  destruct (projectIPv6_inet c c' Hc Eproj) as [Hc' _].
  destruct (scan l c') as [|l'|] eqn:Escan.
  - exfalso. exact (scan_no_error l c' Hc' Hl Escan).
  - destruct (scan_duplicate l c' l' Hc' Escan) as (pre & v & post & -> & Hsame & ->).
    destruct (loopback c') eqn:Eloop.
    + exists c'. rewrite elem_of_app, elem_of_cons. auto.
    + exists v. rewrite elem_of_app, elem_of_cons. repeat split; auto.
      * rewrite (socket_inet v c' Hsame). exact Hc'.
      * discriminate.
  - exists c'. rewrite elem_of_app, list_elem_of_singleton. auto.
Qed.

Lemma addresses_keep cands l k lo :
  survives l k lo -> survives (fold_left addAddress cands l) k lo.
Proof.
  revert l. induction cands as [|c cands IH]; intros l Hl; [exact Hl|].
  simpl. apply IH, addAddress_keeps, Hl.
Qed.

Lemma addresses_add cands l c c' :
  Forall readable l ->
  Forall (fun c => wellFormed c = true) cands ->
  c ∈ cands -> inet c = true -> projectIPv6 c = Some c' ->
  survives (fold_left addAddress cands l) (socket c') (loopback c').
Proof.
  revert l. induction cands as [|c0 cands IH]; intros l Hl Hwf Hin Hc Eproj.
  - apply not_elem_of_nil in Hin. contradiction.
  - apply Forall_cons in Hwf as [Hwf0 Hwf]. simpl.
    apply elem_of_cons in Hin as [<- | Hin].
    + apply addresses_keep, addAddress_adds; assumption.
    + apply IH; try assumption. apply addAddress_readable; assumption.
Qed.

(** *** From the sockets read to the addresses of a PID *)

Lemma inventory_snoc entries e : inventory (entries ++ [e]) = record (inventory entries) e.
Proof. unfold inventory. rewrite fold_left_app. reflexivity. Qed.

Lemma inventory_addressesOf entries pid :
  default [] (inventory entries !! pid) = addressesOf entries pid.
Proof.
  induction entries as [|e entries IH] using rev_ind; [reflexivity|].
  rewrite inventory_snoc. unfold record, addressesOf.
  rewrite filter_app, fmap_app, fold_left_app. fold (addressesOf entries pid).
  rewrite filter_cons, filter_nil.
  destruct (decide (e.1 = pid)) as [<- | Hne].
  - rewrite lookup_insert_eq. simpl. rewrite IH. reflexivity.
  - rewrite lookup_insert_ne by exact Hne. simpl. exact IH.
Qed.

(** C5 (amended): in the addresses the netstat inventory holds for a PID, no
    two addresses of a network other than unix share network and port (unix
    sockets are not de-duplicated).  When every socket read is well formed
    (once projected to IPv4, a host without colon or bracket and a port in
    the range of an int), every socket read for the PID on a network other
    than unix is represented by the address of its network and port, and that
    address is a loopback one (its IP starts with 127.) if the socket read
    is. *)
Theorem netstat_sockets_deduplicated (entries : list (Z * listenAddress))
    (pid : Z) (l : list listenAddress) :
  inventory entries !! pid = Some l ->
  NoDup (sockets l)
  /\ (Forall (fun e => wellFormed e.2 = true) entries ->
      forall c c',
        (pid, c) ∈ entries -> inet c = true -> projectIPv6 c = Some c' ->
        exists v,
          v ∈ l /\ network v = network c' /\ port v = port c'
          /\ (loopback c' = true -> loopback v = true)).
Proof.
  intros Hl.
  assert (El : l = addressesOf entries pid).
  { rewrite <- inventory_addressesOf, Hl. reflexivity. }
  subst l. split.
  - apply addresses_sockets. constructor.
  - intros Hwf c c' Hin Hc Eproj.
    destruct (addresses_add (snd <$> filter (fun e => e.1 = pid) entries) [] c c')
      as (v & Hv & _ & Hsock & Hlo); try assumption.
    + constructor.
    + apply Forall_fmap. apply Forall_forall. intros e He.
      apply list_elem_of_filter in He as [_ He].
      rewrite Forall_forall in Hwf. exact (Hwf e He).
    + apply list_elem_of_fmap. exists (pid, c). split; [reflexivity|].
      apply list_elem_of_filter. auto.
    + exists v. unfold socket in Hsock. injection Hsock as Hnet Hport. auto.
Qed.

End NetstatFacts.

(** A process that listens on port 5672 on every IPv4 address and on the
    IPv6 loopback keeps one address for the port, the loopback one. *)
Lemma netstat_sockets_deduplicated_witness :
  let entries := [(1547, Netstat.rabbitmqAny); (1547, Netstat.rabbitmqLoopback)] in
  Netstat.inventory entries !! 1547
  = Some [ {| Netstat.network := "tcp"; Netstat.address := "127.0.0.1";
              Netstat.port := 5672 |} ]
  /\ exists v,
       v ∈ [ {| Netstat.network := "tcp"; Netstat.address := "127.0.0.1";
                Netstat.port := 5672 |} ]
       /\ Netstat.network v = "tcp"%string /\ Netstat.port v = 5672
       /\ (Netstat.loopback {| Netstat.network := "tcp"; Netstat.address := "127.0.0.1";
                                Netstat.port := 5672 |} = true ->
           Netstat.loopback v = true).
Proof.
  cbv zeta. split; [reflexivity|].
  refine (proj2 (netstat_sockets_deduplicated
                   [(1547, Netstat.rabbitmqAny); (1547, Netstat.rabbitmqLoopback)] 1547
                   _ eq_refl) _ Netstat.rabbitmqLoopback _ _ eq_refl eq_refl).
  - repeat constructor.
  - apply elem_of_cons. right. apply elem_of_cons. left. reflexivity.
Defined.

(** An address that [net.SplitHostPort] cannot split (an IPv6 host under the
    network tcp) stops the loop: the loopback socket read after it is
    dropped.  Such sockets are not well formed. *)
Example unreadable_address_blocks_loopback :
  let odd := {| Netstat.network := "tcp"; Netstat.address := "::1"; Netstat.port := 80 |} in
  let lo := {| Netstat.network := "tcp"; Netstat.address := "127.0.0.1";
               Netstat.port := 80 |} in
  Netstat.wellFormed odd = false
  /\ Netstat.addAddress (Netstat.addAddress [] odd) lo = [odd].
Proof. split; reflexivity. Qed.

(** The projection of IPv6 sockets: the loopback and the unspecified address
    become their IPv4 counterparts under tcp, any other address is dropped. *)
Example ipv6_projection :
  Netstat.addAddress []
    {| Netstat.network := "tcp6"; Netstat.address := "::1"; Netstat.port := 5672 |}
  = [ {| Netstat.network := "tcp"; Netstat.address := "127.0.0.1"; Netstat.port := 5672 |} ]
  /\ Netstat.addAddress []
       {| Netstat.network := "tcp6"; Netstat.address := "::"; Netstat.port := 5672 |}
     = [ {| Netstat.network := "tcp"; Netstat.address := "0.0.0.0"; Netstat.port := 5672 |} ]
  /\ Netstat.addAddress []
       {| Netstat.network := "udp6"; Netstat.address := "fe80::1"; Netstat.port := 53 |}
     = [].
Proof. repeat split; reflexivity. Qed.

(** C5, the claim as stated fails: two unix sockets of a process are both
    kept, with the same network and the same port. *)
Lemma unix_sockets_share_port :
  ~ (forall entries pid l,
       Netstat.inventory entries !! pid = Some l -> NoDup (Netstat.socket <$> l)).
Proof.
  intros Hclaim.
  specialize (Hclaim [(1547, Netstat.socketA); (1547, Netstat.socketB)] 1547
                [Netstat.socketA; Netstat.socketB] eq_refl).
  apply NoDup_cons in Hclaim as [Hnotin _]. apply Hnotin.
  apply elem_of_cons. left. reflexivity.
Qed.

(** ** The soft status, one update at a time *)

Section UpdateFacts.
Import GoTime Types Threshold.

(** X1: with a period that is not negative, an update never shows a status
    worse than the raw one when the raw status is ok or warning: a raw ok
    status gives the current status ok at once, whatever the state was, and
    a raw warning status never gives the current status critical. *)
Theorem soft_status_not_above_raw (s : statusState) (newStatus : Status)
    (per : Duration) (t c : Time) :
  0 <= per ->
  (newStatus = StatusOk ->
     CurrentStatus (statusState_Update s newStatus per t c) = StatusOk)
  /\ (newStatus = StatusWarning ->
     CurrentStatus (statusState_Update s newStatus per t c) <> StatusCritical).
Proof.
  intros Hper. split; intros ->; unfold statusState_Update.
  - cbn [CurrentStatus Status_eqb andb].
    destruct (Z.eqb_spec per 0); [reflexivity|].
    destruct (Z.leb_spec per 0); [lia|].
    rewrite andb_false_r. reflexivity.
  - cbn [CurrentStatus Status_eqb andb].
    destruct (Z.eqb_spec per 0); [discriminate|].
    destruct (Z.leb_spec per 0); [lia|].
    destruct (per <=? _); [discriminate|].
    rewrite andb_true_r.
    destruct (CurrentStatus s); cbn [Status_eqb]; discriminate.
Qed.

(** X2: after an update made at [now], an open period never starts after
    [now]: each of [CriticalSince] and [WarningSince] is zero or not after
    [now], even if the state held a time of the future. *)
Theorem open_periods_not_in_future (s : statusState) (newStatus : Status)
    (per : Duration) (t c : Time) :
  let s' := statusState_Update s newStatus per t c in
  (CriticalSince s' = zeroTime \/ CriticalSince s' <= t)
  /\ (WarningSince s' = zeroTime \/ WarningSince s' <= t).
Proof.
  cbv zeta. unfold statusState_Update, After, IsZero, zeroTime.
  destruct newStatus; cbn [CriticalSince WarningSince]; auto;
    split_clock; cbn [CriticalSince WarningSince]; split; lia.
Qed.

(** X3: with a positive period, a key whose current status is set and not
    critical only becomes critical on a raw critical status whose critical
    period was opened by an earlier update, is kept by this one, and has
    lasted the period at least. *)
Theorem escalation_waits_for_period (s : statusState) (newStatus : Status)
    (per : Duration) (t c : Time) :
  0 < per ->
  CurrentStatus s <> StatusUnset ->
  CurrentStatus s <> StatusCritical ->
  CurrentStatus (statusState_Update s newStatus per t c) = StatusCritical ->
  newStatus = StatusCritical
  /\ CriticalSince s <> zeroTime
  /\ CriticalSince (statusState_Update s newStatus per t c) = CriticalSince s
  /\ per <= t - CriticalSince s.
Proof.
  intros Hper Hset Hnot.
  assert (Hcur0 : forall n,
            (if Status_eqb (CurrentStatus s) StatusUnset then n else CurrentStatus s)
            = CurrentStatus s).
  { intros n. destruct (CurrentStatus s); try reflexivity. contradiction. }
  unfold statusState_Update. rewrite Hcur0.
  destruct (Z.eqb_spec per 0); [lia|].
  destruct newStatus; cbn [CurrentStatus CriticalSince Status_eqb andb];
    try (destruct (Z.leb_spec per 0); [lia|];
         try destruct (per <=? _);
         rewrite ?andb_false_r, ?andb_true_r; try discriminate;
         try destruct (Status_eqb (CurrentStatus s) StatusCritical);
         try discriminate; intros Hc; contradiction).
  unfold After, IsZero, Sub, zeroTime, maxDuration, minDuration.
  destruct (Z.ltb_spec t (CriticalSince s)); cbn [Z.eqb].
  - rewrite Z.sub_diag.
    change (2 ^ 63 - 1 <? 0) with false. change (0 <? - 2 ^ 63) with false. cbv iota.
    destruct (Z.leb_spec per 0); [lia|].
    destruct (per <=? _); [discriminate|].
    rewrite andb_false_r. intros Hc. contradiction.
  - destruct (Z.eqb_spec (CriticalSince s) 0) as [E|E].
    + rewrite Z.sub_diag.
      change (2 ^ 63 - 1 <? 0) with false. change (0 <? - 2 ^ 63) with false. cbv iota.
      destruct (Z.leb_spec per 0); [lia|].
      destruct (per <=? _); [discriminate|].
      rewrite andb_false_r. intros Hc. contradiction.
    + destruct (Z.ltb_spec (2 ^ 63 - 1) (t - CriticalSince s)).
      { destruct (Z.leb_spec per (2 ^ 63 - 1)).
        - intros _. repeat split; try assumption. lia.
        - destruct (per <=? _); [discriminate|].
          rewrite andb_false_r. intros Hc. contradiction. }
      destruct (Z.ltb_spec (t - CriticalSince s) (- 2 ^ 63)); [lia|].
      destruct (Z.leb_spec per (t - CriticalSince s)).
      { intros _. repeat split; assumption. }
      destruct (per <=? _); [discriminate|].
      rewrite andb_false_r. intros Hc. contradiction.
Qed.

End UpdateFacts.

(** The critical state the sample escalation ends in recovers on the first
    raw ok status. *)
Lemma soft_status_not_above_raw_witness :
  Threshold.CurrentStatus
    (Threshold.statusState_Update (Threshold.run Threshold.escalation) Types.StatusOk
       (300 * GoTime.Second) (63713433600 * GoTime.Second) 0)
  = Types.StatusOk.
Proof.
  refine (proj1 (soft_status_not_above_raw _ Types.StatusOk _ _ _ _) eq_refl).
  unfold GoTime.Second. lia.
Defined.

(** The last update of the sample escalation: the critical period was opened
    310 s before. *)
Lemma escalation_waits_for_period_witness :
  let t0 := 63713433600 * GoTime.Second in
  let s := Threshold.run (firstn 3 Threshold.escalation) in
  Types.StatusCritical = Types.StatusCritical
  /\ Threshold.CriticalSince s <> GoTime.zeroTime
  /\ Threshold.CriticalSince
       (Threshold.statusState_Update s Types.StatusCritical (300 * GoTime.Second)
          (GoTime.Add t0 (310 * GoTime.Second)) t0)
     = Threshold.CriticalSince s
  /\ 300 * GoTime.Second <= GoTime.Add t0 (310 * GoTime.Second) - Threshold.CriticalSince s.
Proof.
  cbv zeta.
  apply (escalation_waits_for_period
           (Threshold.run (firstn 3 Threshold.escalation)) Types.StatusCritical
           (300 * GoTime.Second)
           (GoTime.Add (63713433600 * GoTime.Second) (310 * GoTime.Second))
           (63713433600 * GoTime.Second)).
  - unfold GoTime.Second. lia.
  - vm_compute. discriminate.
  - vm_compute. discriminate.
  - vm_compute. reflexivity.
Defined.

(** ** Equality of thresholds *)

Section EqualFacts.
Import Types Threshold.

Lemma feq_cases a b :
  feq a b = true ->
  (a = b /\ IsNaN a = false)
  \/ (exists s1 s2, a = S754_zero s1 /\ b = S754_zero s2).
Proof.
  unfold feq, SFeqb, SFcompare.
  destruct a as [sa|sa| |sa ma ea], b as [sb|sb| |sb mb eb];
    try discriminate; try (destruct sa; discriminate); try (destruct sb; discriminate).
  - right. eauto.
  - destruct sa, sb; try discriminate; left; split; reflexivity.
  - destruct sa, sb; try discriminate;
      destruct (Z.compare_spec ea eb); try discriminate; subst;
      destruct (Pos.compare_cont Eq ma mb) eqn:E; try discriminate;
      apply Pos.compare_eq in E; subst; left; split; reflexivity.
Qed.

Lemma feq_refl a : IsNaN a = false -> feq a a = true.
Proof.
  unfold feq, SFeqb, SFcompare.
  destruct a as [sa|sa| |sa ma ea]; try reflexivity; try discriminate.
  - destruct sa; reflexivity.
  - intros _. destruct sa; rewrite Z.compare_refl;
      change (Pos.compare_cont Eq ma ma) with (Pos.compare ma ma);
      rewrite Pos.compare_refl; reflexivity.
Qed.

Lemma feq_zeros s1 s2 : feq (S754_zero s1) (S754_zero s2) = true.
Proof. reflexivity. Qed.

Lemma IsNaN_true a : IsNaN a = true -> a = S754_nan.
Proof. destruct a; try discriminate. reflexivity. Qed.

Lemma sameLimit_refl a : sameLimit a a = true.
Proof.
  unfold sameLimit. destruct (IsNaN a) eqn:E.
  - apply orb_true_r.
  - rewrite feq_refl by exact E. reflexivity.
Qed.

Lemma sameLimit_cases a b :
  sameLimit a b = true ->
  a = b \/ (exists s1 s2, a = S754_zero s1 /\ b = S754_zero s2).
Proof.
  unfold sameLimit. intros Hs. apply orb_true_iff in Hs as [Hs|Hs].
  - destruct (feq_cases _ _ Hs) as [[-> _]|Hz]; auto.
  - apply andb_true_iff in Hs as [Ha Hb].
    rewrite (IsNaN_true _ Ha), (IsNaN_true _ Hb). auto.
Qed.

Lemma sameLimit_sym a b : sameLimit a b = true -> sameLimit b a = true.
Proof.
  intros Hs. destruct (sameLimit_cases _ _ Hs) as [->|(s1 & s2 & -> & ->)].
  - apply sameLimit_refl.
  - reflexivity.
Qed.

Lemma sameLimit_trans a b c :
  sameLimit a b = true -> sameLimit b c = true -> sameLimit a c = true.
Proof.
  intros Hab Hbc.
  destruct (sameLimit_cases _ _ Hab) as [->|(s1 & s2 & -> & ->)]; [exact Hbc|].
  destruct (sameLimit_cases _ _ Hbc) as [<-|(s3 & s4 & _ & ->)]; reflexivity.
Qed.

Lemma differ_sameLimit a b : differ a b = negb (sameLimit a b).
Proof.
  unfold differ, sameLimit.
  destruct (feq a b), (IsNaN a), (IsNaN b); reflexivity.
Qed.

(** [Equal] is the conjunction of the four limit tests. *)
Lemma Equal_sameLimit t other :
  Threshold_Equal t other
  = sameLimit (LowCritical t) (LowCritical other)
    && sameLimit (LowWarning t) (LowWarning other)
    && sameLimit (HighWarning t) (HighWarning other)
    && sameLimit (HighCritical t) (HighCritical other).
Proof.
  unfold Threshold_Equal, Threshold_eq. rewrite !differ_sameLimit.
  unfold sameLimit.
  destruct (feq (LowCritical t) (LowCritical other)),
           (feq (LowWarning t) (LowWarning other)),
           (feq (HighWarning t) (HighWarning other)),
           (feq (HighCritical t) (HighCritical other));
    cbn [andb orb negb];
    repeat match goal with
           | |- context [IsNaN ?x && IsNaN ?y] => destruct (IsNaN x && IsNaN y)
           end; reflexivity.
Qed.

Lemma Equal_limits t other :
  Threshold_Equal t other = true <->
  sameLimit (LowCritical t) (LowCritical other) = true
  /\ sameLimit (LowWarning t) (LowWarning other) = true
  /\ sameLimit (HighWarning t) (HighWarning other) = true
  /\ sameLimit (HighCritical t) (HighCritical other) = true.
Proof. rewrite Equal_sameLimit, !andb_true_iff. tauto. Qed.

(** X4: [Threshold.Equal] is an equivalence relation on thresholds; in
    particular a threshold with unset (NaN) limits is equal to itself, which
    [==] does not give. *)
Theorem Equal_equivalence :
  Equivalence (fun t other => Threshold_Equal t other = true).
Proof.
  split.
  - intros t. apply Equal_limits. repeat split; apply sameLimit_refl.
  - intros t other Ht. apply Equal_limits in Ht as (H1 & H2 & H3 & H4).
    apply Equal_limits. repeat split; apply sameLimit_sym; assumption.
  - intros a b c Hab Hbc.
    apply Equal_limits in Hab as (H1 & H2 & H3 & H4).
    apply Equal_limits in Hbc as (H5 & H6 & H7 & H8).
    apply Equal_limits. repeat split; eapply sameLimit_trans; eassumption.
Qed.

Lemma sameLimit_compare a b :
  sameLimit a b = true ->
  IsNaN a = IsNaN b
  /\ feq a fzero = feq b fzero
  /\ forall v, flt v a = flt v b /\ fgt v a = fgt v b.
Proof.
  intros Hs. destruct (sameLimit_cases _ _ Hs) as [->|(s1 & s2 & -> & ->)].
  - auto.
  - repeat split; destruct v; reflexivity.
Qed.

(** X5: thresholds that [Equal] holds for are interchangeable: both are zero
    or neither is, and every value has the same status under both. *)
Theorem Equal_same_status (t other : Threshold) :
  Threshold_Equal t other = true ->
  Threshold_IsZero t = Threshold_IsZero other
  /\ forall value,
       fst (Threshold_CurrentStatus t value)
       = fst (Threshold_CurrentStatus other value).
Proof.
  intros Ht. apply Equal_limits in Ht as (H1 & H2 & H3 & H4).
  apply sameLimit_compare in H1 as (N1 & Z1 & C1).
  apply sameLimit_compare in H2 as (N2 & Z2 & C2).
  apply sameLimit_compare in H3 as (N3 & Z3 & C3).
  apply sameLimit_compare in H4 as (N4 & Z4 & C4).
  split.
  - unfold Threshold_IsZero. unfold feq in Z1, Z2, Z3, Z4.
    rewrite N1, N2, N3, N4, Z1, Z2, Z3, Z4. reflexivity.
  - intros value. unfold Threshold_CurrentStatus.
    rewrite N1, N2, N3, N4.
    rewrite (proj1 (C1 value)), (proj1 (C2 value)),
            (proj2 (C3 value)), (proj2 (C4 value)).
    repeat match goal with
           | |- context [if ?b then _ else _] => destruct b
           end; reflexivity.
Qed.

End EqualFacts.

(** A threshold with a high warning limit of zero, written with either sign
    of zero, and the other limits unset. *)
Lemma Equal_same_status_witness :
  let plus :=
    {| Threshold.LowCritical := Threshold.NaN; Threshold.LowWarning := Threshold.NaN;
       Threshold.HighWarning := S754_zero false; Threshold.HighCritical := Threshold.NaN |} in
  let minus :=
    {| Threshold.LowCritical := Threshold.NaN; Threshold.LowWarning := Threshold.NaN;
       Threshold.HighWarning := S754_zero true; Threshold.HighCritical := Threshold.NaN |} in
  Threshold.Threshold_IsZero plus = Threshold.Threshold_IsZero minus
  /\ forall value,
       fst (Threshold.Threshold_CurrentStatus plus value)
       = fst (Threshold.Threshold_CurrentStatus minus value).
Proof.
  cbv zeta. apply Equal_same_status. reflexivity.
Defined.

(** ** Thresholds read from the configuration *)

Section FromInterfaceMapFacts.
Import Types Threshold.

(** X6: [FromInterfaceMap] returns no error exactly when each of the four
    names it knows holds a float64, an int or nothing; it then returns the
    threshold whose limits are the numbers held (ints converted to float64)
    and are unset (NaN) for the names that are missing.  No other key of the
    input is read. *)
Theorem FromInterfaceMap_limits (input : gmap string iface) :
  (snd (FromInterfaceMap input) = None
   <-> Forall (fun name => numeric input name = true) limitNames)
  /\ (snd (FromInterfaceMap input) = None ->
      fst (FromInterfaceMap input)
      = {| LowCritical := limitOf input "low_critical";
           LowWarning := limitOf input "low_warning";
           HighWarning := limitOf input "high_warning";
           HighCritical := limitOf input "high_critical" |})
  /\ (forall other,
        (forall name, name ∈ limitNames -> other !! name = input !! name) ->
        FromInterfaceMap other = FromInterfaceMap input).
Proof.
  split; [|split].
  - unfold FromInterfaceMap, limitNames, numeric. rewrite !Forall_cons, Forall_nil.
    cbn [FromInterfaceMap_loop].
    destruct (input !! "low_critical") as [[?|?|?]|];
      destruct (input !! "low_warning") as [[?|?|?]|];
      destruct (input !! "high_warning") as [[?|?|?]|];
      destruct (input !! "high_critical") as [[?|?|?]|];
      cbn [snd]; intuition congruence.
  - unfold FromInterfaceMap, limitNames, limitOf. cbn [FromInterfaceMap_loop].
    destruct (input !! "low_critical") as [[?|?|?]|];
      destruct (input !! "low_warning") as [[?|?|?]|];
      destruct (input !! "high_warning") as [[?|?|?]|];
      destruct (input !! "high_critical") as [[?|?|?]|];
      cbn [snd fst]; intros Herr; try discriminate Herr; reflexivity.
  - intros other Hsame. unfold FromInterfaceMap, limitNames.
    cbn [FromInterfaceMap_loop].
    rewrite !Hsame by (unfold limitNames; set_solver). reflexivity.
Qed.

End FromInterfaceMapFacts.

(** ** The pusher of the threshold registry *)

Section PushPointsFacts.
Import GoTime Types Threshold.
Context {S : Type} `{State S}.
Variable formatValue : spec_float -> Unit -> string.
Variable formatDuration : Duration -> string.
Variable NagiosCode : Status -> spec_float.

Abbreviation addPoint' :=
  (@pusher_addPointWithThreshold S formatValue formatDuration NagiosCode).
Abbreviation PushPoints_loop :=
  (@pusher_PushPoints_loop S formatValue formatDuration NagiosCode).
Abbreviation PushPoints :=
  (@pusher_PushPoints S formatValue formatDuration NagiosCode).

(** The status a point carries. *)
Abbreviation statusOf q := (Types.CurrentStatus (AStatus (Annotations q))).
Abbreviation textOf q := (StatusText (AStatus (Annotations q))).

Lemma CurrentStatus_set t value : fst (Threshold_CurrentStatus t value) <> StatusUnset.
Proof.
  unfold Threshold_CurrentStatus.
  repeat match goal with
         | |- context [if ?b then _ else _] => destruct b
         end; discriminate.
Qed.

Lemma Update_status_set s newStatus per t c :
  newStatus <> StatusUnset ->
  CurrentStatus (statusState_Update s newStatus per t c) <> StatusUnset.
Proof.
  intros Hn. unfold statusState_Update.
  destruct (match newStatus with
            | StatusCritical => _ | StatusWarning => _ | _ => _ end)
    as [[[c1 w1] cd] wd].
  cbn [CurrentStatus].
  repeat match goal with
         | |- context [if ?b then _ else _] => destruct b eqn:?
         end; try discriminate; try assumption.
  destruct (CurrentStatus s); discriminate.
Qed.

Lemma prefix_app p x : String.prefix p (p +:+ x) = true.
Proof.
  induction p as [|a p IH].
  - destruct x; reflexivity.
  - change (String a p +:+ x) with (String a (p +:+ x)). cbn [String.prefix].
    destruct (ascii_dec a a); [exact IH|contradiction].
Qed.

Lemma prefix_app_app p x y : String.prefix p ((p +:+ x) +:+ y) = true.
Proof.
  induction p as [|a p IH].
  - destruct (("" +:+ x) +:+ y); reflexivity.
  - change ((String a p +:+ x) +:+ y) with (String a ((p +:+ x) +:+ y)).
    cbn [String.prefix].
    destruct (ascii_dec a a); [exact IH|contradiction].
Qed.

Lemma addPoint_acc r result point threshold key t c :
  addPoint' r result point threshold key t c
  = (fst (addPoint' r [] point threshold key t c),
     result ++ snd (addPoint' r [] point threshold key t c)).
Proof.
  unfold pusher_addPointWithThreshold.
  destruct (Threshold_CurrentStatus threshold (Value (MPoint point))).
  reflexivity.
Qed.

(** What a call of [addPointWithThreshold] emits: the point with a status,
    and its companion. *)
Lemma addPoint_emits r point threshold key t c :
  exists a b,
    snd (addPoint' r [] point threshold key t c) = [a; b]
    /\ payload a = payload point
    /\ MPoint b = {| PTime := PTime (MPoint point); Value := NagiosCode (statusOf a) |}
    /\ Labels b
       = <[LabelName := default "" (Labels point !! LabelName) +:+ "_status"]>
           (Labels point)
    /\ StatusOf (Annotations b) = default "" (Labels point !! LabelName)
    /\ BleemeoItem (Annotations b) = BleemeoItem (Annotations point)
    /\ AStatus (Annotations b) = AStatus (Annotations a)
    /\ IsSet (statusOf a) = true
    /\ String.prefix "Current value: " (textOf a) = true.
Proof.
  unfold pusher_addPointWithThreshold.
  pose proof (CurrentStatus_set threshold (Value (MPoint point))) as Hset.
  destruct (Threshold_CurrentStatus threshold (Value (MPoint point)))
    as [softStatus thresholdLimit].
  cbn [fst] in Hset. cbn [snd app]. eexists _, _.
  split; [reflexivity|].
  cbn [payload MPoint Labels Annotations BleemeoItem StatusOf AStatus
       Types.CurrentStatus StatusText].
  repeat split.
  - pose proof (Update_status_set
                  (default zeroStatusState (states r !! key)) softStatus
                  match softPeriods r !! Name key with
                  | Some tmp => tmp
                  | None => defaultSoftPeriod r
                  end t c Hset) as Hs.
    unfold IsSet. destruct (CurrentStatus _); try reflexivity. contradiction.
  - repeat match goal with
           | |- context [if ?b then _ else _] => destruct b
           end; first [apply prefix_app_app | apply prefix_app].
Qed.

Lemma getThreshold_addPoint r result point threshold key t c k :
  Registry_getThreshold (fst (addPoint' r result point threshold key t c)) k
  = Registry_getThreshold r k.
Proof.
  unfold pusher_addPointWithThreshold.
  destruct (Threshold_CurrentStatus threshold (Value (MPoint point))).
  reflexivity.
Qed.

Lemma evaluated_addPoint r result point threshold key t c q :
  evaluated (fst (addPoint' r result point threshold key t c)) q = evaluated r q.
Proof. unfold evaluated. rewrite getThreshold_addPoint. reflexivity. Qed.

Lemma loop_acc points : forall r result,
  PushPoints_loop r result points
  = (fst (PushPoints_loop r [] points), result ++ snd (PushPoints_loop r [] points)).
Proof.
  induction points as [|[point [t c]] rest IH]; intros r result.
  - simpl. rewrite app_nil_r. reflexivity.
  - cbn [pusher_PushPoints_loop].
    destruct (negb (IsSet _)).
    + destruct (negb (Threshold_IsZero _)).
      * rewrite (addPoint_acc r result).
        rewrite (surjective_pairing (addPoint' r [] _ _ _ _ _)).
        rewrite (IH _ (result ++ _)), (IH _ (snd _)).
        cbn [fst snd]. rewrite app_assoc. reflexivity.
      * rewrite (IH r (result ++ [point])), (IH r ([] ++ [point])).
        cbn [fst snd]. rewrite <- app_assoc. reflexivity.
    + rewrite (IH r (result ++ [point])), (IH r ([] ++ [point])).
      cbn [fst snd]. rewrite <- app_assoc. reflexivity.
Qed.

(** One turn of the loop of [PushPoints]. *)
Lemma loop_cons r point t c rest :
  PushPoints_loop r [] ((point, (t, c)) :: rest)
  = if evaluated r point
    then
      let a := addPoint' r [] point (Registry_getThreshold r (keyOfPoint point))
                 (keyOfPoint point) t c in
      (fst (PushPoints_loop (fst a) [] rest),
       snd a ++ snd (PushPoints_loop (fst a) [] rest))
    else (fst (PushPoints_loop r [] rest), point :: snd (PushPoints_loop r [] rest)).
Proof.
  cbn [pusher_PushPoints_loop]. unfold evaluated, keyOfPoint.
  destruct (negb (IsSet _)); cbn [andb].
  - destruct (negb (Threshold_IsZero _)).
    + cbv zeta. rewrite (surjective_pairing (addPoint' r [] _ _ _ _ _)).
      rewrite loop_acc. reflexivity.
    + rewrite loop_acc. reflexivity.
  - rewrite loop_acc. reflexivity.
Qed.

Lemma loop_passthrough points : forall r,
  Forall (fun p => evaluated r p.1 = false) points ->
  PushPoints_loop r [] points = (r, points.*1).
Proof.
  induction points as [|[point [t c]] rest IH]; intros r Hall.
  - reflexivity.
  - apply Forall_cons in Hall as [Hp Hrest]. cbn [fst] in Hp.
    rewrite loop_cons, Hp, (IH r Hrest). reflexivity.
Qed.

(** X7: points that already carry a status, and points whose metric has no
    threshold (none configured, or one whose limits are all unset or all
    zero), go through [PushPoints] untouched: when no point of a push is to
    be evaluated, the wrapped pusher receives the points as they are and the
    registry does not change. *)
Theorem PushPoints_passthrough (r : Registry S)
    (points : list (MetricPoint * (Time * Time))) :
  Forall (fun p => evaluated r p.1 = false) points ->
  PushPoints r points = (r, points.*1).
Proof. apply loop_passthrough. Qed.

(** X8: [PushPoints] drops no point and changes neither the order of the
    points nor what they carry besides the status: the points it was given
    are, for their time, value, labels, item and status-of name, a sublist of
    the points it hands to the wrapped pusher. *)
Theorem PushPoints_keeps_points (r : Registry S)
    (points : list (MetricPoint * (Time * Time))) :
  sublist (payload <$> points.*1) (payload <$> snd (PushPoints r points)).
Proof.
  unfold pusher_PushPoints. revert r.
  induction points as [|[point [t c]] rest IH]; intros r.
  - apply sublist_nil_l.
  - rewrite loop_cons. cbn [fmap list_fmap fst]. destruct (evaluated r point).
    + cbv zeta. cbn [snd].
      destruct (addPoint_emits r point (Registry_getThreshold r (keyOfPoint point))
                  (keyOfPoint point) t c) as (a & b & -> & Ha & _).
      cbn [app fmap list_fmap]. rewrite Ha.
      apply sublist_skip, sublist_cons, IH.
    + cbn [snd fmap list_fmap]. apply sublist_skip, IH.
Qed.

Lemma loop_evaluated points : forall r q,
  evaluated (fst (PushPoints_loop r [] points)) q = evaluated r q.
Proof.
  induction points as [|[point [t c]] rest IH]; intros r q.
  - reflexivity.
  - rewrite loop_cons. destruct (evaluated r point); cbv zeta; cbn [fst].
    + rewrite IH, evaluated_addPoint. reflexivity.
    + apply IH.
Qed.

(** Where a point handed to the wrapped pusher comes from. *)
Lemma loop_origin points : forall r q,
  q ∈ snd (PushPoints_loop r [] points) ->
  (q ∈ points.*1 /\ evaluated r q = false)
  \/ (exists p, p ∈ points.*1 /\ evaluated r p = true
        /\ annotated q /\ (payload q = payload p \/ companionOf p q)).
Proof.
  induction points as [|[point [t c]] rest IH]; intros r q Hq.
  - cbn in Hq. apply elem_of_nil in Hq. contradiction.
  - rewrite loop_cons in Hq. cbn [fmap list_fmap fst].
    destruct (evaluated r point) eqn:Hev.
    + cbv zeta in Hq. cbn [snd] in Hq.
      destruct (addPoint_emits r point (Registry_getThreshold r (keyOfPoint point))
                  (keyOfPoint point) t c)
        as (a & b & Eab & Ha & Hb & Hl & Hso & Hi & Hst & Hset & Hpre).
      rewrite Eab in Hq. cbn [app] in Hq.
      apply elem_of_cons in Hq as [->|Hq]; [|apply elem_of_cons in Hq as [->|Hq]].
      * right. exists point. unfold annotated.
        repeat split; try assumption; [left|left; exact Ha].
      * right. exists point. unfold annotated, companionOf. rewrite Hst.
        repeat split; try assumption; [left|].
        right. rewrite Hb. auto.
      * destruct (IH _ _ Hq) as [[Hin Hne]|(p & Hin & Hp & Hrest)].
        -- left. rewrite evaluated_addPoint in Hne. split; [right|]; assumption.
        -- right. exists p. rewrite evaluated_addPoint in Hp.
           split; [right; exact Hin|]. split; assumption.
    + cbn [snd] in Hq. apply elem_of_cons in Hq as [->|Hq].
      * left. split; [left|exact Hev].
      * destruct (IH _ _ Hq) as [[Hin Hne]|(p & Hin & Hp & Hrest)].
        -- left. split; [right|]; assumption.
        -- right. exists p. split; [right; exact Hin|]. split; assumption.
Qed.

(** X9: every point [PushPoints] hands to the wrapped pusher is either a
    point it was given and did not evaluate, unchanged, or comes from a point
    it evaluated: it then carries a status that is set and a description that
    starts with the words the consumers expect, and it is that point with its
    time, value, labels, item and status-of name, or its companion, named
    after it with the suffix _status, with its time and item and with its
    name as status-of name. *)
Theorem PushPoints_output (r : Registry S)
    (points : list (MetricPoint * (Time * Time))) (q : MetricPoint) :
  q ∈ snd (PushPoints r points) ->
  (q ∈ points.*1 /\ evaluated r q = false)
  \/ (exists p, p ∈ points.*1 /\ evaluated r p = true
        /\ annotated q /\ (payload q = payload p \/ companionOf p q)).
Proof. apply loop_origin. Qed.

(** X10: [PushPoints] is idempotent: pushed again through the registry as
    the first push left it, whatever the clock says, the points it handed to
    the wrapped pusher are handed over once more as they are, and the
    registry does not change. *)
Theorem PushPoints_idempotent (r : Registry S)
    (points again : list (MetricPoint * (Time * Time))) :
  again.*1 = snd (PushPoints r points) ->
  PushPoints (fst (PushPoints r points)) again
  = (fst (PushPoints r points), snd (PushPoints r points)).
Proof.
  intros Hagain. unfold pusher_PushPoints in *.
  rewrite loop_passthrough; [rewrite Hagain; reflexivity|].
  apply Forall_forall. intros [q cl] Hq. cbn [fst].
  rewrite loop_evaluated.
  assert (Hin : q ∈ snd (PushPoints_loop r [] points)).
  { rewrite <- Hagain. apply list_elem_of_fmap. exists (q, cl). auto. }
  destruct (loop_origin _ _ _ Hin) as [[_ Hne]|(p & _ & _ & [Hset _] & _)]; [exact Hne|].
  unfold evaluated. rewrite Hset. reflexivity.
Qed.

Lemma addPoint_states r result point threshold key t c k :
  k <> key ->
  states (fst (addPoint' r result point threshold key t c)) !! k = states r !! k.
Proof.
  intros Hne. unfold pusher_addPointWithThreshold.
  destruct (Threshold_CurrentStatus threshold (Value (MPoint point))).
  cbn [fst states]. apply lookup_insert_ne. congruence.
Qed.

Lemma addPoint_configuration r result point threshold key t c :
  let r' := fst (addPoint' r result point threshold key t c) in
  state r' = state r /\ units r' = units r
  /\ thresholds r' = thresholds r /\ thresholdsAllItem r' = thresholdsAllItem r
  /\ softPeriods r' = softPeriods r /\ defaultSoftPeriod r' = defaultSoftPeriod r.
Proof.
  cbv zeta. unfold pusher_addPointWithThreshold.
  destruct (Threshold_CurrentStatus threshold (Value (MPoint point))).
  cbn. auto 10.
Qed.

(** X11: [PushPoints] only writes the soft states of the keys of the points
    it evaluates: the state of every other key is left as it was, and so are
    the store, the units, the thresholds and the soft periods. *)
Theorem PushPoints_touches_evaluated_keys (r : Registry S)
    (points : list (MetricPoint * (Time * Time))) :
  let r' := fst (PushPoints r points) in
  (forall k,
     k ∉ keyOfPoint <$> filter (fun p => evaluated r p = true) points.*1 ->
     states r' !! k = states r !! k)
  /\ state r' = state r /\ units r' = units r
  /\ thresholds r' = thresholds r /\ thresholdsAllItem r' = thresholdsAllItem r
  /\ softPeriods r' = softPeriods r /\ defaultSoftPeriod r' = defaultSoftPeriod r.
Proof.
  cbv zeta. unfold pusher_PushPoints. revert r.
  induction points as [|[point [t c]] rest IH]; intros r.
  - cbn. auto 10.
  - rewrite loop_cons. cbn [fmap list_fmap fst].
    destruct (evaluated r point) eqn:Hev; cbv zeta; cbn [fst].
    + set (a := addPoint' r [] point _ _ t c).
      destruct (IH (fst a)) as (Hst & H1 & H2 & H3 & H4 & H5 & H6).
      destruct (addPoint_configuration r [] point
                  (Registry_getThreshold r (keyOfPoint point)) (keyOfPoint point) t c)
        as (G1 & G2 & G3 & G4 & G5 & G6).
      fold a in G1, G2, G3, G4, G5, G6.
      split; [|rewrite H1, H2, H3, H4, H5, H6; auto 10].
      intros k Hk. rewrite filter_cons, Hev in Hk. 
      rewrite decide_True in Hk by reflexivity.
      cbn [fmap list_fmap] in Hk. apply not_elem_of_cons in Hk as [Hne Hk].
      rewrite Hst.
      * apply addPoint_states. exact Hne.
      * intros Hin. apply Hk.
        apply list_elem_of_fmap in Hin as (p & -> & Hp).
        apply list_elem_of_fmap. exists p. split; [reflexivity|].
        apply list_elem_of_filter in Hp as [Hp Hin].
        apply list_elem_of_filter. split; [|exact Hin].
        subst a. rewrite evaluated_addPoint in Hp. exact Hp.
    + destruct (IH r) as (Hst & Hconf).
      split; [|exact Hconf].
      intros k Hk. rewrite filter_cons, Hev in Hk.
      rewrite decide_False in Hk by discriminate. apply Hst, Hk.
Qed.

End PushPointsFacts.

Section PushPointsSamples.
Import GoTime Types Threshold.

(** A registry without thresholds hands a point of [cpu_used] over as it
    is. *)
Lemma PushPoints_passthrough_witness :
  let t0 := 63713433600 * Second in
  let r := New (∅ : memState) in
  let point := samplePoint t0 (float64 95 0) in
  pusher_PushPoints plainValue plainDuration
    NagiosCode r [(point, (t0, t0))]
  = (r, [point]).
Proof.
  cbv zeta.
  apply (PushPoints_passthrough plainValue plainDuration
           NagiosCode (New (∅ : memState))
           [(samplePoint (63713433600 * Second) (float64 95 0),
             (63713433600 * Second, 63713433600 * Second))]).
  repeat constructor.
Defined.

(** The companion of a point of [cpu_used] pushed to a registry configured
    with the sample threshold. *)
Lemma PushPoints_output_witness :
  let t0 := 63713433600 * Second in
  let r :=
    Registry_SetThresholds (New (∅ : memState)) ∅
      {[ "cpu_used" := sampleThreshold ]} in
  let points := [(samplePoint t0 (float64 95 0), (t0, t0))] in
  let q :=
    nth 1 (snd (pusher_PushPoints plainValue plainDuration
                  NagiosCode r points))
      (samplePoint t0 NaN) in
  (q ∈ points.*1 /\ evaluated r q = false)
  \/ (exists p, p ∈ points.*1 /\ evaluated r p = true
        /\ annotated q
        /\ (payload q = payload p \/ companionOf p q)).
Proof.
  cbv zeta.
  apply (PushPoints_output plainValue plainDuration
           NagiosCode).
  vm_compute. repeat constructor.
Defined.

(** Pushing again what came out for a point of [cpu_used] changes nothing. *)
Lemma PushPoints_idempotent_witness :
  let t0 := 63713433600 * Second in
  let r :=
    Registry_SetThresholds (New (∅ : memState)) ∅
      {[ "cpu_used" := sampleThreshold ]} in
  let points := [(samplePoint t0 (float64 95 0), (t0, t0))] in
  let first :=
    pusher_PushPoints plainValue plainDuration
      NagiosCode r points in
  pusher_PushPoints plainValue plainDuration
    NagiosCode (fst first) ((fun q => (q, (t0, t0))) <$> snd first)
  = (fst first, snd first).
Proof.
  cbv zeta.
  apply (PushPoints_idempotent plainValue plainDuration
           NagiosCode).
  vm_compute. reflexivity.
Defined.

End PushPointsSamples.

(** ** The discovery, refresh after refresh *)

Section RefreshFacts.
Import GoTime Discovery.




Lemma carryOver_netstat previous s :
  hasNetstatInfo previous = true -> hasNetstatInfo (carryOver previous s) = true.
Proof.
  intros Hp. unfold carryOver. rewrite Hp. cbn [andb].
  destruct (hasNetstatInfo s) eqn:Hs; cbn [negb]; [exact Hs|reflexivity].
Qed.

Lemma observe_all_netstat (r : list Service) : forall (m : gmap nameContainer Service) key,
  (exists s, m !! key = Some s /\ hasNetstatInfo s = true) ->
  exists s, fold_left updateDiscovery_observe r m !! key = Some s
            /\ hasNetstatInfo s = true.
Proof.
  induction r as [|s' r IH]; intros m key Hm; [exact Hm|].
  cbn [fold_left]. apply IH. destruct Hm as (s & Hs & Hflag).
  destruct (decide (keyOf s' = key)) as [<-|Hne].
  - rewrite observe_same, Hs. eexists. split; [reflexivity|].
    apply carryOver_netstat, Hflag.
  - rewrite observe_other by exact Hne. eauto.
Qed.

(** X13: the netstat information of a service is never lost by a refresh: a
    key whose service has [hasNetstatInfo] set before a refresh that succeeds
    has a service with [hasNetstatInfo] set after it, whatever the dynamic
    discoverer returned and however many times it returned the key. *)
Theorem refresh_never_loses_netstat (servicesMap : gmap nameContainer Service)
    (r : list Service) (key : nameContainer) (previous : Service) :
  servicesMap !! key = Some previous ->
  hasNetstatInfo previous = true ->
  exists s,
    fst (Discovery_updateDiscovery servicesMap (inl r)) !! key = Some s
    /\ hasNetstatInfo s = true.
Proof.
  intros Hprev Hflag. unfold Discovery_updateDiscovery. cbn [fst].
  apply observe_all_netstat. exists (deactivate previous).
  rewrite lookup_fmap, Hprev. split; [reflexivity|exact Hflag].
Qed.

Lemma Remove_loop (services : list Service) :
  forall (m : gmap nameContainer Service) (deleted : bool),
    let result := fold_left RemoveIfNonRunning_step services (m, deleted) in
    (forall key,
       result.1 !! key = if bool_decide (key ∈ keyOf <$> services) then None else m !! key)
    /\ (result.2 = true <->
        deleted = true \/ exists v, v ∈ services /\ is_Some (m !! keyOf v)).
Proof.
  induction services as [|v services IH]; intros m deleted; cbv zeta.
  - cbn. split; [reflexivity|].
    split; [auto|]. intros [Hd|(v & Hv & _)]; [exact Hd|].
    apply elem_of_nil in Hv. contradiction.
  - cbn [fold_left]. unfold RemoveIfNonRunning_step at 2. cbn [fst snd].
    destruct (IH (delete (keyOf v) m)
                 (match m !! keyOf v with Some _ => true | None => deleted end))
      as [Hmap Hflag].
    split.
    + intros key. rewrite Hmap, fmap_cons.
      destruct (decide (key = keyOf v)) as [->|Hne].
      * rewrite lookup_delete_eq.
        rewrite (bool_decide_eq_true_2 (keyOf v ∈ keyOf v :: _));
          [|apply elem_of_cons; auto].
        destruct (bool_decide _); reflexivity.
      * rewrite lookup_delete_ne by congruence.
        destruct (bool_decide (key ∈ keyOf <$> services)) eqn:E.
        -- apply bool_decide_eq_true_1 in E.
           rewrite bool_decide_eq_true_2; [reflexivity|].
           apply elem_of_cons. auto.
        -- apply bool_decide_eq_false_1 in E.
           rewrite bool_decide_eq_false_2; [reflexivity|].
           rewrite elem_of_cons. tauto.
    + rewrite Hflag. split.
      * intros [Hd|(w & Hw & Hsome)].
        -- destruct (m !! keyOf v) eqn:Ev; [|auto].
           right. exists v. split; [left|]. rewrite Ev. eauto.
        -- right. exists w. split; [right; exact Hw|].
           destruct Hsome as [x Hx]. apply lookup_delete_Some in Hx as [_ Hx]. eauto.
      * intros [Hd|(w & Hw & Hsome)].
        -- left. rewrite Hd. destruct (m !! keyOf v); reflexivity.
        -- apply elem_of_cons in Hw as [->|Hw].
           ++ left. destruct Hsome as [x ->]. reflexivity.
           ++ destruct (decide (keyOf w = keyOf v)) as [Heq|Hne].
              ** left. rewrite <- Heq. destruct Hsome as [x ->]. reflexivity.
              ** right. exists w. split; [exact Hw|].
                 destruct Hsome as [x Hx]. exists x.
                 apply lookup_delete_Some. split; [congruence|exact Hx].
Qed.

(** X14: [RemoveIfNonRunning] forgets the services it is given unless they
    run.  When none of them is known, nothing changes.  When one of them is
    known, time has passed since the last update and the dynamic discoverer
    returns [r], one service per key, then a service given is known
    afterwards exactly when the discoverer returned its key, and it is then
    the service as the discoverer returned it, without anything carried over
    from the entry removed.  When the dynamic discoverer fails, the services
    given stay removed. *)
Theorem RemoveIfNonRunning_keeps_running (d : Discovery) (services r : list Service)
    (now clock : Time) (err : string) :
  ((forall v, v ∈ services -> servicesMap d !! keyOf v = None) ->
     forall dynamic,
       servicesMap (Discovery_RemoveIfNonRunning d services now clock dynamic)
       = servicesMap d)
  /\ ((exists v, v ∈ services /\ is_Some (servicesMap d !! keyOf v)) ->
      (forall v, v ∈ services ->
         servicesMap (Discovery_RemoveIfNonRunning d services now clock (inr err))
           !! keyOf v = None)
      /\ (lastDiscoveryUpdate d < now -> NoDup (keyOf <$> r) ->
          forall v, v ∈ services ->
            (keyOf v ∉ keyOf <$> r ->
               servicesMap (Discovery_RemoveIfNonRunning d services now clock (inl r))
                 !! keyOf v = None)
            /\ (forall s, s ∈ r -> keyOf s = keyOf v ->
                  servicesMap (Discovery_RemoveIfNonRunning d services now clock (inl r))
                    !! keyOf v = Some s))).
Proof.
  unfold Discovery_RemoveIfNonRunning.
  destruct (Remove_loop services (servicesMap d) false) as [Hmap Hflag].
  destruct (fold_left RemoveIfNonRunning_step services (servicesMap d, false))
    as [remaining deleted].
  cbn [fst snd] in Hmap, Hflag.
  assert (Hgone : forall v, v ∈ services -> remaining !! keyOf v = None).
  { intros v Hv. rewrite Hmap, bool_decide_eq_true_2; [reflexivity|].
    apply list_elem_of_fmap_2, Hv. }
  split.
  - intros Hnone dynamic.
    assert (Hd : deleted = false).
    { destruct deleted; [|reflexivity].
      destruct (proj1 Hflag eq_refl) as [Hd|(v & Hv & Hsome)]; [discriminate|].
      rewrite (Hnone v Hv) in Hsome. destruct Hsome as [x Hx]. discriminate. }
    rewrite Hd. cbn [servicesMap]. apply map_eq. intros key. rewrite Hmap.
    destruct (bool_decide (key ∈ keyOf <$> services)) eqn:E; [|reflexivity].
    apply bool_decide_eq_true_1 in E.
    apply list_elem_of_fmap in E as (v & -> & Hv). symmetry. apply Hnone, Hv.
  - intros Hknown.
    assert (Hd : deleted = true) by (apply Hflag; right; exact Hknown).
    rewrite Hd. unfold Discovery_discovery. cbn [servicesMap lastDiscoveryUpdate].
    split.
    + intros v Hv. cbn [Discovery_updateDiscovery].
      destruct (0 <? Sub now (lastDiscoveryUpdate d)); cbn [fst servicesMap];
        apply Hgone, Hv.
    + intros Hlater Hnodup v Hv.
      assert (Hsince : (0 <? Sub now (lastDiscoveryUpdate d)) = true).
      { unfold Sub, maxDuration, minDuration.
        destruct (Z.ltb_spec (2 ^ 63 - 1) (now - lastDiscoveryUpdate d));
          [reflexivity|].
        destruct (Z.ltb_spec (now - lastDiscoveryUpdate d) (- 2 ^ 63)); [lia|].
        apply Z.ltb_lt. lia. }
      rewrite Hsince. cbn [Discovery_updateDiscovery fst servicesMap]. split.
      * intros Hnotin. rewrite observe_all_other by exact Hnotin.
        rewrite lookup_fmap, (Hgone v Hv). reflexivity.
      * intros s Hs Hkey. rewrite <- Hkey.
        rewrite (observe_all_once r _ s Hnodup Hs), lookup_fmap.
        rewrite Hkey, (Hgone v Hv). reflexivity.
Qed.

End RefreshFacts.

(** Memcached keeps its netstat information when the dynamic discoverer
    returns it twice without its socket. *)
Lemma refresh_never_loses_netstat_witness :
  exists s,
    fst (Discovery.Discovery_updateDiscovery
           {[ Discovery.keyOf Discovery.memcachedSeen := Discovery.memcachedSeen ]}
           (inl [Discovery.memcachedBlind; Discovery.memcachedBlind]))
      !! Discovery.keyOf Discovery.memcachedSeen = Some s
    /\ Discovery.hasNetstatInfo s = true.
Proof.
  apply (refresh_never_loses_netstat _ _ _ Discovery.memcachedSeen); reflexivity.
Defined.

(** ** The pushed points of the metric registry, call after call *)

Section PushedPointInvariant.
Import GoTime Types PromRegistry.
Variable LabelsToText : gmap string string -> string.

Lemma store_consistent deadline maps point :
  consistentMaps LabelsToText maps ->
  consistentMaps LabelsToText (store LabelsToText deadline maps point).
Proof.
  intros [Hkeys Htext]. unfold store. split; cbn [fst snd].
  - intros key. destruct (decide (LabelsToText (Labels point) = key)) as [<-|Hne].
    + rewrite !lookup_insert_eq. split; eauto.
    + rewrite !lookup_insert_ne by exact Hne. apply Hkeys.
  - intros key p. destruct (decide (LabelsToText (Labels point) = key)) as [<-|Hne].
    + rewrite lookup_insert_eq. intros [= <-]. reflexivity.
    + rewrite lookup_insert_ne by exact Hne. apply Htext.
Qed.

Lemma storeAll_consistent deadline points : forall maps,
  consistentMaps LabelsToText maps ->
  consistentMaps LabelsToText (fold_left (store LabelsToText deadline) points maps).
Proof.
  induction points as [|p points IH]; intros maps Hm; [exact Hm|].
  cbn [fold_left]. apply IH, store_consistent, Hm.
Qed.

Lemma pushPoint_consistent r points ttl now :
  consistent LabelsToText r ->
  consistent LabelsToText (fst (Registry_pushPoint LabelsToText r points ttl now)).
Proof.
  intros Hr. unfold Registry_pushPoint.
  pose proof (storeAll_consistent (Add now ttl) points
                (pushedPoints r, pushedPointsExpiration r) Hr) as [Hkeys Htext].
  set (maps := fold_left _ points _) in *.
  cbn [fst]. destruct (pushedPointsCleanupInterval <? _); [|split; assumption].
  split; cbn [pushedPoints pushedPointsExpiration].
  - intros key. split.
    + intros [p Hp]. apply map_lookup_filter_Some in Hp as [Hp Hkeep].
      cbn [fst] in Hkeep.
      destruct (proj1 (Hkeys key) (mk_is_Some _ _ Hp)) as [e He].
      exists e. apply map_lookup_filter_Some. split; [exact He|].
      rewrite He in Hkeep. exact Hkeep.
    + intros [e He]. apply map_lookup_filter_Some in He as [He Hkeep].
      cbn [snd] in Hkeep.
      destruct (proj2 (Hkeys key) (mk_is_Some _ _ He)) as [p Hp].
      exists p. apply map_lookup_filter_Some. split; [exact Hp|].
      cbn [fst]. rewrite He. exact Hkeep.
  - intros key p Hp. apply map_lookup_filter_Some in Hp as [Hp _].
    apply (Htext key p Hp).
Qed.

Lemma Collect_consistent r now :
  consistent LabelsToText r -> consistent LabelsToText (fst (pushCollector_Collect r now)).
Proof.
  intros [Hkeys Htext]. unfold pushCollector_Collect. cbn [fst].
  split; cbn [pushedPoints pushedPointsExpiration].
  - intros key. split.
    + intros [p Hp]. apply map_lookup_filter_Some in Hp as [Hp Hkeep].
      cbn [fst] in Hkeep.
      destruct (proj1 (Hkeys key) (mk_is_Some _ _ Hp)) as [e He].
      exists e. apply map_lookup_filter_Some. split; [exact He|].
      cbn [fst snd]. intros [_ Hexp].
      unfold expirationOf in Hkeep. rewrite He in Hkeep. cbn in Hkeep. congruence.
    + intros [e He]. apply map_lookup_filter_Some in He as [He Hkeep].
      cbn [fst snd] in Hkeep.
      destruct (proj2 (Hkeys key) (mk_is_Some _ _ He)) as [p Hp].
      exists p. apply map_lookup_filter_Some. split; [exact Hp|].
      cbn [fst]. unfold expirationOf. rewrite He. cbn.
      destruct (After now e) eqn:E; [|reflexivity].
      exfalso. apply Hkeep. split; [eauto|reflexivity].
  - intros key p Hp. apply map_lookup_filter_Some in Hp as [Hp _].
    apply (Htext key p Hp).
Qed.

(** X15: in a registry that held no pushed point at first, after any
    sequence of pushes and of [Gather]s, whatever their clocks and their
    time-to-live, the map of pushed points and the map of their expirations
    hold the same keys, and every point is held under the text of its
    labels: no point is without a deadline, and no deadline without a
    point. *)
Theorem pushed_points_have_deadlines (r : Registry) (calls : list call) :
  pushedPoints r = ∅ ->
  pushedPointsExpiration r = ∅ ->
  let r' := performAll LabelsToText r calls in
  (forall key, is_Some (pushedPoints r' !! key)
               <-> is_Some (pushedPointsExpiration r' !! key))
  /\ (forall key p, pushedPoints r' !! key = Some p -> key = LabelsToText (Labels p)).
Proof.
  intros Hp He. cbv zeta.
  assert (Hr : consistent LabelsToText r).
  { split.
    - intros key. rewrite Hp, He, !lookup_empty. split; intros [x Hx]; discriminate.
    - intros key p. rewrite Hp, lookup_empty. discriminate. }
  clear Hp He. unfold performAll. revert r Hr.
  induction calls as [|c calls IH]; intros r Hr; [exact Hr|].
  cbn [fold_left]. apply IH. destruct c as [points ttl now|now]; cbn [perform].
  - apply pushPoint_consistent, Hr.
  - apply Collect_consistent, Hr.
Qed.

End PushedPointInvariant.

Section PushThenGather.
Import GoTime Types PromRegistry.
Variable LabelsToText : gmap string string -> string.



End PushThenGather.


(** A registry that pushes, gathers and pushes again. *)
Lemma pushed_points_have_deadlines_witness :
  let t0 := 63713433600 * GoTime.Second in
  let p := Threshold.samplePoint t0 (Threshold.float64 95 0) in
  let r' :=
    PromRegistry.performAll PromRegistry.labelsText PromRegistry.noPoints
      [PromRegistry.callPush [p] (5 * GoTime.Minute) t0;
       PromRegistry.callGather (t0 + 6 * GoTime.Minute);
       PromRegistry.callPush [p] (5 * GoTime.Minute) (t0 + 7 * GoTime.Minute)] in
  (forall key, is_Some (PromRegistry.pushedPoints r' !! key)
               <-> is_Some (PromRegistry.pushedPointsExpiration r' !! key))
  /\ (forall key q, PromRegistry.pushedPoints r' !! key = Some q ->
        key = PromRegistry.labelsText (Types.Labels q)).
Proof.
  cbv zeta.
  apply (pushed_points_have_deadlines PromRegistry.labelsText PromRegistry.noPoints);
    reflexivity.
Defined.

(** ** The collectors of the metric registry *)

Section CollectorFacts.
Import PromRegistry.
Context {Collector : Type} `{EqDecision Collector}.

Lemma existsb_eq (collectors : list Collector) collector :
  existsb (fun c => bool_decide (c = collector)) collectors = true
  <-> collector ∈ collectors.
Proof.
  rewrite existsb_exists. split.
  - intros (c & Hc & Heq). apply bool_decide_eq_true_1 in Heq. subst c.
    apply list_elem_of_In, Hc.
  - intros Hin. exists collector. split; [apply list_elem_of_In, Hin|].
    apply bool_decide_eq_true_2. reflexivity.
Qed.

Lemma indexOf_None (collectors : list Collector) collector :
  indexOf collectors collector = None <-> collector ∉ collectors.
Proof.
  induction collectors as [|c rest IH]; cbn [indexOf].
  - split; [intros _; apply not_elem_of_nil|reflexivity].
  - rewrite not_elem_of_cons. destruct (bool_decide_reflect (c = collector)) as [->|Hne].
    + split; [discriminate|]. intros [Hc _]. contradiction.
    + rewrite fmap_None, IH. split; [intros Hr; split; [congruence|exact Hr]|tauto].
Qed.

Lemma indexOf_Some (collectors : list Collector) collector i :
  indexOf collectors collector = Some i ->
  exists pre post,
    collectors = pre ++ collector :: post /\ (collector ∉ pre) /\ i = length pre.
Proof.
  revert i. induction collectors as [|c rest IH]; intros i; cbn [indexOf]; [discriminate|].
  destruct (bool_decide_reflect (c = collector)) as [->|Hne].
  - intros [= <-]. exists [], rest. repeat split. apply not_elem_of_nil.
  - intros Hi. apply fmap_Some in Hi as (j & Hj & ->).
    destruct (IH j Hj) as (pre & post & -> & Hpre & ->).
    exists (c :: pre), post. repeat split.
    apply not_elem_of_cons. split; [congruence|exact Hpre].
Qed.

(** What [Unregister] leaves when it finds the collector. *)
Lemma Unregister_found (pre post : list Collector) collector :
  collector ∉ pre ->
  exists kept,
    Registry_Unregister (pre ++ collector :: post) collector = (kept, true)
    /\ kept ≡ₚ pre ++ post.
Proof.
  intros Hpre. unfold Registry_Unregister.
  assert (Hi : indexOf (pre ++ collector :: post) collector = Some (length pre)).
  { clear -Hpre. induction pre as [|c pre IH]; cbn [indexOf app].
    - rewrite bool_decide_eq_true_2 by reflexivity. reflexivity.
    - apply not_elem_of_cons in Hpre as [Hne Hpre].
      rewrite bool_decide_eq_false_2 by congruence.
      rewrite (IH Hpre). reflexivity. }
  rewrite Hi.
  destruct post as [|x post _] using rev_ind.
  - exists pre. rewrite last_snoc, list_insert_id.
    + rewrite length_app. cbn [length].
      replace (length pre + 1 - 1)%nat with (length pre) by lia.
      rewrite take_app_length, app_nil_r. auto.
    + apply list_lookup_middle. reflexivity.
  - exists (pre ++ x :: post).
    replace (pre ++ collector :: post ++ [x]) with ((pre ++ collector :: post) ++ [x])
      by (rewrite <- app_assoc; reflexivity).
    rewrite last_snoc. rewrite length_app. cbn [length].
    replace (length (pre ++ collector :: post) + 1 - 1)%nat
      with (length (pre ++ collector :: post)) by lia.
    rewrite insert_app_l by (rewrite length_app; cbn [length]; lia).
    rewrite <- (length_insert (pre ++ collector :: post) (length pre) x) at 1.
    rewrite take_app_length.
    rewrite insert_app_r_alt by lia. rewrite Nat.sub_diag. cbn [insert list_insert].
    split; [reflexivity|].
    rewrite (Permutation_app_comm post [x]). cbn [app].
    apply Permutation_app_head. reflexivity.
Qed.

(** X17: [Register] refuses a collector that is registered already and adds
    any other at the end, so that a list of collectors without duplicates
    stays without duplicates; a collector just registered is unregistered
    with the list back as it was. *)
Theorem Register_once (collectors : list Collector) (collector : Collector) :
  NoDup collectors ->
  let '(collectors', err) := Registry_Register collectors collector in
  NoDup collectors'
  /\ (err = true <-> collector ∈ collectors)
  /\ (err = true -> collectors' = collectors)
  /\ (err = false ->
      collectors' = collectors ++ [collector]
      /\ Registry_Unregister collectors' collector = (collectors, true)).
Proof.
  intros Hnodup. unfold Registry_Register.
  destruct (existsb _ collectors) eqn:E.
  - apply existsb_eq in E. repeat split; auto; discriminate.
  - assert (Hnotin : collector ∉ collectors).
    { intros Hin. apply existsb_eq in Hin. congruence. }
    split; [|split; [|split]].
    + apply NoDup_app. repeat split; [exact Hnodup| |apply NoDup_singleton].
      intros x Hx Hx'. apply list_elem_of_singleton in Hx'. subst x. contradiction.
    + split; [discriminate|contradiction].
    + discriminate.
    + intros _. split; [reflexivity|].
      unfold Registry_Unregister.
      assert (Hi : indexOf (collectors ++ [collector]) collector
                   = Some (length collectors)).
      { clear -Hnotin. induction collectors as [|c l IH]; cbn [indexOf app].
        - rewrite bool_decide_eq_true_2 by reflexivity. reflexivity.
        - apply not_elem_of_cons in Hnotin as [Hne Hl].
          rewrite bool_decide_eq_false_2 by congruence.
          rewrite (IH Hl). reflexivity. }
      rewrite Hi, last_snoc, list_insert_id
        by (apply list_lookup_middle; reflexivity).
      rewrite length_app. cbn [length].
      replace (length collectors + 1 - 1)%nat with (length collectors) by lia.
      rewrite take_app_length. reflexivity.
Qed.

(** X18: on a list of collectors without duplicates, [Unregister] answers
    whether the collector was registered, changes nothing when it was not,
    and otherwise removes it and nothing else (the order of the others may
    change): the list stays without duplicates and holds the collectors it
    held but the one removed. *)
Theorem Unregister_removes (collectors : list Collector) (collector : Collector) :
  NoDup collectors ->
  let '(collectors', found) := Registry_Unregister collectors collector in
  (found = true <-> collector ∈ collectors)
  /\ (found = false -> collectors' = collectors)
  /\ NoDup collectors'
  /\ (forall c, c ∈ collectors' <-> c ∈ collectors /\ c <> collector).
Proof.
  intros Hnodup.
  destruct (indexOf collectors collector) as [i|] eqn:Hi.
  - destruct (indexOf_Some _ _ _ Hi) as (pre & post & -> & Hpre & ->).
    destruct (Unregister_found pre post collector Hpre) as (kept & -> & Hperm).
    apply NoDup_app in Hnodup as (Hnpre & Hdisj & Hnpost).
    apply NoDup_cons in Hnpost as [Hpost Hnpost].
    split; [|split; [|split]].
    + split; [|reflexivity]. intros _. apply elem_of_app. right. left.
    + discriminate.
    + rewrite Hperm. apply NoDup_app. repeat split; try assumption.
      intros x Hx Hx'. apply (Hdisj x Hx). right. exact Hx'.
    + intros c. rewrite Hperm, !elem_of_app, elem_of_cons. split.
      * intros [Hc|Hc]; (split; [tauto|]); intros ->; contradiction.
      * intros [[Hc|[Hc|Hc]] Hne]; [auto|contradiction|auto].
  - unfold Registry_Unregister. rewrite Hi.
    apply indexOf_None in Hi.
    split; [|split; [|split]]; auto.
    + split; [discriminate|contradiction].
    + intros c. split; [|tauto]. intros Hc. split; [exact Hc|].
      intros ->. contradiction.
Qed.

End CollectorFacts.

(** Three collectors, named by numbers: the second one is registered again,
    a fourth one is registered, and the first one is unregistered. *)
Lemma Register_once_witness :
  let '(collectors', err) := PromRegistry.Registry_Register [1; 2; 3] 4 in
  NoDup collectors'
  /\ (err = true <-> 4 ∈ [1; 2; 3])
  /\ (err = true -> collectors' = [1; 2; 3])
  /\ (err = false ->
      collectors' = [1; 2; 3] ++ [4]
      /\ PromRegistry.Registry_Unregister collectors' 4 = ([1; 2; 3], true)).
Proof.
  apply (Register_once [1; 2; 3] 4). compute_done.
Defined.

Lemma Unregister_removes_witness :
  let '(collectors', found) := PromRegistry.Registry_Unregister [1; 2; 3] 1 in
  (found = true <-> 1 ∈ [1; 2; 3])
  /\ (found = false -> collectors' = [1; 2; 3])
  /\ NoDup collectors'
  /\ (forall c, c ∈ collectors' <-> c ∈ [1; 2; 3] /\ c <> 1).
Proof.
  apply (Unregister_removes [1; 2; 3] 1). compute_done.
Defined.

(** ** The labels of a labeled gatherer *)

Section MergeLabelsFacts.
Import Gatherer.

Lemma compare_lt_trans s1 : forall s2 s3,
  String.compare s1 s2 = Lt -> String.compare s2 s3 = Lt -> String.compare s1 s3 = Lt.
Proof.
  induction s1 as [|a1 s1 IH]; intros [|a2 s2] [|a3 s3] H12 H23;
    cbn [String.compare] in *; try discriminate; try reflexivity.
  destruct (Ascii.compare a1 a2) eqn:Ha12; try discriminate.
  - apply Ascii.compare_eq_iff in Ha12 as ->.
    destruct (Ascii.compare a2 a3); [eauto|reflexivity|discriminate].
  - destruct (Ascii.compare a2 a3) eqn:Ha23; try discriminate.
    + apply Ascii.compare_eq_iff in Ha23 as ->. rewrite Ha12. reflexivity.
    + assert (Ascii.compare a1 a3 = Lt) as ->; [|reflexivity].
      unfold Ascii.compare in *. apply N.compare_lt_iff.
      apply N.compare_lt_iff in Ha12. apply N.compare_lt_iff in Ha23.
      exact (N.lt_trans _ _ _ Ha12 Ha23).
Qed.

Lemma ltb_trans a b c :
  String.ltb a b = true -> String.ltb b c = true -> String.ltb a c = true.
Proof.
  unfold String.ltb. intros Hab Hbc.
  destruct (String.compare a b) eqn:Eab; try discriminate.
  destruct (String.compare b c) eqn:Ebc; try discriminate.
  rewrite (compare_lt_trans a b c Eab Ebc). reflexivity.
Qed.

Lemma ltb_irrefl a : String.ltb a a = false.
Proof.
  unfold String.ltb. pose proof (String.compare_antisym a a) as Hanti.
  destruct (String.compare a a); try reflexivity; discriminate.
Qed.

Lemma ltb_total a b :
  String.ltb a b = false -> String.eqb a b = false -> String.ltb b a = true.
Proof.
  unfold String.ltb. rewrite (String.compare_antisym a b).
  intros Hlt Hne. destruct (String.compare b a) eqn:E; cbn in *; try discriminate.
  - apply String.compare_eq_iff in E. subst b. rewrite String.eqb_refl in Hne.
    discriminate.
  - reflexivity.
Qed.

Lemma ltb_ne a b : String.ltb a b = true -> a <> b.
Proof. intros Hlt ->. rewrite ltb_irrefl in Hlt. discriminate. Qed.

Lemma merge_loop_result b : forall a result,
  mergeLabels_loop a b result = result ++ mergeLabels_loop a b [].
Proof.
  induction b as [|bLabel rest IH]; intros a result; cbn [mergeLabels_loop].
  - reflexivity.
  - destruct (mergeLabels_below a (LName bLabel)) as [moved remaining].
    rewrite (IH _ ((result ++ moved) ++ [bLabel])), (IH _ (([] ++ moved) ++ [bLabel])).
    cbn [app]. rewrite <- !app_assoc. reflexivity.
Qed.

Lemma merge_nil a : mergeLabels a [] = a.
Proof. reflexivity. Qed.

(** One turn of the outer loop. *)
Lemma merge_cons a bLabel rest :
  mergeLabels a (bLabel :: rest)
  = (mergeLabels_below a (LName bLabel)).1
    ++ bLabel
    :: mergeLabels
         (mergeLabels_skip (mergeLabels_below a (LName bLabel)).2 (LName bLabel)) rest.
Proof.
  unfold mergeLabels. cbn [mergeLabels_loop].
  destruct (mergeLabels_below a (LName bLabel)) as [moved remaining].
  rewrite merge_loop_result. cbn [app fst snd]. rewrite <- app_assoc. reflexivity.
Qed.

Lemma below_split a name :
  a = (mergeLabels_below a name).1 ++ (mergeLabels_below a name).2
  /\ Forall (fun l => String.ltb (LName l) name = true) (mergeLabels_below a name).1
  /\ match (mergeLabels_below a name).2 with
     | [] => True
     | l :: _ => String.ltb (LName l) name = false
     end.
Proof.
  induction a as [|l a IH]; cbn [mergeLabels_below].
  - cbn. auto.
  - destruct (String.ltb (LName l) name) eqn:E.
    + destruct (mergeLabels_below a name) as [moved remaining].
      cbn [fst snd] in *. destruct IH as (-> & Hmoved & Hrem).
      repeat split; auto.
    + cbn. rewrite E. auto.
Qed.

Lemma skip_cases remaining name :
  mergeLabels_skip remaining name = remaining
  /\ match remaining with
     | [] => True
     | l :: _ => String.eqb (LName l) name = false
     end
  \/ exists l, remaining = l :: mergeLabels_skip remaining name /\ LName l = name.
Proof.
  destruct remaining as [|l rest]; cbn [mergeLabels_skip]; [auto|].
  destruct (String.eqb_spec (LName l) name) as [Heq|Hne]; [right; eauto|left; auto].
Qed.

(** The labels of [b] are all in the merge, in their order, whatever [a]
    is. *)
Lemma merge_sublist b : forall a, sublist b (mergeLabels a b).
Proof.
  induction b as [|bLabel rest IH]; intros a.
  - apply sublist_nil_l.
  - rewrite merge_cons. apply sublist_inserts_l, sublist_skip, IH.
Qed.

Lemma merge_elem_of b : forall a l,
  l ∈ mergeLabels a b -> l ∈ a \/ l ∈ b.
Proof.
  induction b as [|bLabel rest IH]; intros a l.
  - rewrite merge_nil. auto.
  - rewrite merge_cons.
    destruct (below_split a (LName bLabel)) as (Ha & _ & _).
    destruct (mergeLabels_below a (LName bLabel)) as [moved remaining].
    cbn [fst snd] in *. rewrite elem_of_app, !elem_of_cons.
    intros [Hl|[->|Hl]]; subst a.
    + left. apply elem_of_app. auto.
    + auto.
    + destruct (IH _ _ Hl) as [Hin|Hin]; [|auto].
      left. apply elem_of_app. right.
      destruct (skip_cases remaining (LName bLabel)) as [[Hsame _]|(x & Hx & _)].
      * rewrite <- Hsame. exact Hin.
      * rewrite Hx. right. exact Hin.
Qed.

(** The merge of two sorted lists of labels. *)
Lemma merge_sorted b : forall a,
  sortedLabels a -> sortedLabels b ->
  sortedLabels (mergeLabels a b)
  /\ forall l, l ∈ mergeLabels a b <-> l ∈ b \/ (l ∈ a /\ LName l ∉ LName <$> b).
Proof.
  unfold sortedLabels.
  induction b as [|bLabel rest IH]; intros a Sa Sb.
  - rewrite merge_nil. split; [exact Sa|].
    intros l. cbn. rewrite elem_of_nil. split; [intros Hl|tauto].
    right. split; [exact Hl|apply not_elem_of_nil].
  - rewrite merge_cons.
    destruct (below_split a (LName bLabel)) as (Ha & Hmoved & Hrem).
    destruct (mergeLabels_below a (LName bLabel)) as [moved remaining].
    cbn [fst snd] in *. subst a.
    apply StronglySorted_app in Sa as (Hcross & Smoved & Srem).
    apply StronglySorted_cons in Sb as (Hb & Srest).
    rewrite Forall_forall in Hmoved, Hb.
    set (a2 := mergeLabels_skip remaining (LName bLabel)).
    (* what is left of [a] is above [bLabel] *)
    assert (Ha2 : StronglySorted (fun x y => String.ltb (LName x) (LName y) = true) a2
                  /\ (forall x, x ∈ a2 -> String.ltb (LName bLabel) (LName x) = true)
                  /\ (forall x, x ∈ a2 -> x ∈ remaining)
                  /\ (forall x, x ∈ remaining -> x ∈ a2 \/ LName x = LName bLabel)).
    { subst a2.
      destruct (skip_cases remaining (LName bLabel)) as [[-> Hne]|(x & Hx & Hname)].
      - split; [exact Srem|]. split; [|auto].
        destruct remaining as [|x rem]; [intros y Hy; apply elem_of_nil in Hy; contradiction|].
        apply StronglySorted_cons in Srem as (Hx & _). rewrite Forall_forall in Hx.
        assert (Hbx : String.ltb (LName bLabel) (LName x) = true).
        { apply ltb_total; [exact Hrem|exact Hne]. }
        intros y Hy. apply elem_of_cons in Hy as [->|Hy]; [exact Hbx|].
        eapply ltb_trans; [exact Hbx|apply Hx, Hy].
      - rewrite Hx in Srem. apply StronglySorted_cons in Srem as (Hall & Srem).
        rewrite Forall_forall in Hall. split; [exact Srem|].
        split; [intros y Hy; rewrite <- Hname; apply Hall, Hy|].
        split.
        + intros y Hy. rewrite Hx. right. exact Hy.
        + intros y Hy. rewrite Hx in Hy. apply elem_of_cons in Hy as [->|Hy]; auto. }
    destruct Ha2 as (Sa2 & Habove & Hsub & Hback).
    destruct (IH a2 Sa2 Srest) as (Smerge & Hmem).
    split.
    + apply StronglySorted_app. split; [|split; [exact Smoved|]].
      * intros x y Hx Hy. apply elem_of_cons in Hy as [->|Hy]; [apply Hmoved, Hx|].
        apply Hmem in Hy as [Hy|[Hy _]].
        -- eapply ltb_trans; [apply Hmoved, Hx|apply Hb, Hy].
        -- apply Hcross; [exact Hx|apply Hsub, Hy].
      * apply StronglySorted_cons. split; [|exact Smerge].
        apply Forall_forall. intros y Hy.
        apply Hmem in Hy as [Hy|[Hy _]]; [apply Hb, Hy|apply Habove, Hy].
    + intros l. rewrite elem_of_app, !elem_of_cons, Hmem, fmap_cons, not_elem_of_cons.
      rewrite elem_of_app. split.
      * intros [Hl|[->|[Hl|[Hl Hnot]]]]; auto.
        -- right. split; [auto|]. split; [apply ltb_ne, Hmoved, Hl|].
           intros Hin. apply list_elem_of_fmap in Hin as (y & Hy & Hin).
           pose proof (ltb_trans _ _ _ (Hmoved l Hl) (Hb y Hin)) as Hlt.
           rewrite Hy, ltb_irrefl in Hlt. discriminate.
        -- right. split; [right; apply Hsub, Hl|]. split; [|exact Hnot].
           intros Heq. pose proof (Habove l Hl) as Hlt.
           rewrite Heq, ltb_irrefl in Hlt. discriminate.
      * intros [[->|Hl]|[[Hl|Hl] [Hne Hnot]]]; auto.
        destruct (Hback l Hl) as [Hin|Heq]; [auto 6|contradiction].
Qed.

(** X19: [mergeLabels] merges two lists of labels sorted by name, as its
    comment says: when [a] and [b] are sorted by name without a name twice,
    so is the result; it holds every label of [b], and the labels of [a]
    whose name is not a name of [b], and nothing else: on a name that both
    have, the value of [b] wins. *)
Theorem mergeLabels_sorted (a b : list LabelPair) :
  sortedLabels a -> sortedLabels b ->
  sortedLabels (mergeLabels a b)
  /\ forall l, l ∈ mergeLabels a b <-> l ∈ b \/ (l ∈ a /\ LName l ∉ LName <$> b).
Proof. intros Sa Sb. apply merge_sorted; assumption. Qed.

Lemma sortedLabels_NoDup l : sortedLabels l -> NoDup l.
Proof.
  unfold sortedLabels. induction 1 as [|x l Sl IH Hx]; constructor; [|exact IH].
  intros Hin. rewrite Forall_forall in Hx. specialize (Hx x Hin).
  rewrite ltb_irrefl in Hx. discriminate.
Qed.

(** X20: merging the labels of a gatherer a second time changes nothing:
    for [a] and [b] sorted by name, [mergeLabels (mergeLabels a b) b] is
    [mergeLabels a b]; a metric whose labels were merged already, as happens
    when a source hands out the same metric at every gathering, keeps its
    labels. *)
Theorem mergeLabels_idempotent (a b : list LabelPair) :
  sortedLabels a -> sortedLabels b ->
  mergeLabels (mergeLabels a b) b = mergeLabels a b.
Proof.
  intros Sa Sb.
  destruct (merge_sorted b a Sa Sb) as (S1 & M1).
  destruct (merge_sorted b (mergeLabels a b) S1 Sb) as (S2 & M2).
  apply (StronglySorted_unique_strong
           (fun x y => String.ltb (LName x) (LName y) = true)); try assumption.
  - intros x y _ _ Hxy Hyx. pose proof (ltb_trans _ _ _ Hxy Hyx) as Hlt.
    rewrite ltb_irrefl in Hlt. discriminate.
  - apply NoDup_Permutation; [apply sortedLabels_NoDup, S2|apply sortedLabels_NoDup, S1|].
    intros l. rewrite M2, M1. tauto.
Qed.

End MergeLabelsFacts.

(** ** Gatherers *)

Section GathererFacts.
Import Gatherer.
Context {V E : Type}.

Lemma relabel_metrics labels (mfs : list (MetricFamily V)) mf m :
  mf ∈ relabel labels <$> mfs -> m ∈ FMetric mf ->
  exists mf0 m0,
    mf0 ∈ mfs /\ m0 ∈ FMetric mf0
    /\ MLabel m = mergeLabels (MLabel m0) labels /\ MRest m = MRest m0.
Proof.
  intros Hmf Hm. apply list_elem_of_fmap in Hmf as (mf0 & -> & Hmf0).
  cbn [relabel FMetric] in Hm. apply list_elem_of_fmap in Hm as (m0 & -> & Hm0).
  exists mf0, m0. auto.
Qed.

(** X21: a labeled gatherer stamps what it gathers with its labels, the
    reserved ones apart: every metric it returns carries every extra label
    it was made with whose name does not start with the reserved prefix; and
    a label with the reserved prefix on a metric it returns is a label the
    source gave some metric.  When only probes are asked for and the source
    is not a probe, it returns nothing and no error. *)
Theorem labeled_gatherer_stamps_labels (probe : bool) (extraLabels : list LabelPair)
    (source : GatherState -> list (MetricFamily V) * option E) (state : GatherState) :
  let gathered :=
    labeledGatherer_GatherWithState probe (newLabeledGatherer extraLabels) source state in
  (forall mf m l,
     mf ∈ gathered.1 -> m ∈ FMetric mf ->
     l ∈ extraLabels -> String.prefix ReservedLabelPrefix (LName l) = false ->
     l ∈ MLabel m)
  /\ (forall mf m l,
        mf ∈ gathered.1 -> m ∈ FMetric mf ->
        l ∈ MLabel m -> String.prefix ReservedLabelPrefix (LName l) = true ->
        exists mf0 m0, mf0 ∈ (source state).1 /\ m0 ∈ FMetric mf0 /\ l ∈ MLabel m0)
  /\ (probe = false -> GSQueryType state = OnlyProbes -> gathered = ([], None)).
Proof.
  cbv zeta. unfold labeledGatherer_GatherWithState.
  split; [|split].
  - destruct (negb probe && _).
    { intros mf m l Hmf. apply elem_of_nil in Hmf. contradiction. }
    destruct (source state) as [mfs err].
    destruct (Nat.eqb_spec (length (newLabeledGatherer extraLabels)) 0) as [Hlen|Hlen].
    + intros mf m l _ _ Hl Hpre. exfalso.
      assert (Hin : l ∈ newLabeledGatherer extraLabels).
      { apply list_elem_of_filter. auto. }
      destruct (newLabeledGatherer extraLabels); [|discriminate].
      apply elem_of_nil in Hin. exact Hin.
    + cbn [fst]. intros mf m l Hmf Hm Hl Hpre.
      destruct (relabel_metrics _ _ _ _ Hmf Hm) as (mf0 & m0 & _ & _ & -> & _).
      eapply elem_of_sublist; [|apply merge_sublist].
      apply list_elem_of_filter. auto.
  - destruct (negb probe && _).
    { intros mf m l Hmf. apply elem_of_nil in Hmf. contradiction. }
    destruct (source state) as [mfs err].
    destruct (length (newLabeledGatherer extraLabels) =? 0)%nat; cbn [fst].
    + intros mf m l Hmf Hm Hl _. eauto.
    + intros mf m l Hmf Hm Hl Hpre.
      destruct (relabel_metrics _ _ _ _ Hmf Hm) as (mf0 & m0 & Hmf0 & Hm0 & Hlab & _).
      rewrite Hlab in Hl. apply merge_elem_of in Hl as [Hl|Hl]; [eauto|].
      apply list_elem_of_filter in Hl as [Hno _]. congruence.
  - intros -> ->. reflexivity.
Qed.

Lemma firstNamed_snoc (mfs : list (MetricFamily V)) mf name :
  firstNamed (mfs ++ [mf]) name
  = match firstNamed mfs name with
    | Some first => Some first
    | None => if decide (FName mf = name) then Some mf else None
    end.
Proof.
  unfold firstNamed. rewrite filter_app.
  destruct (filter _ mfs) as [|first l]; cbn [app head].
  - rewrite filter_cons, filter_nil. destruct (decide (FName mf = name)); reflexivity.
  - reflexivity.
Qed.

Lemma firstNamed_name (mfs : list (MetricFamily V)) name first :
  firstNamed mfs name = Some first -> FName first = name /\ first ∈ mfs.
Proof.
  unfold firstNamed. intros Hhead.
  assert (Hin : first ∈ filter (fun mf => FName mf = name) mfs).
  { destruct (filter _ mfs); [discriminate|]. injection Hhead as ->. left. }
  apply list_elem_of_filter in Hin. exact Hin.
Qed.

Lemma firstNamed_None (mfs : list (MetricFamily V)) name mf :
  firstNamed mfs name = None -> mf ∈ mfs -> FName mf <> name.
Proof.
  unfold firstNamed. intros Hhead Hin Hname.
  assert (Hf : mf ∈ filter (fun mf => FName mf = name) mfs).
  { apply list_elem_of_filter. auto. }
  destruct (filter _ mfs); [apply elem_of_nil in Hf; exact Hf|discriminate].
Qed.

Lemma mergeFamilies_snoc (mfs : list (MetricFamily V)) mf :
  mergeFamilies (mfs ++ [mf]) = mergeFamily (mergeFamilies mfs) mf.
Proof. unfold mergeFamilies. rewrite fold_left_app. reflexivity. Qed.

Lemma mergedInto_snoc_other (mfs : list (MetricFamily V)) mf first :
  ~ (FName mf = FName first /\ FType mf = FType first) ->
  mergedInto (mfs ++ [mf]) first = mergedInto mfs first.
Proof.
  intros Hne. unfold mergedInto. rewrite filter_app, filter_cons, filter_nil.
  rewrite decide_False by exact Hne. rewrite app_nil_r. reflexivity.
Qed.

Lemma mergedInto_snoc_same (mfs : list (MetricFamily V)) mf first :
  FName mf = FName first -> FType mf = FType first ->
  mergedInto (mfs ++ [mf]) first
  = {| FName := FName first; FHelp := FHelp first; FType := FType first;
       FMetric := FMetric (mergedInto mfs first) ++ FMetric mf |}.
Proof.
  intros Hname Htype. unfold mergedInto. rewrite filter_app, filter_cons, filter_nil.
  rewrite decide_True by auto.
  rewrite fmap_app, concat_app. cbn. rewrite app_nil_r. reflexivity.
Qed.

Lemma omap_ext_in {A B} (f g : A -> option B) (l : list A) :
  (forall x, x ∈ l -> f x = g x) -> omap f l = omap g l.
Proof.
  induction l as [|x l IH]; intros Hfg; [reflexivity|].
  cbn. rewrite (Hfg x) by left. rewrite IH; [reflexivity|].
  intros y Hy. apply Hfg. right. exact Hy.
Qed.

Lemma filter_none {A} (P : A -> Prop) `{forall x, Decision (P x)} (l : list A) :
  (forall x, x ∈ l -> ~ P x) -> filter P l = [].
Proof.
  induction l as [|x l IH]; intros Hnone; [reflexivity|].
  rewrite filter_cons, decide_False by (apply Hnone; left).
  apply IH. intros y Hy. apply Hnone. right. exact Hy.
Qed.

Lemma typeErrorOf_snoc (mfs : list (MetricFamily V)) mf :
  omap (typeErrorOf (mfs ++ [mf])) mfs = omap (typeErrorOf mfs) mfs.
Proof.
  apply omap_ext_in. intros x Hx. unfold typeErrorOf. rewrite firstNamed_snoc.
  destruct (firstNamed mfs (FName x)) eqn:Hfirst; [reflexivity|].
  exfalso. exact (firstNamed_None _ _ _ Hfirst Hx eq_refl).
Qed.

(** X22: [Gatherers.GatherWithState] merges the families gathered by name:
    the families it hands to the final checks hold one family per name
    gathered; that family has the help text and the type of the first
    family gathered with the name, and the metrics, in the order gathered,
    of the families of the name that have that type.  A family whose type
    differs from the first of its name is dropped, with one error that names
    it, its type and the type expected. *)
Theorem Gatherers_merge_by_name (mfs : list (MetricFamily V)) :
  (forall name,
     (mergeFamilies mfs).1 !! name = mergedInto mfs <$> firstNamed mfs name)
  /\ (mergeFamilies mfs).2 = omap (typeErrorOf mfs) mfs.
Proof.
  induction mfs as [|mf mfs [IHmap IHerr]] using rev_ind.
  - split; [intros name; apply lookup_empty|reflexivity].
  - rewrite mergeFamilies_snoc. unfold mergeFamily.
    rewrite omap_app, typeErrorOf_snoc, <- IHerr.
    rewrite (IHmap (FName mf)).
    assert (Hlast : typeErrorOf (mfs ++ [mf]) mf
                    = match firstNamed mfs (FName mf) with
                      | Some first =>
                          if FType first =? FType mf then None
                          else Some {| errName := FName mf; errType := FType mf;
                                       errExpected := FType first |}
                      | None => None
                      end).
    { unfold typeErrorOf. rewrite firstNamed_snoc.
      destruct (firstNamed mfs (FName mf)); [reflexivity|].
      rewrite decide_True by reflexivity. rewrite Z.eqb_refl. reflexivity. }
    cbn [omap list_omap]. rewrite Hlast. clear Hlast.
    destruct (firstNamed mfs (FName mf)) as [first|] eqn:Efirst; cbn [fmap option_fmap option_map].
    + destruct (firstNamed_name _ _ _ Efirst) as [Hname _].
      cbn [mergedInto FType FName FHelp].
      destruct (Z.eqb_spec (FType first) (FType mf)) as [Htype|Htype]; cbn [negb fst snd].
      * split; [|rewrite app_nil_r; reflexivity].
        intros name. rewrite firstNamed_snoc.
        destruct (decide (FName mf = name)) as [<-|Hne].
        -- rewrite lookup_insert_eq, Efirst. cbn. f_equal.
           rewrite mergedInto_snoc_same by congruence. reflexivity.
        -- rewrite lookup_insert_ne by exact Hne. rewrite IHmap.
           destruct (firstNamed mfs name) as [f|] eqn:Ef; [|reflexivity].
           cbn. f_equal. symmetry. apply mergedInto_snoc_other.
           destruct (firstNamed_name _ _ _ Ef) as [Hf _]. intros [Heq _]. congruence.
      * split; [|reflexivity].
        intros name. rewrite firstNamed_snoc, IHmap.
        destruct (firstNamed mfs name) as [f|] eqn:Ef.
        -- cbn. f_equal. symmetry. apply mergedInto_snoc_other.
           destruct (firstNamed_name _ _ _ Ef) as [Hf _]. intros [Heq Hty].
           assert (f = first) by congruence. subst f. congruence.
        -- destruct (decide (FName mf = name)) as [<-|Hne]; [congruence|reflexivity].
    + cbn [fst snd]. split; [|rewrite app_nil_r; reflexivity].
      intros name. rewrite firstNamed_snoc.
      destruct (decide (FName mf = name)) as [<-|Hne].
      * rewrite lookup_insert_eq, Efirst. cbn. f_equal.
        unfold mergedInto. rewrite filter_app, filter_cons, filter_nil.
        rewrite decide_True by auto.
        rewrite filter_none; [cbn; rewrite app_nil_r; reflexivity|].
        intros x Hx [Hx' _]. exact (firstNamed_None _ _ _ Efirst Hx Hx').
      * rewrite lookup_insert_ne by exact Hne. rewrite IHmap.
        destruct (firstNamed mfs name) as [f|] eqn:Ef; [|reflexivity].
        cbn. f_equal. symmetry. apply mergedInto_snoc_other.
        destruct (firstNamed_name _ _ _ Ef) as [Hf _]. intros [Heq _]. congruence.
Qed.

End GathererFacts.

(** The labels of a metric of the node exporter, merged with the labels of
    the gatherer of a container. *)
Lemma mergeLabels_sorted_witness :
  Gatherer.sortedLabels (Gatherer.mergeLabels Gatherer.metricLabels Gatherer.gathererLabels)
  /\ forall l,
       l ∈ Gatherer.mergeLabels Gatherer.metricLabels Gatherer.gathererLabels
       <-> l ∈ Gatherer.gathererLabels
           \/ (l ∈ Gatherer.metricLabels
               /\ Gatherer.LName l ∉ Gatherer.LName <$> Gatherer.gathererLabels).
Proof.
  apply (mergeLabels_sorted Gatherer.metricLabels Gatherer.gathererLabels);
    unfold Gatherer.sortedLabels; compute_done.
Defined.

Lemma mergeLabels_idempotent_witness :
  Gatherer.mergeLabels
    (Gatherer.mergeLabels Gatherer.metricLabels Gatherer.gathererLabels)
    Gatherer.gathererLabels
  = Gatherer.mergeLabels Gatherer.metricLabels Gatherer.gathererLabels.
Proof.
  apply (mergeLabels_idempotent Gatherer.metricLabels Gatherer.gathererLabels);
    unfold Gatherer.sortedLabels; compute_done.
Defined.

(** What the sample merge gives: the instance of the gatherer wins. *)
Example mergeLabels_sample :
  Gatherer.mergeLabels Gatherer.metricLabels Gatherer.gathererLabels
  = [ {| Gatherer.LName := "container_name"; Gatherer.LValue := "redis" |};
      {| Gatherer.LName := "instance"; Gatherer.LValue := "redis:9121" |};
      {| Gatherer.LName := "job"; Gatherer.LValue := "node" |} ].
Proof. reflexivity. Qed.

(** ** The registry of tasks *)

Section TaskFacts.
Import Task.
Context {Runner : Type}.
Variable RunCloser : Runner -> bool.

Lemma wrapInt_small z : - 2 ^ 63 <= z < 2 ^ 63 -> wrapInt z = z.
Proof. intros Hz. unfold wrapInt. rewrite Z.mod_small by lia. lia. Qed.

(** A set that holds the IDs from 1 to [n] holds [n] IDs at least. *)
Lemma range_size (used : gset Z) (n : Z) :
  0 <= n -> (forall j, 1 <= j <= n -> j ∈ used) -> n <= Z.of_nat (size used).
Proof.
  intros Hn Hall.
  assert (Hsub : list_to_set (seqZ 1 n) ⊆ used).
  { intros j Hj. apply elem_of_list_to_set, elem_of_seqZ in Hj. apply Hall. lia. }
  apply subseteq_size in Hsub.
  rewrite size_list_to_set, length_seqZ in Hsub by apply NoDup_seqZ. lia.
Qed.

Lemma slot_spec (used : gset Z) : forall turns id,
  1 <= id ->
  (forall j, 1 <= j < id -> j ∈ used) ->
  Z.of_nat (size used) <= Z.of_nat turns + (id - 1) ->
  id + Z.of_nat turns <= 2 ^ 63 - 1 ->
  exists id',
    AddTask_slot used turns id = Some id'
    /\ id <= id' /\ (id' ∉ used) /\ (forall j, 1 <= j < id' -> j ∈ used).
Proof.
  induction turns as [|turns IH]; intros id Hid Hbelow Hsize Hmax; cbn [AddTask_slot].
  - destruct (decide (id ∈ used)) as [Hin|Hnot].
    + exfalso. assert (id <= Z.of_nat (size used)); [|lia].
      apply range_size; [lia|]. intros j Hj.
      destruct (decide (j = id)) as [->|Hne]; [exact Hin|apply Hbelow; lia].
    + exists id. repeat split; auto. lia.
  - destruct (decide (id ∈ used)) as [Hin|Hnot].
    + rewrite wrapInt_small by lia.
      destruct (Z.eqb_spec (id + 1) 0); [lia|].
      destruct (IH (id + 1)) as (id' & Hslot & Hle & Hfree & Hall); try lia.
      * intros j Hj. destruct (decide (j = id)) as [->|Hne]; [exact Hin|apply Hbelow; lia].
      * exists id'. repeat split; auto. lia.
    + exists id. repeat split; auto. lia.
Qed.

(** X23: as long as the registry runs fewer tasks than there are positive
    ints, [AddTask] does not panic and returns the smallest ID from 1 on that
    no running task has; the task is then recorded under this ID with its
    name, it is started, and the tasks of the other IDs are left as they
    were. *)
Theorem AddTask_smallest_free_id (r : Registry Runner) (task : Runner)
    (shortName : string) :
  Z.of_nat (size (taskCancelFuncs r)) < 2 ^ 63 - 1 ->
  exists r' id,
    Registry_AddTask r task shortName = Some (r', id)
    /\ 1 <= id
    /\ (id ∉ taskCancelFuncs r)
    /\ (forall j, 1 <= j < id -> j ∈ taskCancelFuncs r)
    /\ (forall j, j ∈ taskCancelFuncs r' <-> j = id \/ j ∈ taskCancelFuncs r)
    /\ tasks r' !! id = Some task
    /\ taskNames r' !! id = Some shortName
    /\ (forall j, j <> id ->
          tasks r' !! j = tasks r !! j /\ taskNames r' !! j = taskNames r !! j)
    /\ trace r' = trace r ++ [taskStarted id shortName].
Proof.
  intros Hsize. unfold Registry_AddTask.
  destruct (slot_spec (taskCancelFuncs r) (size (taskCancelFuncs r)) 1)
    as (id & -> & Hle & Hfree & Hall); try lia.
  eexists _, id. split; [reflexivity|].
  cbn [tasks taskNames taskCancelFuncs trace].
  repeat split; auto.
  - set_solver.
  - set_solver.
  - apply lookup_insert_eq.
  - apply lookup_insert_eq.
  - apply lookup_insert_ne. congruence.
  - apply lookup_insert_ne. congruence.
Qed.

Lemma Close_loop (l : list Z) : forall r : Registry Runner,
  NoDup l ->
  (forall k, k ∈ l -> k ∈ taskCancelFuncs r) ->
  taskCancelFuncs (foldl (Registry_removeTask RunCloser) r l)
  = taskCancelFuncs r ∖ list_to_set l
  /\ trace (foldl (Registry_removeTask RunCloser) r l)
     = trace r ++ (l ≫= stopEvents RunCloser r)
  /\ tasks (foldl (Registry_removeTask RunCloser) r l) = tasks r
  /\ taskNames (foldl (Registry_removeTask RunCloser) r l) = taskNames r.
Proof.
  induction l as [|k l IH]; intros r Hnodup Hin.
  - cbn. rewrite app_nil_r. repeat split.
    change (list_to_set []) with (∅ : gset Z). rewrite difference_empty_L. reflexivity.
  - apply NoDup_cons in Hnodup as [Hk Hnodup]. cbn [foldl].
    destruct (IH (Registry_removeTask RunCloser r k) Hnodup) as (Hc & Ht & Hts & Hn).
    { intros j Hj. cbn [Registry_removeTask taskCancelFuncs].
      apply elem_of_difference. split; [apply Hin; right; exact Hj|].
      intros Heq. apply elem_of_singleton in Heq. subst j. contradiction. }
    rewrite Hc, Ht, Hts, Hn. cbn [Registry_removeTask taskCancelFuncs trace tasks taskNames].
    rewrite decide_True by (apply Hin; left).
    repeat split.
    + rewrite list_to_set_cons, difference_difference_l_L. reflexivity.
    + rewrite <- app_assoc. reflexivity.
Qed.

(** X24: [RemoveTask] stops the task of an ID that runs, once: the task is
    cancelled and waited for, then closed if it is a [RunCloser], and its ID
    is free again; on an ID that does not run it changes nothing.  [Close]
    does so for every task that runs, each once, and leaves none running.
    Neither forgets the task or the name recorded under an ID. *)
Theorem RemoveTask_and_Close (r : Registry Runner) :
  (forall taskID,
     let r' := Registry_RemoveTask RunCloser r taskID in
     (taskID ∈ taskCancelFuncs r ->
        trace r' = trace r ++ stopEvents RunCloser r taskID
        /\ (forall j, j ∈ taskCancelFuncs r' <-> j ∈ taskCancelFuncs r /\ j <> taskID))
     /\ (taskID ∉ taskCancelFuncs r -> r' = r)
     /\ tasks r' = tasks r /\ taskNames r' = taskNames r)
  /\ (let r' := Registry_Close RunCloser r in
      taskCancelFuncs r' = ∅
      /\ trace r' = trace r ++ (elements (taskCancelFuncs r) ≫= stopEvents RunCloser r)
      /\ tasks r' = tasks r /\ taskNames r' = taskNames r).
Proof.
  split.
  - intros taskID. cbv zeta. unfold Registry_RemoveTask, Registry_removeTask.
    cbn [tasks taskNames taskCancelFuncs trace].
    split; [|split; [|auto]].
    + intros Hin. rewrite decide_True by exact Hin. split; [reflexivity|].
      intros j. set_solver.
    + intros Hnot. rewrite decide_False by exact Hnot. rewrite app_nil_r.
      rewrite difference_disjoint_L by set_solver. destruct r; reflexivity.
  - cbv zeta. unfold Registry_Close.
    destruct (Close_loop (elements (taskCancelFuncs r)) r) as (Hc & Ht & Hts & Hn).
    + apply NoDup_elements.
    + intros k Hk. apply elem_of_elements in Hk. exact Hk.
    + rewrite Hc, Ht, Hts, Hn. repeat split.
      rewrite list_to_set_elements_L. apply difference_diag_L.
Qed.

End TaskFacts.

(** A registry that runs the tasks 1 and 3 gives the ID 2 to the next
    task. *)
Lemma AddTask_smallest_free_id_witness :
  let r :=
    {| Task.tasks := {[ 1 := "netstat"; 3 := "nrpe" ]};
       Task.taskNames := {[ 1 := "netstat"; 3 := "nrpe" ]};
       Task.taskCancelFuncs := {[ 1; 3 ]};
       Task.trace := [] |} in
  exists r' id,
    Task.Registry_AddTask r "statsd" "statsd" = Some (r', id)
    /\ 1 <= id
    /\ (id ∉ Task.taskCancelFuncs r)
    /\ (forall j, 1 <= j < id -> j ∈ Task.taskCancelFuncs r)
    /\ (forall j, j ∈ Task.taskCancelFuncs r' <-> j = id \/ j ∈ Task.taskCancelFuncs r)
    /\ Task.tasks r' !! id = Some "statsd"
    /\ Task.taskNames r' !! id = Some "statsd"
    /\ (forall j, j <> id ->
          Task.tasks r' !! j = Task.tasks r !! j
          /\ Task.taskNames r' !! j = Task.taskNames r !! j)
    /\ Task.trace r' = Task.trace r ++ [Task.taskStarted id "statsd"].
Proof.
  cbv zeta. apply AddTask_smallest_free_id. vm_compute. reflexivity.
Defined.

Example AddTask_fills_the_gap :
  snd <$> Task.Registry_AddTask
            {| Task.tasks := {[ 1 := "netstat"; 3 := "nrpe" ]};
               Task.taskNames := {[ 1 := "netstat"; 3 := "nrpe" ]};
               Task.taskCancelFuncs := {[ 1; 3 ]};
               Task.trace := [] |} "statsd" "statsd"
  = Some 2.
Proof. vm_compute. reflexivity. Qed.

(** ** What the synchronizer synchronizes *)

Section SyncFacts.
Import GoTime Synchronizer.

Lemma forced_all (l : list (string * bool)) : forall (m : gmap string bool) k,
  NoDup l.*1 ->
  fold_left forced l m !! k
  = match (list_to_map l : gmap string bool) !! k with
    | Some full => Some (full || default false (m !! k))
    | None => m !! k
    end.
Proof.
  induction l as [|[k0 v0] l IH]; intros m k Hnodup; [reflexivity|].
  cbn [fmap list_fmap fst] in Hnodup. apply NoDup_cons in Hnodup as [Hk0 Hnodup].
  cbn [fold_left list_to_map foldr]. rewrite IH by exact Hnodup.
  unfold forced. cbn [fst snd].
  destruct (decide (k = k0)) as [->|Hne].
  - rewrite !lookup_insert_eq.
    rewrite (proj1 (not_elem_of_list_to_map l k0) Hk0). reflexivity.
  - rewrite !lookup_insert_ne by congruence. reflexivity.
Qed.

Lemma syncToPerform_lookup s e k :
  (Synchronizer_syncToPerform s e).1 !! k
  = match forceSync s !! k with
    | Some full => Some (full || default false (syncToPerform_due s e !! k))
    | None => syncToPerform_due s e !! k
    end.
Proof.
  unfold Synchronizer_syncToPerform. cbn [fst].
  rewrite forced_all by apply NoDup_fst_map_to_list.
  rewrite list_to_map_to_list. reflexivity.
Qed.

Lemma due_full s e k :
  fullSyncDue s e = true -> k ∈ syncStep -> syncToPerform_due s e !! k = Some true.
Proof.
  intros Hfull Hk. unfold syncToPerform_due. rewrite Hfull. cbn [orb].
  unfold syncStep in Hk. rewrite !elem_of_cons, elem_of_nil in Hk.
  destruct Hk as [->|[->|[->|[->|[->|[]]]]]]; reflexivity.
Qed.

Lemma due_values s e k v :
  syncToPerform_due s e !! k = Some v -> v = fullSyncDue s e /\ k ∈ syncStep.
Proof.
  unfold syncToPerform_due, syncStep.
  destruct (fullSyncDue s e);
    destruct (negb (String.eqb (lastFactUpdatedAt s) (factUpdatedAt e)));
    destruct (Before (lastSync s) (lastUpdate1 e));
    destruct (Before (lastSync s) (lastUpdate2 e));
    destruct (Before (lastSync s) (lastUpdate3 e));
    destruct (negb (lastMetricCount s =? metricsCount e));
    cbn [orb]; simplify_map_eq; intros Hv;
    repeat match type of Hv with
           | <[ _ := _ ]> _ !! _ = Some _ =>
               apply lookup_insert_Some in Hv as [[<- <-]|[? Hv]];
               [first [ split; [reflexivity|rewrite !elem_of_cons; auto 10]
                      | exfalso; congruence ]|]
           end;
    try (rewrite lookup_empty in Hv); try discriminate Hv.
Qed.

Lemma due_metrics s e :
  is_Some (syncToPerform_due s e !! "services")
  \/ is_Some (syncToPerform_due s e !! "containers") ->
  is_Some (syncToPerform_due s e !! "metrics").
Proof.
  unfold syncToPerform_due.
  destruct (fullSyncDue s e);
    destruct (negb (String.eqb (lastFactUpdatedAt s) (factUpdatedAt e)));
    destruct (Before (lastSync s) (lastUpdate1 e));
    destruct (Before (lastSync s) (lastUpdate2 e));
    destruct (Before (lastSync s) (lastUpdate3 e));
    destruct (negb (lastMetricCount s =? metricsCount e));
    cbn [orb]; simplify_map_eq; intros [[v Hv]|[v Hv]]; simplify_map_eq; eauto.
Qed.

(** X25: what [syncToPerform] plans.  The requests recorded in [forceSync]
    are all planned, as full steps if they were forced as full ones, and
    [forceSync] is left empty.  When a full synchronization is due, the five
    steps of [runOnce] are all planned as full steps.  A step is only
    planned as a full one when a full synchronization is due or the step was
    forced as a full one, and only the five steps and the forced ones are
    planned.  When the services or the containers are planned without
    having been forced, the metrics are planned too. *)
Theorem syncToPerform_plan (s : syncFields) (e : readings) :
  let plan := (Synchronizer_syncToPerform s e).1 in
  forceSync (Synchronizer_syncToPerform s e).2 = ∅
  /\ (forall k full,
        forceSync s !! k = Some full ->
        exists v, plan !! k = Some v /\ (full = true -> v = true))
  /\ (fullSyncDue s e = true -> forall k, k ∈ syncStep -> plan !! k = Some true)
  /\ (forall k,
        plan !! k = Some true ->
        fullSyncDue s e = true \/ forceSync s !! k = Some true)
  /\ (forall k, is_Some (plan !! k) -> k ∈ syncStep \/ is_Some (forceSync s !! k))
  /\ (forall k,
        k = "services" \/ k = "containers" ->
        is_Some (plan !! k) -> forceSync s !! k = None ->
        is_Some (plan !! "metrics")).
Proof.
  cbv zeta. split; [reflexivity|]. split; [|split; [|split; [|split]]].
  - intros k full Hk. rewrite syncToPerform_lookup, Hk. eexists. split; [reflexivity|].
    intros ->. reflexivity.
  - intros Hfull k Hk. rewrite syncToPerform_lookup, (due_full s e k Hfull Hk).
    destruct (forceSync s !! k) as [full|]; [|reflexivity].
    cbn. rewrite orb_true_r. reflexivity.
  - intros k. rewrite syncToPerform_lookup.
    destruct (forceSync s !! k) as [full|] eqn:Hforce.
    + intros [= Hv]. destruct full; [auto|]. cbn [orb] in Hv.
      destruct (syncToPerform_due s e !! k) as [v|] eqn:Hdue; [|discriminate].
      cbn in Hv. subst v. left. symmetry. apply (due_values s e k true Hdue).
    + intros Hdue. left. symmetry. apply (due_values s e k true Hdue).
  - intros k. rewrite syncToPerform_lookup.
    destruct (forceSync s !! k) as [full|] eqn:Hforce; [eauto|].
    intros [v Hv]. left. apply (due_values s e k v Hv).
  - intros k Hk. rewrite !syncToPerform_lookup. intros Hplan Hforce.
    rewrite Hforce in Hplan.
    assert (Hm : is_Some (syncToPerform_due s e !! "metrics")).
    { apply due_metrics. destruct Hk as [->| ->]; auto. }
    destruct (forceSync s !! "metrics"); [eauto|exact Hm].
Qed.

End SyncFacts.

Section RequestFacts.
Import GoTime Synchronizer.

Lemma due_or_false s e k :
  default false (syncToPerform_due s e !! k) = true -> fullSyncDue s e = true.
Proof.
  destruct (syncToPerform_due s e !! k) as [v|] eqn:Hdue; [|discriminate].
  cbn. intros ->. symmetry. apply (due_values s e k true Hdue).
Qed.

(** A step forced as one that is not full is planned, as a full one exactly
    when a full synchronization is due. *)
Lemma forced_partial s e k :
  forceSync s !! k = Some false -> k ∈ syncStep ->
  (Synchronizer_syncToPerform s e).1 !! k = Some (fullSyncDue s e).
Proof.
  intros Hforce Hk. rewrite syncToPerform_lookup, Hforce. cbn [orb]. f_equal.
  destruct (fullSyncDue s e) eqn:Hfull.
  - rewrite (due_full s e k Hfull Hk). reflexivity.
  - destruct (default false (syncToPerform_due s e !! k)) eqn:Hdue; [|reflexivity].
    apply due_or_false in Hdue. congruence.
Qed.

(** X26: the requests made to the synchronizer are planned by the next
    [syncToPerform].  After [NotifyConfigUpdate], the agent is planned as a
    full step, and so are the metrics and the containers if the change is
    immediate.  After [UpdateMetrics] for an unknown metric (one empty
    UUID), the metrics are planned as a full step and no UUID is pending;
    after [UpdateMetrics] for other UUIDs, these are appended to the pending
    ones and the metrics are planned, as a full step exactly when a full
    synchronization is due, whatever was requested before.  After
    [UpdateContainers], the containers are planned in the same way. *)
Theorem requests_are_planned (s : syncFields) (e : readings) :
  (forall immediate,
     let plan := (Synchronizer_syncToPerform
                    (Synchronizer_NotifyConfigUpdate s immediate) e).1 in
     plan !! "agent" = Some true
     /\ (immediate = true ->
         plan !! "metrics" = Some true /\ plan !! "containers" = Some true))
  /\ (let s' := Synchronizer_UpdateMetrics s [""] in
      (Synchronizer_syncToPerform s' e).1 !! "metrics" = Some true
      /\ pendingMetricsUpdate s' = [])
  /\ (forall metricUUID,
        metricUUID <> [""] ->
        let s' := Synchronizer_UpdateMetrics s metricUUID in
        (Synchronizer_syncToPerform s' e).1 !! "metrics" = Some (fullSyncDue s e)
        /\ pendingMetricsUpdate s' = pendingMetricsUpdate s ++ metricUUID)
  /\ (Synchronizer_syncToPerform (Synchronizer_UpdateContainers s) e).1 !! "containers"
     = Some (fullSyncDue s e).
Proof.
  split; [|split; [|split]].
  - intros immediate. cbv zeta. rewrite !syncToPerform_lookup.
    unfold Synchronizer_NotifyConfigUpdate.
    destruct immediate; cbn [negb withForceSync forceSync]; simplify_map_eq.
    + auto.
    + split; [reflexivity|discriminate].
  - cbv zeta. rewrite syncToPerform_lookup. cbn. simplify_map_eq. auto.
  - intros metricUUID Hne. cbv zeta.
    assert (Hs : Synchronizer_UpdateMetrics s metricUUID
                 = withPending s (<["metrics" := false]> (forceSync s))
                     (pendingMetricsUpdate s ++ metricUUID)).
    { unfold Synchronizer_UpdateMetrics.
      destruct metricUUID as [|only [|]]; try reflexivity.
      destruct (String.eqb_spec only ""); [subst; contradiction|reflexivity]. }
    rewrite Hs. split; [|reflexivity].
    apply (forced_partial (withPending s _ _) e "metrics").
    + cbn. apply lookup_insert_eq.
    + unfold syncStep. rewrite !elem_of_cons. auto 10.
  - apply (forced_partial (Synchronizer_UpdateContainers s) e "containers").
    + cbn. apply lookup_insert_eq.
    + unfold syncStep. rewrite !elem_of_cons. auto 10.
Qed.

(** X27: [popPendingMetricsUpdate] returns every pending UUID once, however
    many times it was requested, and leaves none pending: what it returns
    has no duplicate and holds the pending UUIDs and nothing else, the
    requests of [forceSync] are kept, and a second call returns nothing. *)
Theorem pending_metrics_pop_once (s : syncFields) :
  let popped := Synchronizer_popPendingMetricsUpdate s in
  NoDup popped.1
  /\ (forall uuid, uuid ∈ popped.1 <-> uuid ∈ pendingMetricsUpdate s)
  /\ pendingMetricsUpdate popped.2 = []
  /\ forceSync popped.2 = forceSync s
  /\ (Synchronizer_popPendingMetricsUpdate popped.2).1 = [].
Proof.
  cbv zeta. unfold Synchronizer_popPendingMetricsUpdate. cbn.
  split; [apply NoDup_elements|]. split.
  - intros uuid. rewrite elem_of_elements, elem_of_list_to_set. reflexivity.
  - split; [reflexivity|]. split; [reflexivity|]. apply elements_empty.
Qed.

End RequestFacts.

Section DuplicateFacts.
Import GoTime Synchronizer.
Context {Fact : Type} `{EqDecision Fact}.

Lemma changedFact_None (oldFacts newFacts : gmap string Fact) names :
  changedFact oldFacts newFacts names = None
  <-> forall name old new,
        name ∈ names -> oldFacts !! name = Some old -> newFacts !! name = Some new ->
        old = new.
Proof.
  induction names as [|name rest IH]; cbn [changedFact].
  - split; [|reflexivity]. intros _ name old new Hin. apply elem_of_nil in Hin.
    contradiction.
  - destruct (oldFacts !! name) as [old|] eqn:Eold;
      [destruct (newFacts !! name) as [new|] eqn:Enew;
        [destruct (bool_decide_reflect (old = new)) as [Heq|Hne]|]|].
    + rewrite IH. split.
      * intros Hrest n o' n' Hin Ho Hn. apply elem_of_cons in Hin as [->|Hin].
        -- congruence.
        -- apply (Hrest n); assumption.
      * intros Hall n o' n' Hin. apply Hall. right. exact Hin.
    + split; [discriminate|]. intros Hall. exfalso. apply Hne.
      apply (Hall name); [left|assumption|assumption].
    + rewrite IH. split.
      * intros Hrest n o' n' Hin Ho Hn. apply elem_of_cons in Hin as [->|Hin].
        -- congruence.
        -- apply (Hrest n); assumption.
      * intros Hall n o' n' Hin. apply Hall. right. exact Hin.
    + rewrite IH. split.
      * intros Hrest n o' n' Hin Ho Hn. apply elem_of_cons in Hin as [->|Hin].
        -- congruence.
        -- apply (Hrest n); assumption.
      * intros Hall n o' n' Hin. apply Hall. right. exact Hin.
Qed.

(** X28: [checkDuplicated] tells a duplicated agent by its facts: when the
    facts are updated, it disables the synchronizer exactly when one of the
    facts fqdn, primary_address and primary_mac_address is in the cache
    before and after the update with two values.  It then disables it until
    the time given, for the reason of a duplicated agent, whatever the
    deadline and the reason were, passes both to the callback and returns
    an error; otherwise it changes nothing and returns no error.  When the
    update of the facts fails, it changes nothing and returns that error. *)
Theorem checkDuplicated_disables (s : Synchronizer)
    (oldFacts newFacts : gmap string Fact) (until : Time) (err : string) :
  let duplicated :=
    exists name old new,
      name ∈ factNames /\ oldFacts !! name = Some old
      /\ newFacts !! name = Some new /\ old <> new in
  (duplicated ->
     Synchronizer_checkDuplicated s oldFacts (inl newFacts) until
     = ({| disabledUntil := until; disableReason := DisableDuplicatedAgent |},
        Some (DisableDuplicatedAgent, until),
        Some "bleemeo connector temporary disabled"))
  /\ (~ duplicated ->
      Synchronizer_checkDuplicated s oldFacts (inl newFacts) until = (s, None, None))
  /\ Synchronizer_checkDuplicated s oldFacts (inr err) until = (s, None, Some err).
Proof.
  cbv zeta. unfold Synchronizer_checkDuplicated.
  split; [|split; [|reflexivity]].
  - intros (name & old & new & Hin & Hold & Hnew & Hne).
    destruct (changedFact oldFacts newFacts factNames) eqn:Hchanged; [reflexivity|].
    exfalso. apply Hne.
    apply (proj1 (changedFact_None oldFacts newFacts factNames) Hchanged name);
      assumption.
  - intros Hnot.
    destruct (changedFact oldFacts newFacts factNames) eqn:Hchanged; [|reflexivity].
    exfalso.
    assert (Hnone : changedFact oldFacts newFacts factNames = None); [|congruence].
    apply changedFact_None. intros name old new Hin Hold Hnew.
    destruct (decide (old = new)) as [Heq|Hne]; [exact Heq|].
    exfalso. apply Hnot. exists name, old, new. auto.
Qed.

End DuplicateFacts.
